(** * ReservoirNN: the Kuramoto-Sivashinsky ETDRK4 solver (kuramoto.py)

    A shallow embedding of class [KS]: the object is a record, every
    method is a function from the record to an [outcome] (what it returns
    or raises, together with the object as the method leaves it), and
    numpy arrays are lists.  Floating-point arithmetic enters through the
    interface [Numerics]: each numpy ufunc is a value function together
    with the predicate telling when numpy, under
    [np.seterr(over='raise', invalid='raise')], raises FloatingPointError
    for that element. *)

From Stdlib Require Import ZArith List Bool Lia.
From Stdlib Require Import PrimFloat FloatOps SpecFloat FloatAxioms.
Import ListNotations.
Local Open Scope Z_scope.

(** ** Exceptions and the result monad *)

Inductive exn : Type :=
| FloatingPointError
| ZeroDivisionError
| ValueError
| IndexError
| OverflowError.

Inductive res (A : Type) : Type :=
| Ok (a : A)
| Err (e : exn).
Arguments Ok {A} a.
Arguments Err {A} e.

Definition bind {A B : Type} (m : res A) (f : A -> res B) : res B :=
  match m with
  | Ok a => f a
  | Err e => Err e
  end.

Notation "x <- m ;; k" := (bind m (fun x => k))
  (at level 61, m at next level, right associativity).

(** [computes q m a]: the expression [m] evaluates to [a] unless a
    floating-point exception is raised, and it does evaluate when [q]
    holds. *)
Definition computes {A : Type} (q : Prop) (m : res A) (a : A) : Prop :=
  (m = Ok a \/ m = Err FloatingPointError) /\ (q -> m = Ok a).

(** Every row of a 2-D array has [cols] entries. *)
Definition rectangular {A : Type} (a : list (list A)) (cols : nat) : Prop :=
  Forall (fun row => length row = cols) a.

(** ** numpy ufuncs and broadcasting of 1-D arrays *)

Record ufunc1 (A B : Type) : Type := Ufunc1 {
  call1 : A -> B;
  fperr1 : A -> bool
}.
Arguments call1 {A B} u a.
Arguments fperr1 {A B} u a.

Record ufunc2 (A : Type) : Type := Ufunc2 {
  call2 : A -> A -> A;
  fperr2 : A -> A -> bool
}.
Arguments call2 {A} u a b.
Arguments fperr2 {A} u a b.

(** Two 1-D operands are paired element by element when their lengths
    agree; an operand of length one is stretched; any other pair of
    shapes is numpy's "operands could not be broadcast together". *)
Definition broadcast2 {A : Type} (x y : list A) : res (list (A * A)) :=
  if (length x =? length y)%nat then Ok (combine x y)
  else match x, y with
       | [a], _ => Ok (map (fun b => (a, b)) y)
       | _, [b] => Ok (map (fun a => (a, b)) x)
       | _, _ => Err ValueError
       end.

(** The loop runs over the whole array, then the floating-point status
    is checked. *)
Definition apply1 {A B : Type} (u : ufunc1 A B) (x : list A) : res (list B) :=
  if existsb (fperr1 u) x then Err FloatingPointError
  else Ok (map (call1 u) x).

Definition apply2 {A : Type} (u : ufunc2 A) (x y : list A) : res (list A) :=
  p <- broadcast2 x y ;;
  if existsb (fun ab => fperr2 u (fst ab) (snd ab)) p
  then Err FloatingPointError
  else Ok (map (fun ab => call2 u (fst ab) (snd ab)) p).

Fixpoint mapM {A B : Type} (f : A -> res B) (a : list A) : res (list B) :=
  match a with
  | [] => Ok []
  | y :: a' => z <- f y ;; zs <- mapM f a' ;; Ok (z :: zs)
  end.

(** [range(1, stop)], also [np.r_[1:stop]] *)
Definition range1 (stop : Z) : list Z :=
  map Z.of_nat (seq 1 (Z.to_nat (stop - 1))).

(** ** The arithmetic the solver is written against *)

(** What [step], [simulate] and the buffers need. *)
Class Arith : Type := {
  F : Type;                       (* float64 *)
  C : Type;                       (* complex128 *)
  F32 : Type;                     (* float32 *)
  C32 : Type;                     (* complex64 *)
  F_lit : Z -> Z -> F;            (* the float64 nearest to n/d *)
  complex_of : F -> C;            (* promotion float64 -> complex128 *)
  np_real : C -> F;
  c64_of : C -> C32;              (* the cast done by a store into vv *)
  c64_zero : C32;
  np_real32 : C32 -> F32;
  py_add : F -> F -> F;           (* Python float addition: never raises *)
  np_power_f : Z -> ufunc1 F F;
  np_add : ufunc2 C;
  np_subtract : ufunc2 C;
  np_multiply : ufunc2 C;
  (* scipy.fftpack on a non-empty vector *)
  fft_r : list F -> list C;       (* fft of real input *)
  ifft_c : list C -> list C;
  ifft_c64 : list C32 -> list C32
}.

(** What the initial condition and the set-up of the coefficients need
    on top of it. *)
Class Numerics : Type := {
  arith :: Arith;
  F_of_Z : Z -> F;
  pi : F;
  complex_lit : F -> F -> C;      (* complex(re, im) *)
  py_neg_c : C -> C;              (* unary minus on a Python complex *)
  (* Python float arithmetic: never raises FloatingPointError *)
  py_mul : F -> F -> F;
  py_neg : F -> F;
  py_is_zero : F -> bool;
  py_truediv : F -> F -> F;       (* divisor already known non-zero *)
  py_int : F -> res Z;
  (* numpy ufuncs on float64 *)
  np_add_f : ufunc2 F;
  np_subtract_f : ufunc2 F;
  np_multiply_f : ufunc2 F;
  np_divide_f : ufunc2 F;
  np_exp_f : ufunc1 F F;
  np_cos : ufunc1 F F;
  np_sin : ufunc1 F F;
  (* numpy ufuncs on complex128 *)
  np_divide : ufunc2 C;
  np_power : Z -> ufunc1 C C;
  np_exp : ufunc1 C C;
  np_mean_c : ufunc1 (list C) C;  (* np.mean along the last axis *)
  (* np.random.rand(n): the draw is a parameter of the model *)
  random_rand : nat -> list F
}.

Section Integrator.

Context {Ar : Arith}.

(** An array whose dtype is decided at run time. *)
Inductive ndarray : Type :=
| Float64 (a : list F)
| Complex128 (a : list C).

Definition as_complex (a : ndarray) : list C :=
  match a with
  | Float64 x => map complex_of x
  | Complex128 x => x
  end.

Definition size0 (a : ndarray) : nat :=
  match a with
  | Float64 x => length x
  | Complex128 x => length x
  end.

(** scipy.fftpack rejects an empty vector. *)
Definition fft_real (x : list F) : res (list C) :=
  match x with [] => Err ValueError | _ => Ok (fft_r x) end.

Definition ifft (x : list C) : res (list C) :=
  match x with [] => Err ValueError | _ => Ok (ifft_c x) end.

(** ** The object *)

Record KS : Type := mkKS {
  L : F;
  N : Z;
  dx : F;
  dt : F;
  nsteps : Z;
  iout : Z;
  nout : Z;
  x : list F;
  k : list F;
  l : ndarray;
  E : ndarray;
  E2 : ndarray;
  M : Z;
  r : list C;
  LR : list (list C);
  Q : list F;
  f1 : list F;
  f2 : list F;
  f3 : list F;
  g : list C;
  u0 : ndarray;
  v0 : list C;
  v : list C;
  t : F;
  stepnum : Z;
  ioutnum : Z;
  vv : list (list C32);
  tt : list F;
  uu : option (list (list F32))   (* None: the attribute is not set yet *)
}.

(** What a method call leaves behind: the value it returns (None or an
    integer code) or the exception it raises, and the object as mutated
    up to that point. *)
Inductive outcome : Type :=
| Return (r : option Z) (s : KS)     (* [None] is Python's None *)
| Raise (e : exn) (s : KS).

Definition final (o : outcome) : KS :=
  match o with Return _ s => s | Raise _ s => s end.

Definition returned_none (o : outcome) : bool :=
  match o with Return None _ => true | _ => false end.

(** The error code of [IC] and [simulate]. *)
Definition minus_one : option Z := Some (-1).

(** ** step *)

(** [self.g*fft(np.real(ifft(x))**2)] *)
Definition nonlinear (s : KS) (x : list C) : res (list C) :=
  xi <- ifft x ;;
  sq <- apply1 (np_power_f 2) (map np_real xi) ;;
  fx <- fft_real sq ;;
  apply2 np_multiply (g s) fx.

(** A Python float next to an array is a 0-d operand: it broadcasts like
    an array of one element, promoted to the dtype of the other side. *)
Definition lit (n d : Z) : list F := [F_lit n d].
Definition clit (n d : Z) : list C := [complex_of (F_lit n d)].
Definition two : list C := clit 2 1.
Definition promote (a : list F) : list C := map complex_of a.

(** The right-hand side of [self.v = ...] with everything before it, in
    Python's evaluation order. *)
Definition step_value (s : KS) : res (list C) :=
  let v := v s in
  Nv <- nonlinear s v ;;
  e2v <- apply2 np_multiply (as_complex (E2 s)) v ;;
  qNv <- apply2 np_multiply (promote (Q s)) Nv ;;
  a <- apply2 np_add e2v qNv ;;
  Na <- nonlinear s a ;;
  e2v' <- apply2 np_multiply (as_complex (E2 s)) v ;;
  qNa <- apply2 np_multiply (promote (Q s)) Na ;;
  b <- apply2 np_add e2v' qNa ;;
  Nb <- nonlinear s b ;;
  e2a <- apply2 np_multiply (as_complex (E2 s)) a ;;
  twoNb <- apply2 np_multiply two Nb ;;
  d <- apply2 np_subtract twoNb Nv ;;
  qd <- apply2 np_multiply (promote (Q s)) d ;;
  c <- apply2 np_add e2a qd ;;
  Nc <- nonlinear s c ;;
  ev <- apply2 np_multiply (as_complex (E s)) v ;;
  nvf1 <- apply2 np_multiply Nv (promote (f1 s)) ;;
  s1 <- apply2 np_add ev nvf1 ;;
  nab <- apply2 np_add Na Nb ;;
  nab2 <- apply2 np_multiply two nab ;;
  nabf2 <- apply2 np_multiply nab2 (promote (f2 s)) ;;
  s2 <- apply2 np_add s1 nabf2 ;;
  ncf3 <- apply2 np_multiply Nc (promote (f3 s)) ;;
  apply2 np_add s2 ncf3.

(** Attribute stores, one per group of attributes assigned together. *)
Definition set_v (s : KS) (v' : list C) : KS :=
  mkKS (L s) (N s) (dx s) (dt s) (nsteps s) (iout s) (nout s) (x s) (k s)
       (l s) (E s) (E2 s) (M s) (r s) (LR s) (Q s) (f1 s) (f2 s) (f3 s)
       (g s) (u0 s) (v0 s) v' (t s) (stepnum s) (ioutnum s) (vv s) (tt s)
       (uu s).

Definition tick (s : KS) : KS :=
  mkKS (L s) (N s) (dx s) (dt s) (nsteps s) (iout s) (nout s) (x s) (k s)
       (l s) (E s) (E2 s) (M s) (r s) (LR s) (Q s) (f1 s) (f2 s) (f3 s)
       (g s) (u0 s) (v0 s) (v s) (py_add (t s) (dt s)) (stepnum s + 1)
       (ioutnum s) (vv s) (tt s) (uu s).

Definition set_ic (s : KS) (u : ndarray) (w : list C) : KS :=
  mkKS (L s) (N s) (dx s) (dt s) (nsteps s) (iout s) (nout s) (x s) (k s)
       (l s) (E s) (E2 s) (M s) (r s) (LR s) (Q s) (f1 s) (f2 s) (f3 s)
       (g s) u w w (F_lit 0 1) 0 0 (vv s) (tt s) (uu s).

Definition set_nsteps (s : KS) (n : Z) : KS :=
  mkKS (L s) (N s) (dx s) (dt s) n (iout s) (nout s) (x s) (k s)
       (l s) (E s) (E2 s) (M s) (r s) (LR s) (Q s) (f1 s) (f2 s) (f3 s)
       (g s) (u0 s) (v0 s) (v s) (t s) (stepnum s) (ioutnum s) (vv s) (tt s)
       (uu s).

Definition set_iout (s : KS) (n : Z) : KS :=
  mkKS (L s) (N s) (dx s) (dt s) (nsteps s) n (nout s) (x s) (k s)
       (l s) (E s) (E2 s) (M s) (r s) (LR s) (Q s) (f1 s) (f2 s) (f3 s)
       (g s) (u0 s) (v0 s) (v s) (t s) (stepnum s) (ioutnum s) (vv s) (tt s)
       (uu s).

Definition set_nout (s : KS) (n : Z) : KS :=
  mkKS (L s) (N s) (dx s) (dt s) (nsteps s) (iout s) n (x s) (k s)
       (l s) (E s) (E2 s) (M s) (r s) (LR s) (Q s) (f1 s) (f2 s) (f3 s)
       (g s) (u0 s) (v0 s) (v s) (t s) (stepnum s) (ioutnum s) (vv s) (tt s)
       (uu s).

Definition set_ioutnum (s : KS) (n : Z) : KS :=
  mkKS (L s) (N s) (dx s) (dt s) (nsteps s) (iout s) (nout s) (x s) (k s)
       (l s) (E s) (E2 s) (M s) (r s) (LR s) (Q s) (f1 s) (f2 s) (f3 s)
       (g s) (u0 s) (v0 s) (v s) (t s) (stepnum s) n (vv s) (tt s) (uu s).

Definition set_vv (s : KS) (a : list (list C32)) : KS :=
  mkKS (L s) (N s) (dx s) (dt s) (nsteps s) (iout s) (nout s) (x s) (k s)
       (l s) (E s) (E2 s) (M s) (r s) (LR s) (Q s) (f1 s) (f2 s) (f3 s)
       (g s) (u0 s) (v0 s) (v s) (t s) (stepnum s) (ioutnum s) a (tt s)
       (uu s).

Definition set_tt (s : KS) (a : list F) : KS :=
  mkKS (L s) (N s) (dx s) (dt s) (nsteps s) (iout s) (nout s) (x s) (k s)
       (l s) (E s) (E2 s) (M s) (r s) (LR s) (Q s) (f1 s) (f2 s) (f3 s)
       (g s) (u0 s) (v0 s) (v s) (t s) (stepnum s) (ioutnum s) (vv s) a
       (uu s).

Definition set_uu (s : KS) (a : list (list F32)) : KS :=
  mkKS (L s) (N s) (dx s) (dt s) (nsteps s) (iout s) (nout s) (x s) (k s)
       (l s) (E s) (E2 s) (M s) (r s) (LR s) (Q s) (f1 s) (f2 s) (f3 s)
       (g s) (u0 s) (v0 s) (v s) (t s) (stepnum s) (ioutnum s) (vv s) (tt s)
       (Some a).

Definition set_x (s : KS) (a : list F) : KS :=
  mkKS (L s) (N s) (dx s) (dt s) (nsteps s) (iout s) (nout s) a (k s)
       (l s) (E s) (E2 s) (M s) (r s) (LR s) (Q s) (f1 s) (f2 s) (f3 s)
       (g s) (u0 s) (v0 s) (v s) (t s) (stepnum s) (ioutnum s) (vv s) (tt s)
       (uu s).

Definition set_k (s : KS) (a : list F) : KS :=
  mkKS (L s) (N s) (dx s) (dt s) (nsteps s) (iout s) (nout s) (x s) a
       (l s) (E s) (E2 s) (M s) (r s) (LR s) (Q s) (f1 s) (f2 s) (f3 s)
       (g s) (u0 s) (v0 s) (v s) (t s) (stepnum s) (ioutnum s) (vv s) (tt s)
       (uu s).

Definition set_l (s : KS) (a : ndarray) : KS :=
  mkKS (L s) (N s) (dx s) (dt s) (nsteps s) (iout s) (nout s) (x s) (k s)
       a (E s) (E2 s) (M s) (r s) (LR s) (Q s) (f1 s) (f2 s) (f3 s)
       (g s) (u0 s) (v0 s) (v s) (t s) (stepnum s) (ioutnum s) (vv s) (tt s)
       (uu s).

Definition set_E (s : KS) (a : ndarray) : KS :=
  mkKS (L s) (N s) (dx s) (dt s) (nsteps s) (iout s) (nout s) (x s) (k s)
       (l s) a (E2 s) (M s) (r s) (LR s) (Q s) (f1 s) (f2 s) (f3 s)
       (g s) (u0 s) (v0 s) (v s) (t s) (stepnum s) (ioutnum s) (vv s) (tt s)
       (uu s).

Definition set_E2 (s : KS) (a : ndarray) : KS :=
  mkKS (L s) (N s) (dx s) (dt s) (nsteps s) (iout s) (nout s) (x s) (k s)
       (l s) (E s) a (M s) (r s) (LR s) (Q s) (f1 s) (f2 s) (f3 s)
       (g s) (u0 s) (v0 s) (v s) (t s) (stepnum s) (ioutnum s) (vv s) (tt s)
       (uu s).

Definition set_M (s : KS) (m : Z) : KS :=
  mkKS (L s) (N s) (dx s) (dt s) (nsteps s) (iout s) (nout s) (x s) (k s)
       (l s) (E s) (E2 s) m (r s) (LR s) (Q s) (f1 s) (f2 s) (f3 s)
       (g s) (u0 s) (v0 s) (v s) (t s) (stepnum s) (ioutnum s) (vv s) (tt s)
       (uu s).

Definition set_r (s : KS) (a : list C) : KS :=
  mkKS (L s) (N s) (dx s) (dt s) (nsteps s) (iout s) (nout s) (x s) (k s)
       (l s) (E s) (E2 s) (M s) a (LR s) (Q s) (f1 s) (f2 s) (f3 s)
       (g s) (u0 s) (v0 s) (v s) (t s) (stepnum s) (ioutnum s) (vv s) (tt s)
       (uu s).

Definition set_LR (s : KS) (a : list (list C)) : KS :=
  mkKS (L s) (N s) (dx s) (dt s) (nsteps s) (iout s) (nout s) (x s) (k s)
       (l s) (E s) (E2 s) (M s) (r s) a (Q s) (f1 s) (f2 s) (f3 s)
       (g s) (u0 s) (v0 s) (v s) (t s) (stepnum s) (ioutnum s) (vv s) (tt s)
       (uu s).

Definition set_Q (s : KS) (a : list F) : KS :=
  mkKS (L s) (N s) (dx s) (dt s) (nsteps s) (iout s) (nout s) (x s) (k s)
       (l s) (E s) (E2 s) (M s) (r s) (LR s) a (f1 s) (f2 s) (f3 s)
       (g s) (u0 s) (v0 s) (v s) (t s) (stepnum s) (ioutnum s) (vv s) (tt s)
       (uu s).

Definition set_f1 (s : KS) (a : list F) : KS :=
  mkKS (L s) (N s) (dx s) (dt s) (nsteps s) (iout s) (nout s) (x s) (k s)
       (l s) (E s) (E2 s) (M s) (r s) (LR s) (Q s) a (f2 s) (f3 s)
       (g s) (u0 s) (v0 s) (v s) (t s) (stepnum s) (ioutnum s) (vv s) (tt s)
       (uu s).

Definition set_f2 (s : KS) (a : list F) : KS :=
  mkKS (L s) (N s) (dx s) (dt s) (nsteps s) (iout s) (nout s) (x s) (k s)
       (l s) (E s) (E2 s) (M s) (r s) (LR s) (Q s) (f1 s) a (f3 s)
       (g s) (u0 s) (v0 s) (v s) (t s) (stepnum s) (ioutnum s) (vv s) (tt s)
       (uu s).

Definition set_f3 (s : KS) (a : list F) : KS :=
  mkKS (L s) (N s) (dx s) (dt s) (nsteps s) (iout s) (nout s) (x s) (k s)
       (l s) (E s) (E2 s) (M s) (r s) (LR s) (Q s) (f1 s) (f2 s) a
       (g s) (u0 s) (v0 s) (v s) (t s) (stepnum s) (ioutnum s) (vv s) (tt s)
       (uu s).

Definition set_g (s : KS) (a : list C) : KS :=
  mkKS (L s) (N s) (dx s) (dt s) (nsteps s) (iout s) (nout s) (x s) (k s)
       (l s) (E s) (E2 s) (M s) (r s) (LR s) (Q s) (f1 s) (f2 s) (f3 s)
       a (u0 s) (v0 s) (v s) (t s) (stepnum s) (ioutnum s) (vv s) (tt s)
       (uu s).

(** One assignment statement [self.a = <expr>]: the store happens only
    when the right-hand side evaluates. *)
Definition assign {A : Type} (s : KS) (rhs : res A) (store : KS -> A -> KS)
    (rest : KS -> outcome) : outcome :=
  match rhs with
  | Ok a => rest (store s a)
  | Err e => Raise e s
  end.

(** A method call whose returned value is discarded. *)
Definition call (o : outcome) (rest : KS -> outcome) : outcome :=
  match o with
  | Return _ s => rest s
  | Raise e s => Raise e s
  end.

Definition step (s : KS) : outcome :=
  assign s (step_value s) set_v (fun s' => Return None (tick s')).

(** ** The time series *)

Definition np_zeros {A : Type} (z : A) (n : Z) : res (list A) :=
  if n <? 0 then Err ValueError else Ok (repeat z (Z.to_nat n)).

Definition np_zeros2 (rows cols : Z) : res (list (list C32)) :=
  if (rows <? 0) || (cols <? 0) then Err ValueError
  else Ok (repeat (repeat c64_zero (Z.to_nat cols)) (Z.to_nat rows)).

(** Python index into an axis of [n] entries: negative indices count
    from the end, anything else out of range is an IndexError. *)
Definition index (n : nat) (i : Z) : res nat :=
  if (0 <=? i) && (i <? Z.of_nat n) then Ok (Z.to_nat i)
  else if (i <? 0) && (- Z.of_nat n <=? i) then Ok (Z.to_nat (Z.of_nat n + i))
  else Err IndexError.

Fixpoint update {A : Type} (a : list A) (i : nat) (y : A) : list A :=
  match a, i with
  | [], _ => []
  | _ :: a', O => y :: a'
  | z :: a', S i' => z :: update a' i' y
  end.

(** [a[i] = y] *)
Definition store_item {A : Type} (a : list A) (i : Z) (y : A) : res (list A) :=
  j <- index (length a) i ;; Ok (update a j y).

(** [a[i,:] = src] into a complex64 array: the source is cast element by
    element; a source of one element fills the row.  The cast itself is
    taken to be silent, as it is in the numpy releases contemporary with
    the source (a store is outside the try block in any case). *)
Definition store_row (a : list (list C32)) (i : Z) (src : list C)
  : res (list (list C32)) :=
  j <- index (length a) i ;;
  let cols := length (nth j a []) in
  if (length src =? cols)%nat then Ok (update a j (map c64_of src))
  else match src with
       | [c] => Ok (update a j (repeat (c64_of c) cols))
       | _ => Err ValueError
       end.

Definition setup_timeseries (s : KS) (nout_arg : option Z) : outcome :=
  let s := match nout_arg with Some n => set_nout s n | None => s end in
  assign s (np_zeros2 (nout s + 1) (N s)) set_vv (fun s =>
  assign s (np_zeros (F_lit 0 1) (nout s + 1)) set_tt (fun s =>
  assign s (store_row (vv s) 0 (v0 s)) set_vv (fun s =>
  assign s (store_item (tt s) 0 (F_lit 0 1)) set_tt (fun s =>
  Return None s)))).

(** ** fou2real *)

Definition ifft64 (row : list C32) : res (list C32) :=
  match row with [] => Err ValueError | _ => Ok (ifft_c64 row) end.

(** [np.real(ifft(self.vv))]: the inverse transform of every row. *)
Definition fou2real_value (a : list (list C32)) : res (list (list F32)) :=
  rows <- mapM ifft64 a ;; Ok (map (map np_real32) rows).

Definition fou2real (s : KS) : outcome :=
  assign s (fou2real_value (vv s)) set_uu (Return None).

(** ** simulate *)

(** [self.v += correction]: the sum is written into [self.v], whose
    shape cannot change; the floating-point status is checked after the
    write. *)
Definition iadd (s : KS) (correction : list C) : outcome :=
  if ((length (v s) =? length correction)%nat
      || (length correction =? 1)%nat)%bool
  then
    match broadcast2 (v s) correction with
    | Ok p =>
        let s' := set_v s (map (fun ab => call2 np_add (fst ab) (snd ab)) p) in
        if existsb (fun ab => fperr2 np_add (fst ab) (snd ab)) p
        then Raise FloatingPointError s'
        else Return None s'
    | Err e => Raise e s
    end
  else Raise ValueError s.

(** [a.resize(shape)] on the array's own storage: the flat data is cut or
    padded with zeros, then read again in the new shape. *)
Definition resize_flat {A : Type} (z : A) (a : list A) (n : nat) : list A :=
  firstn n a ++ repeat z (n - length a).

Fixpoint reshape {A : Type} (rows cols : nat) (a : list A) : list (list A) :=
  match rows with
  | O => []
  | S rows' => firstn cols a :: reshape rows' cols (skipn cols a)
  end.

Definition resize2 (a : list (list C32)) (rows cols : Z)
  : res (list (list C32)) :=
  if (rows <? 0) || (cols <? 0) then Err ValueError
  else Ok (reshape (Z.to_nat rows) (Z.to_nat cols)
             (resize_flat c64_zero (concat a) (Z.to_nat rows * Z.to_nat cols))).

Definition resize1 (a : list F) (n : Z) : res (list F) :=
  if n <? 0 then Err ValueError
  else Ok (resize_flat (F_lit 0 1) a (Z.to_nat n)).

(** The handler of [except FloatingPointError]. *)
Definition blow_up (s : KS) : outcome :=
  let s := set_nout s (ioutnum s) in
  assign s (resize2 (vv s) (nout s + 1) (N s)) set_vv (fun s =>
  assign s (resize1 (tt s) (nout s + 1)) set_tt (fun s =>
  Return minus_one s)).

(** The sampling at the end of an iteration. *)
Definition record (s : KS) (n : Z) : outcome :=
  if (0 <? iout s) && (n mod iout s =? 0) then
    let s := set_ioutnum s (ioutnum s + 1) in
    assign s (store_row (vv s) (ioutnum s) (v s)) set_vv (fun s =>
    assign s (store_item (tt s) (ioutnum s) (t s)) set_tt (fun s =>
    Return None s))
  else Return None s.

(** One pass through a loop body: either the loop goes on from a new
    object, or [simulate] is left with an outcome. *)
Inductive flow : Type :=
| Next (s : KS)
| Exit (o : outcome).

Definition iteration (try_block : KS -> outcome) (s : KS) (n : Z) : flow :=
  match try_block s with
  | Raise FloatingPointError s1 => Exit (blow_up s1)
  | Raise e s1 => Exit (Raise e s1)
  | Return _ s1 =>
      match record s1 n with
      | Return _ s2 => Next s2
      | Raise e s2 => Exit (Raise e s2)
      end
  end.

(** [for n in range(...)] followed by the code after the loop. *)
Fixpoint for_loop (try_block : KS -> outcome) (ns : list Z) (s : KS)
    (after : KS -> outcome) : outcome :=
  match ns with
  | [] => after s
  | n :: ns' =>
      match iteration try_block s n with
      | Next s' => for_loop try_block ns' s' after
      | Exit o => o
      end
  end.

(** The two try blocks of the source: the plain one and the one with the
    correction added after the step. *)
Definition try_plain (s : KS) : outcome := step s.

Definition try_corrected (correction : list C) (s : KS) : outcome :=
  call (step s) (fun s1 => iadd s1 correction).

(** [int(a/b)] on Python ints: true division, then truncation towards
    zero (the float quotient is the exact one as long as the operands are
    below 2^53). *)
Definition int_div (a b : Z) : res Z :=
  if b =? 0 then Err ZeroDivisionError else Ok (Z.quot a b).

(** The first part of [simulate]: the arguments are taken over and, on
    restart, the time series is set up again. *)
Definition enter (s : KS) (nsteps_arg iout_arg : option Z) (restart : bool)
  : outcome :=
  let s := match nsteps_arg with Some n => set_nsteps s n | None => s end in
  let s := match iout_arg with Some i => set_iout s i | None => s end in
  if restart then
    assign s (int_div (nsteps s) (iout s)) set_nout (fun s =>
    setup_timeseries s (Some (nout s)))
  else Return None s.

(** The second part: one of the two loops, then [fou2real].  The test
    [correction==[]] is the one on a Python list: the default value, the
    empty list, selects the first loop. *)
Definition run (s : KS) (correction : list C) : outcome :=
  match correction with
  | [] => for_loop try_plain (range1 (nsteps s + 1)) s fou2real
  | _ => for_loop (try_corrected correction) (range1 (nsteps s + 1)) s
           fou2real
  end.

Definition simulate (s : KS) (nsteps_arg iout_arg : option Z)
    (restart : bool) (correction : list C) : outcome :=
  call (enter s nsteps_arg iout_arg restart) (fun s => run s correction).

(** The try block that [correction] selects. *)
Definition try_block (correction : list C) : KS -> outcome :=
  match correction with
  | [] => try_plain
  | _ => try_corrected correction
  end.

(** The object after the iterations [ns], when none of them leaves the
    loop. *)
Fixpoint completes (try_block : KS -> outcome) (ns : list Z) (s : KS)
  : option KS :=
  match ns with
  | [] => Some s
  | n :: ns' =>
      match iteration try_block s n with
      | Next s' => completes try_block ns' s'
      | Exit _ => None
      end
  end.

End Integrator.

(** * The update as the specification writes it

    Element-wise products and sums of vectors of one length, and the
    four stages written with them. *)
Section Specification.

Context {Ar : Arith}.

Definition zip_with {A : Type} (f : A -> A -> A) (a b : list A) : list A :=
  map (fun ab => f (fst ab) (snd ab)) (combine a b).

Definition hadamard (a b : list C) : list C := zip_with (call2 np_multiply) a b.
Definition vadd (a b : list C) : list C := zip_with (call2 np_add) a b.
Definition vsub (a b : list C) : list C := zip_with (call2 np_subtract) a b.
Definition twice (a : list C) : list C :=
  map (call2 np_multiply (complex_of (F_lit 2 1))) a.

(** square-nonlinearity(x) = g (.) DFT(Re(IDFT(x))^2) *)
Definition square_nonlinearity_spec (s : KS) (a : list C) : list C :=
  hadamard (g s)
    (fft_r (map (fun z => call1 (np_power_f 2) (np_real z)) (ifft_c a))).

Definition etdrk4_spec (s : KS) : list C :=
  let E := as_complex (E s) in
  let E2 := as_complex (E2 s) in
  let Q := promote (Q s) in
  let f1 := promote (f1 s) in
  let f2 := promote (f2 s) in
  let f3 := promote (f3 s) in
  let v := v s in
  let Nv := square_nonlinearity_spec s v in
  let a := vadd (hadamard E2 v) (hadamard Q Nv) in
  let Na := square_nonlinearity_spec s a in
  let b := vadd (hadamard E2 v) (hadamard Q Na) in
  let Nb := square_nonlinearity_spec s b in
  let c := vadd (hadamard E2 a) (hadamard Q (vsub (twice Nb) Nv)) in
  let Nc := square_nonlinearity_spec s c in
  vadd (vadd (vadd (hadamard E v) (hadamard f1 Nv))
             (hadamard (twice f2) (vadd Na Nb)))
       (hadamard f3 Nc).

(** [np.zeros(self.N)] as a correction. *)
Definition zero_correction (s : KS) : list C :=
  repeat (complex_of (F_lit 0 1)) (Z.to_nat (N s)).

(** Every array of the object that [step] reads has [n] entries. *)
Definition shaped (s : KS) (n : nat) : Prop :=
  length (v s) = n /\ size0 (E s) = n /\ size0 (E2 s) = n
  /\ length (Q s) = n /\ length (f1 s) = n /\ length (f2 s) = n
  /\ length (f3 s) = n /\ length (g s) = n.

(** No operation of [step] ever signals: exact arithmetic. *)
Definition quiet : Prop :=
  (forall a b, fperr2 np_add a b = false)
  /\ (forall a b, fperr2 np_subtract a b = false)
  /\ (forall a b, fperr2 np_multiply a b = false)
  /\ (forall a, fperr1 (np_power_f 2) a = false).

(** The value of [step_value], product by product in the order of the
    source. *)
Definition etdrk4_code (s : KS) : list C :=
  let E := as_complex (E s) in
  let E2 := as_complex (E2 s) in
  let Q := promote (Q s) in
  let v := v s in
  let Nv := square_nonlinearity_spec s v in
  let a := vadd (hadamard E2 v) (hadamard Q Nv) in
  let Na := square_nonlinearity_spec s a in
  let b := vadd (hadamard E2 v) (hadamard Q Na) in
  let Nb := square_nonlinearity_spec s b in
  let c := vadd (hadamard E2 a) (hadamard Q (vsub (twice Nb) Nv)) in
  let Nc := square_nonlinearity_spec s c in
  vadd (vadd (vadd (hadamard E v) (hadamard Nv (promote (f1 s))))
             (hadamard (twice (vadd Na Nb)) (promote (f2 s))))
       (hadamard Nc (promote (f3 s))).

(** What no statement of [simulate] after its first part touches. *)
Definition same_setting (s s' : KS) : Prop :=
  N s' = N s /\ dt s' = dt s /\ nsteps s' = nsteps s /\ iout s' = iout s
  /\ E s' = E s /\ E2 s' = E2 s /\ Q s' = Q s /\ f1 s' = f1 s
  /\ f2 s' = f2 s /\ f3 s' = f3 s /\ g s' = g s /\ v0 s' = v0 s.

(** What the try block leaves alone on top of that. *)
Definition same_series (s s' : KS) : Prop :=
  nout s' = nout s /\ ioutnum s' = ioutnum s /\ vv s' = vv s
  /\ tt s' = tt s /\ uu s' = uu s.

(** The sampling of iteration [n]: 1 when it records, 0 otherwise. *)
Definition sampled (s : KS) (n : Z) : Z :=
  if (0 <? iout s) && (n mod iout s =? 0) then 1 else 0.

(** The samples taken by the iterations [ns]. *)
Fixpoint samples (s : KS) (ns : list Z) : Z :=
  match ns with
  | [] => 0
  | n :: ns' => sampled s n + samples s ns'
  end.

(** Both buffers hold [nout + 1] entries. *)
Definition sized (s : KS) : Prop :=
  Z.of_nat (length (vv s)) = nout s + 1
  /\ Z.of_nat (length (tt s)) = nout s + 1.

(** The samples that a run of [nsteps] steps takes. *)
Definition due (s : KS) : Z :=
  if 0 <? iout s then Z.max 0 (nsteps s) / iout s else 0.

(** The invariant of the specification. *)
Definition series_invariant (s : KS) : Prop :=
  sized s /\ ioutnum s <= nout s.

(** [settles q o P]: the method call [o] either raises
    FloatingPointError or returns None with an object satisfying [P],
    and it does return when [q] holds. *)
Definition settles (q : Prop) (o : outcome) (P : KS -> Prop)
  : Prop :=
  match o with
  | Return r s' => r = None /\ P s'
  | Raise e _ => e = FloatingPointError
  end
  /\ (q -> exists s', o = Return None s').

(** Adding zero to [z] gives [z] back and signals nothing. *)
Definition absorbs_zero (z : C) : Prop :=
  call2 np_add z (complex_of (F_lit 0 1)) = z
  /\ fperr2 np_add z (complex_of (F_lit 0 1)) = false.

(** Every state that the run without correction reaches by a step, over
    the iterations [ns], is one that adding zero leaves alone. *)
Fixpoint zero_neutral (ns : list Z) (s : KS) : Prop :=
  match ns with
  | [] => True
  | n :: ns' =>
      match step s with
      | Return _ s1 =>
          Forall absorbs_zero (v s1)
          /\ match record s1 n with
             | Return _ s2 => zero_neutral ns' s2
             | Raise _ _ => True
             end
      | Raise _ _ => True
      end
  end.

(** The same, decided with a test [ok] on the components. *)
Fixpoint zero_neutralb (ok : C -> bool) (ns : list Z) (s : KS)
  : bool :=
  match ns with
  | [] => true
  | n :: ns' =>
      match step s with
      | Return _ s1 =>
          forallb ok (v s1)
          && match record s1 n with
             | Return _ s2 => zero_neutralb ok ns' s2
             | Raise _ _ => true
             end
      | Raise _ _ => true
      end
  end.

End Specification.

Section Setup.

Context {Num : Numerics}.

(** ** setup_fourier *)

(** [np.r_[0:n]] read as float64. *)
Definition arange (n : Z) : list F :=
  map (fun i => F_of_Z (Z.of_nat i)) (seq 0 (Z.to_nat n)).

(** [np.r_[0:n/2, 0, -n/2+1:0]] with Python 3's true division: the first
    range has ceil(n/2) entries, the last one ceil(n/2 - 1) entries that
    start at the half-integer (2-n)/2. *)
Definition wavenumbers (n : Z) : list F :=
  arange ((n + 1) / 2)
  ++ [F_of_Z 0]
  ++ map (fun i => F_lit (2 - n + 2 * Z.of_nat i) 2)
         (seq 0 (Z.to_nat ((n - 1) / 2))).

Definition item {A : Type} (a : list A) (i : nat) : res A :=
  match nth_error a i with Some y => Ok y | None => Err IndexError end.

(** The altered-coefficients multiplier; [coeffs] is a Python list of
    floats. *)
Definition altered_l (k : list F) (coeffs : list F) : res (list C) :=
  let j := complex_lit (F_lit 0 1) (F_lit 1 1) in
  c0 <- item coeffs 0 ;;
  t1 <- apply2 np_multiply_f [py_neg c0] (repeat (F_lit 1 1) (length k)) ;;
  c1 <- item coeffs 1 ;;
  t2 <- apply2 np_multiply [call2 np_multiply (complex_of c1) j] (promote k) ;;
  s1 <- apply2 np_subtract (promote t1) t2 ;;
  c2 <- item coeffs 2 ;;
  k2 <- apply1 (np_power_f 2) k ;;
  t3 <- apply2 np_multiply_f [py_add (F_lit 1 1) c2] k2 ;;
  s2 <- apply2 np_add s1 (promote t3) ;;
  c3 <- item coeffs 3 ;;
  k3 <- apply1 (np_power_f 3) k ;;
  t4 <- apply2 np_multiply [call2 np_multiply (complex_of c3) j] (promote k3) ;;
  s3 <- apply2 np_add s2 t4 ;;
  c4 <- item coeffs 4 ;;
  k4 <- apply1 (np_power_f 4) k ;;
  t5 <- apply2 np_multiply_f [py_add (F_lit 1 1) c4] k4 ;;
  apply2 np_subtract s3 (promote t5).

(** [self.k**2 - self.k**4] *)
Definition normal_l (k : list F) : res (list F) :=
  k2 <- apply1 (np_power_f 2) k ;;
  k4 <- apply1 (np_power_f 4) k ;;
  apply2 np_subtract_f k2 k4.

Definition setup_fourier (s : KS) (coeffs : option (list F)) : outcome :=
  assign s
    (m <- apply2 np_multiply_f [py_mul (py_mul (F_lit 2 1) pi) (L s)]
            (arange (N s)) ;;
     apply2 np_divide_f m [F_of_Z (N s)])
    set_x (fun s =>
  assign s (apply2 np_divide_f (wavenumbers (N s)) [L s]) set_k (fun s =>
  match coeffs with
  | None =>
      assign s (a <- normal_l (k s) ;; Ok (Float64 a)) set_l (Return None)
  | Some cs =>
      assign s (a <- altered_l (k s) cs ;; Ok (Complex128 a)) set_l
        (Return None)
  end)).

(** ** setup_etdrk4 *)

(** Arithmetic on an array of either dtype with a Python float. *)
Definition nd_scale (c : F) (a : ndarray) : res ndarray :=
  match a with
  | Float64 y => z <- apply2 np_multiply_f [c] y ;; Ok (Float64 z)
  | Complex128 y => z <- apply2 np_multiply [complex_of c] y ;; Ok (Complex128 z)
  end.

Definition nd_halve (a : ndarray) : res ndarray :=
  match a with
  | Float64 y => z <- apply2 np_divide_f y (lit 2 1) ;; Ok (Float64 z)
  | Complex128 y => z <- apply2 np_divide y (clit 2 1) ;; Ok (Complex128 z)
  end.

Definition nd_exp (a : ndarray) : res ndarray :=
  match a with
  | Float64 y => z <- apply1 np_exp_f y ;; Ok (Float64 z)
  | Complex128 y => z <- apply1 np_exp y ;; Ok (Complex128 z)
  end.

(** 2-D arrays are lists of rows; the first axis broadcasts like a 1-D
    array of rows. *)
Definition apply1_2d {A B : Type} (u : ufunc1 A B) (a : list (list A))
  : res (list (list B)) :=
  mapM (apply1 u) a.

Definition apply2_2d {A : Type} (u : ufunc2 A) (a b : list (list A))
  : res (list (list A)) :=
  p <- broadcast2 a b ;;
  mapM (fun ab => apply2 u (fst ab) (snd ab)) p.

Definition scalar2d (n d : Z) : list (list C) := [clit n d].

(** [np.repeat(a[:,np.newaxis], m, axis=1)] *)
Definition repeat_columns (a : ndarray) (m : nat) : list ndarray :=
  match a with
  | Float64 y => map (fun e => Float64 (repeat e m)) y
  | Complex128 y => map (fun e => Complex128 (repeat e m)) y
  end.

(** [np.repeat(a[np.newaxis,:], n, axis=0)] *)
Definition repeat_rows {A : Type} (a : list A) (n : Z) : res (list (list A)) :=
  if n <? 0 then Err ValueError else Ok (repeat a (Z.to_nat n)).

(** [np.exp(1j*pi*(np.r_[1:M+1]-0.5)/M)] *)
Definition contour (m : Z) : res (list C) :=
  let jpi := call2 np_multiply (complex_lit (F_lit 0 1) (F_lit 1 1))
               (complex_of pi) in
  a <- apply2 np_subtract_f (map F_of_Z (range1 (m + 1))) (lit 1 2) ;;
  b <- apply2 np_multiply [jpi] (promote a) ;;
  c <- apply2 np_divide b [complex_of (F_of_Z m)] ;;
  apply1 np_exp c.

Definition LR_value (s : KS) : res (list (list C)) :=
  a <- mapM (nd_scale (dt s)) (repeat_columns (l s) (Z.to_nat (M s))) ;;
  b <- repeat_rows (r s) (N s) ;;
  apply2_2d np_add (map as_complex a) b.

(** [self.dt*np.real(np.mean(<quotient>, 1))] *)
Definition dt_real_mean (s : KS) (quotient : list (list C)) : res (list F) :=
  m <- apply1 np_mean_c quotient ;;
  apply2 np_multiply_f [dt s] (map np_real m).

Definition Q_value (s : KS) : res (list F) :=
  h <- apply2_2d np_divide (LR s) (scalar2d 2 1) ;;
  e <- apply1_2d np_exp h ;;
  n <- apply2_2d np_subtract e (scalar2d 1 1) ;;
  q <- apply2_2d np_divide n (LR s) ;;
  dt_real_mean s q.

Definition f1_value (s : KS) : res (list F) :=
  a <- apply2_2d np_subtract (scalar2d (-4) 1) (LR s) ;;
  e <- apply1_2d np_exp (LR s) ;;
  b <- apply2_2d np_multiply (scalar2d 3 1) (LR s) ;;
  c <- apply2_2d np_subtract (scalar2d 4 1) b ;;
  p2 <- apply1_2d (np_power 2) (LR s) ;;
  d <- apply2_2d np_add c p2 ;;
  ed <- apply2_2d np_multiply e d ;;
  n <- apply2_2d np_add a ed ;;
  p3 <- apply1_2d (np_power 3) (LR s) ;;
  q <- apply2_2d np_divide n p3 ;;
  dt_real_mean s q.

Definition f2_value (s : KS) : res (list F) :=
  a <- apply2_2d np_add (scalar2d 2 1) (LR s) ;;
  e <- apply1_2d np_exp (LR s) ;;
  b <- apply2_2d np_add (scalar2d (-2) 1) (LR s) ;;
  eb <- apply2_2d np_multiply e b ;;
  n <- apply2_2d np_add a eb ;;
  p3 <- apply1_2d (np_power 3) (LR s) ;;
  q <- apply2_2d np_divide n p3 ;;
  dt_real_mean s q.

Definition f3_value (s : KS) : res (list F) :=
  b <- apply2_2d np_multiply (scalar2d 3 1) (LR s) ;;
  a <- apply2_2d np_subtract (scalar2d (-4) 1) b ;;
  p2 <- apply1_2d (np_power 2) (LR s) ;;
  c <- apply2_2d np_subtract a p2 ;;
  e <- apply1_2d np_exp (LR s) ;;
  d <- apply2_2d np_subtract (scalar2d 4 1) (LR s) ;;
  ed <- apply2_2d np_multiply e d ;;
  n <- apply2_2d np_add c ed ;;
  p3 <- apply1_2d (np_power 3) (LR s) ;;
  q <- apply2_2d np_divide n p3 ;;
  dt_real_mean s q.

(** [-0.5j*self.k] *)
Definition g_value (s : KS) : res (list C) :=
  apply2 np_multiply [py_neg_c (complex_lit (F_lit 0 1) (F_lit 1 2))]
    (promote (k s)).

Definition setup_etdrk4 (s : KS) : outcome :=
  assign s (a <- nd_scale (dt s) (l s) ;; nd_exp a) set_E (fun s =>
  assign s (a <- nd_scale (dt s) (l s) ;; h <- nd_halve a ;; nd_exp h)
    set_E2 (fun s =>
  assign s (Ok 16) set_M (fun s =>
  assign s (contour (M s)) set_r (fun s =>
  assign s (LR_value s) set_LR (fun s =>
  assign s (Q_value s) set_Q (fun s =>
  assign s (f1_value s) set_f1 (fun s =>
  assign s (f2_value s) set_f2 (fun s =>
  assign s (f3_value s) set_f3 (fun s =>
  assign s (g_value s) set_g (fun s =>
  Return None s)))))))))).

(** ** The coefficients as the specification writes them

    Scalar formulas, one mode and one contour point at a time. *)

Definition cadd (a b : C) : C := call2 np_add a b.
Definition csub (a b : C) : C := call2 np_subtract a b.
Definition cmul (a b : C) : C := call2 np_multiply a b.
Definition cdiv (a b : C) : C := call2 np_divide a b.
Definition cexp (a : C) : C := call1 np_exp a.
Definition cpow (a : C) (n : Z) : C := call1 (np_power n) a.
Definition creal (n : Z) : C := complex_of (F_lit n 1).

(** r_m = exp(i pi (m - 0.5) / 16) *)
Definition contour_point_spec (m : Z) : C :=
  cexp (cdiv (cmul (cmul (complex_lit (F_lit 0 1) (F_lit 1 1)) (complex_of pi))
                   (complex_of (call2 np_subtract_f (F_of_Z m) (F_lit 1 2))))
             (complex_of (F_of_Z 16))).

(** The sixteen points m = 1..16. *)
Definition contour_spec : list C := map contour_point_spec (range1 17).

(** (exp(z/2) - 1) / z *)
Definition Q_integrand (z : C) : C :=
  cdiv (csub (cexp (cdiv z (creal 2))) (creal 1)) z.

(** (-4 - z + e^z (4 - 3z + z^2)) / z^3 *)
Definition f1_integrand (z : C) : C :=
  cdiv (cadd (csub (creal (-4)) z)
             (cmul (cexp z)
                   (cadd (csub (creal 4) (cmul (creal 3) z)) (cpow z 2))))
       (cpow z 3).

(** (2 + z + e^z (-2 + z)) / z^3 *)
Definition f2_integrand (z : C) : C :=
  cdiv (cadd (cadd (creal 2) z) (cmul (cexp z) (cadd (creal (-2)) z)))
       (cpow z 3).

(** (-4 - 3z - z^2 + e^z (4 - z)) / z^3 *)
Definition f3_integrand (z : C) : C :=
  cdiv (cadd (csub (csub (creal (-4)) (cmul (creal 3) z)) (cpow z 2))
             (cmul (cexp z) (csub (creal 4) z)))
       (cpow z 3).

(** dt * l[j], in the dtype of [l]. *)
Definition dt_l (s : KS) : ndarray :=
  match l s with
  | Float64 y => Float64 (map (call2 np_multiply_f (dt s)) y)
  | Complex128 y => Complex128 (map (cmul (complex_of (dt s))) y)
  end.

(** dt*l[j] + r_m for every mode j and every contour point m. *)
Definition LR_spec (s : KS) (contour : list C) : list (list C) :=
  map (fun z => map (cadd z) contour) (as_complex (dt_l s)).

(** dt * Re(mean over the contour of the integrand at dt*l[j] + r_m) *)
Definition contour_mean_spec (s : KS) (integrand : C -> C) (z : C) : F :=
  call2 np_multiply_f (dt s)
    (np_real (call1 np_mean_c
                (map (fun rm => integrand (cadd z rm)) contour_spec))).

Definition E_spec (s : KS) : ndarray :=
  match dt_l s with
  | Float64 y => Float64 (map (call1 np_exp_f) y)
  | Complex128 y => Complex128 (map cexp y)
  end.

Definition E2_spec (s : KS) : ndarray :=
  match dt_l s with
  | Float64 y =>
      Float64 (map (fun a => call1 np_exp_f (call2 np_divide_f a (F_lit 2 1))) y)
  | Complex128 y => Complex128 (map (fun a => cexp (cdiv a (creal 2))) y)
  end.

(** -i k[j] / 2 *)
Definition g_spec (s : KS) : list C :=
  map (fun kj => cmul (py_neg_c (complex_lit (F_lit 0 1) (F_lit 1 2)))
                      (complex_of kj))
      (k s).

(** No operation of the set-up ever signals. *)
Definition quiet_setup : Prop :=
  (forall a b, fperr2 np_multiply_f a b = false)
  /\ (forall a b, fperr2 np_divide_f a b = false)
  /\ (forall a b, fperr2 np_subtract_f a b = false)
  /\ (forall a, fperr1 np_exp_f a = false)
  /\ (forall a b, fperr2 np_add a b = false)
  /\ (forall a b, fperr2 np_subtract a b = false)
  /\ (forall a b, fperr2 np_multiply a b = false)
  /\ (forall a b, fperr2 np_divide a b = false)
  /\ (forall a, fperr1 np_exp a = false)
  /\ (forall n a, fperr1 (np_power n) a = false)
  /\ (forall a, fperr1 np_mean_c a = false).

(** ** IC *)

(** [np.cos(self.x/self.L)*(1. + np.sin(self.x/self.L))] *)
Definition template (s : KS) : res (list F) :=
  xl <- apply2 np_divide_f (x s) [L s] ;;
  c <- apply1 np_cos xl ;;
  xl' <- apply2 np_divide_f (x s) [L s] ;;
  sn <- apply1 np_sin xl' ;;
  p <- apply2 np_add_f (lit 1 1) sn ;;
  apply2 np_multiply_f c p.

(** [(np.random.rand(self.N) - 0.5)*0.01]; a negative dimension is a
    ValueError. *)
Definition random_noise (s : KS) : res (list F) :=
  if N s <? 0 then Err ValueError
  else d <- apply2 np_subtract_f (random_rand (Z.to_nat (N s))) (lit 1 2) ;;
       apply2 np_multiply_f d (lit 1 100).

(** [v0] is looked at first; [u0] only when no [v0] is given.  The
    message printed before [return -1] is not modelled. *)
Definition IC (s : KS) (u0 : option (list F)) (v0 : option (list C))
    (testing : bool) : outcome :=
  match v0 with
  | None =>
      match u0 with
      | None =>
          assign s
            (u <- (if testing then template s else random_noise s) ;;
             w <- fft_real u ;; Ok (u, w))
            (fun s p => set_ic s (Float64 (fst p)) (snd p))
            (Return None)
      | Some u =>
          if negb (Z.of_nat (length u) =? N s) then Return minus_one s
          else assign s (w <- fft_real u ;; Ok (u, w))
                 (fun s p => set_ic s (Float64 (fst p)) (snd p))
                 (Return None)
      end
  | Some w =>
      if negb (Z.of_nat (length w) =? N s) then Return minus_one s
      else assign s (ifft w) (fun s u => set_ic s (Complex128 u) w)
             (Return None)
  end.

(** ** __init__ *)

(** Python float division [a/b], and [a/n] by a Python int. *)
Definition py_div (a b : F) : res F :=
  if py_is_zero b then Err ZeroDivisionError else Ok (py_truediv a b).

Definition py_div_int (a : F) (n : Z) : res F :=
  if n =? 0 then Err ZeroDivisionError else Ok (py_truediv a (F_of_Z n)).

(** The object before any attribute is stored.  The constructor calls
    its helpers in an order in which no attribute is read before it is
    stored, so the values given here are never looked at. *)
Definition blank : KS :=
  let z := F_lit 0 1 in
  mkKS z 0 z z 0 0 0 [] [] (Float64 []) (Float64 []) (Float64 []) 0 [] []
       [] [] [] [] [] (Float64 []) [] [] z 0 0 [] [] None.

Definition __init__ (L' : F) (N' : Z) (dt' : F) (nsteps' : option Z)
    (tend : F) (iout' : Z) : outcome :=
  assign blank
    (match nsteps' with
     | None => q <- py_div tend dt' ;; py_int q
     | Some n => Ok n
     end)
    set_nsteps (fun s =>
  assign s (py_div_int (py_mul (py_mul (F_lit 2 1) pi) L') N')
    (fun s dx' =>
       mkKS L' N' dx' dt' (nsteps s) iout' 0 [] [] (Float64 [])
            (Float64 []) (Float64 []) 0 [] [] [] [] [] [] [] (Float64 [])
            [] [] (F_lit 0 1) 0 0 [] [] None)
    (fun s =>
  assign s (int_div (nsteps s) (iout s)) set_nout (fun s =>
  call (IC s None None false) (fun s =>
  call (setup_timeseries s None) (fun s =>
  call (setup_fourier s None) (fun s =>
  setup_etdrk4 s)))))).

End Setup.

(** * What the set-up of the grid computes *)

Section Grid.

Context {Num : Numerics}.

(** No operation of [setup_fourier] ever signals. *)
Definition quiet_fourier : Prop :=
  (forall a b, fperr2 np_multiply_f a b = false)
  /\ (forall a b, fperr2 np_divide_f a b = false)
  /\ (forall a b, fperr2 np_subtract_f a b = false)
  /\ (forall n a, fperr1 (np_power_f n) a = false)
  /\ (forall a b, fperr2 np_add a b = false)
  /\ (forall a b, fperr2 np_subtract a b = false)
  /\ (forall a b, fperr2 np_multiply a b = false).

(** x[i] = 2 pi L i / N, with the products and the quotient in the order
    of the source. *)
Definition x_point (s : KS) (i : F) : F :=
  call2 np_divide_f
    (call2 np_multiply_f (py_mul (py_mul (F_lit 2 1) pi) (L s)) i)
    (F_of_Z (N s)).

(** k[j] = wavenumber[j] / L *)
Definition k_point (s : KS) (w : F) : F := call2 np_divide_f w (L s).

(** l[j] = k[j]^2 - k[j]^4 *)
Definition l_point (kj : F) : F :=
  call2 np_subtract_f (call1 (np_power_f 2) kj) (call1 (np_power_f 4) kj).

(** The altered multiplier, term by term in the order of the source:
    -c0 - c1 i k + (1 + c2) k^2 + c3 i k^3 - (1 + c4) k^4. *)
Definition altered_point (c0 c1 c2 c3 c4 : F) (kj : F) : C :=
  let j := complex_lit (F_lit 0 1) (F_lit 1 1) in
  let t1 := call2 np_multiply_f (py_neg c0) (F_lit 1 1) in
  let t2 := cmul (cmul (complex_of c1) j) (complex_of kj) in
  let t3 := call2 np_multiply_f (py_add (F_lit 1 1) c2)
              (call1 (np_power_f 2) kj) in
  let t4 := cmul (cmul (complex_of c3) j)
              (complex_of (call1 (np_power_f 3) kj)) in
  let t5 := call2 np_multiply_f (py_add (F_lit 1 1) c4)
              (call1 (np_power_f 4) kj) in
  csub (cadd (cadd (csub (complex_of t1) t2) (complex_of t3)) t4)
       (complex_of t5).

(** No operation of the template of [IC] ever signals. *)
Definition quiet_template : Prop :=
  (forall a b, fperr2 np_divide_f a b = false)
  /\ (forall a, fperr1 np_cos a = false)
  /\ (forall a, fperr1 np_sin a = false)
  /\ (forall a b, fperr2 np_add_f a b = false)
  /\ (forall a b, fperr2 np_multiply_f a b = false).

(** cos(x/L) (1 + sin(x/L)) at one grid point *)
Definition template_point (s : KS) (xi : F) : F :=
  call2 np_multiply_f
    (call1 np_cos (call2 np_divide_f xi (L s)))
    (call2 np_add_f (F_lit 1 1) (call1 np_sin (call2 np_divide_f xi (L s)))).

End Grid.

(** * Two arithmetics *)

(** ** IEEE binary64

    Floats are Rocq's primitive binary64 numbers, so sums, products and
    quotients are numpy's bit for bit, and FloatingPointError is raised
    exactly when an operation on finite operands overflows or an
    operation on non-NaN operands is invalid.  The library functions
    behind [np.exp], [np.cos], [np.sin], [np.mean] and the transforms are
    not part of the program: here they are plain series and sums, which
    agree with any libm or FFT up to rounding. *)
Module Binary64.

Import PrimFloat.
Local Open Scope float_scope.

Definition cplx : Type := float * float.

(** The binary64 nearest to an integer. *)
Definition of_Z (z : Z) : float := SF2Prim (binary_normalize 53 1024 z 0 false).

(** Status flags of one operation with result [r]: invalid, overflow. *)
Definition raised (x y r : float) : bool :=
  (is_nan r && negb (is_nan x) && negb (is_nan y))
  || (is_infinity r && is_finite x && is_finite y).

(** A quotient by zero sets the divide flag, which is not raised. *)
Definition raised_div (x y r : float) : bool :=
  (is_nan r && negb (is_nan x) && negb (is_nan y))
  || (is_infinity r && is_finite x && is_finite y && negb (is_zero y)).

Definition add_f : ufunc2 float := Ufunc2 _ add (fun x y => raised x y (x + y)).
Definition sub_f : ufunc2 float := Ufunc2 _ sub (fun x y => raised x y (x - y)).
Definition mul_f : ufunc2 float := Ufunc2 _ mul (fun x y => raised x y (x * y)).
Definition div_f : ufunc2 float :=
  Ufunc2 _ div (fun x y => raised_div x y (x / y)).

(** A value together with the flags raised on the way to it. *)
Definition flagged (A : Type) : Type := (A * bool)%type.

Definition op (u : ufunc2 float) (x y : flagged float) : flagged float :=
  (call2 u (fst x) (fst y),
   snd x || snd y || fperr2 u (fst x) (fst y)).

Definition pure (x : float) : flagged float := (x, false).

Definition pair_flagged (re im : flagged float) : flagged cplx :=
  ((fst re, fst im), snd re || snd im).

Definition cadd (a b : cplx) : flagged cplx :=
  pair_flagged (op add_f (pure (fst a)) (pure (fst b)))
               (op add_f (pure (snd a)) (pure (snd b))).

Definition csub (a b : cplx) : flagged cplx :=
  pair_flagged (op sub_f (pure (fst a)) (pure (fst b)))
               (op sub_f (pure (snd a)) (pure (snd b))).

Definition cmul (a b : cplx) : flagged cplx :=
  let ar := pure (fst a) in let ai := pure (snd a) in
  let br := pure (fst b) in let bi := pure (snd b) in
  pair_flagged (op sub_f (op mul_f ar br) (op mul_f ai bi))
               (op add_f (op mul_f ar bi) (op mul_f ai br)).

(** numpy's complex quotient (Smith's method). *)
Definition cdiv (a b : cplx) : flagged cplx :=
  let ar := pure (fst a) in let ai := pure (snd a) in
  let br := pure (fst b) in let bi := pure (snd b) in
  if abs (fst b) <? abs (snd b) then
    let rat := op div_f br bi in
    let scl := op div_f (pure one) (op add_f bi (op mul_f br rat)) in
    pair_flagged (op mul_f (op add_f (op mul_f ar rat) ai) scl)
                 (op mul_f (op sub_f (op mul_f ai rat) ar) scl)
  else if is_zero (fst b) && is_zero (snd b) then
    pair_flagged (op div_f ar (pure (abs (fst b))))
                 (op div_f ai (pure (abs (fst b))))
  else
    let rat := op div_f bi br in
    let scl := op div_f (pure one) (op add_f br (op mul_f bi rat)) in
    pair_flagged (op mul_f (op add_f ar (op mul_f ai rat)) scl)
                 (op mul_f (op sub_f ai (op mul_f ar rat)) scl).

Definition lift2 (f : cplx -> cplx -> flagged cplx) : ufunc2 cplx :=
  Ufunc2 _ (fun a b => fst (f a b)) (fun a b => snd (f a b)).

Definition lift1 {A B : Type} (f : A -> flagged B) : ufunc1 A B :=
  Ufunc1 _ _ (fun a => fst (f a)) (fun a => snd (f a)).

(** Powers by repeated multiplication. *)
Fixpoint fpow (n : nat) (x : float) : flagged float :=
  match n with
  | O => pure one
  | S O => pure x
  | S n' => op mul_f (fpow n' x) (pure x)
  end.

Fixpoint cpow (n : nat) (a : cplx) : flagged cplx :=
  match n with
  | O => ((one, zero), false)
  | S O => (a, false)
  | S n' => let p := cpow n' a in
            let q := cmul (fst p) a in (fst q, snd p || snd q)
  end.

(** Sum of the first [n] terms of a power series whose consecutive terms
    have the ratio [y / (d k * (d k + 1))] or [y / d k]. *)
Fixpoint series (n : nat) (k : Z) (step : Z -> float) (y term acc : float)
  : float :=
  match n with
  | O => acc
  | S n' => let term' := term * y / step k in
            series n' (k + 1)%Z step y term' (acc + term')
  end.

Fixpoint squarings (n : nat) (x : float) : float :=
  match n with
  | O => x
  | S n' => let y := squarings n' x in y * y
  end.

(** exp(x) as the 1024th power of the series at x/1024. *)
Definition exp_value (x : float) : float :=
  if is_nan x then x
  else if x <? -746 then zero
  else if 710 <? x then infinity
  else squarings 10 (series 20 1 of_Z (x / 1024) one one).

(** The argument brought into [-pi, pi]. *)
Definition pi64 : float := 0x1.921fb54442d18p+1.

Definition reduce (x : float) : float :=
  let q := x / (2 * pi64) in
  let n := (q + 0x1.8p+52) - 0x1.8p+52 in
  x - n * (2 * pi64).

Definition cos_value (x : float) : float :=
  let y := reduce x in
  series 16 0 (fun k => of_Z ((2 * k + 1) * (2 * k + 2))) (- (y * y)) one one.

Definition sin_value (x : float) : float :=
  let y := reduce x in
  series 16 0 (fun k => of_Z ((2 * k + 2) * (2 * k + 3))) (- (y * y)) y y.

Definition exp_f : ufunc1 float float :=
  Ufunc1 _ _ exp_value (fun x => is_infinity (exp_value x) && is_finite x).

Definition trig (f : float -> float) : ufunc1 float float :=
  Ufunc1 _ _ f (fun x => is_infinity x).

(** exp(a + ib) = exp(a) (cos b + i sin b) *)
Definition cexp (a : cplx) : flagged cplx :=
  let e := (exp_value (fst a), fperr1 exp_f (fst a)) in
  pair_flagged (op mul_f e (pure (cos_value (snd a))))
               (op mul_f e (pure (sin_value (snd a)))).

Definition csum (a : list cplx) : flagged cplx :=
  fold_left (fun acc b => let s := cadd (fst acc) b in (fst s, snd acc || snd s))
            a ((zero, zero), false).

Definition cmean (a : list cplx) : flagged cplx :=
  let s := csum a in
  let q := cdiv (fst s) (of_Z (Z.of_nat (length a)), zero) in
  (fst q, snd s || snd q).

(** The discrete Fourier transform as the plain double sum; the four
    twiddle factors on the axes are exact. *)
Definition twiddle (sign : float) (n m : Z) : cplx :=
  let m := (m mod n)%Z in
  if (m =? 0)%Z then (one, zero)
  else if (2 * m =? n)%Z then (- one, zero)
  else if (4 * m =? n)%Z then (zero, sign)
  else if (4 * m =? 3 * n)%Z then (zero, - sign)
  else let th := 2 * pi64 * of_Z m / of_Z n in
       (cos_value th, sign * sin_value th).

Definition dft (sign : float) (a : list cplx) : list cplx :=
  let n := Z.of_nat (length a) in
  map (fun k =>
         fst (csum (map (fun jx =>
                           fst (cmul (snd jx)
                                  (twiddle sign n (Z.of_nat (fst jx) * Z.of_nat k))))
                        (combine (seq 0 (length a)) a))))
      (seq 0 (length a)).

Definition fft64 (a : list cplx) : list cplx := dft (- one) a.

Definition ifft64 (a : list cplx) : list cplx :=
  let c := one / of_Z (Z.of_nat (length a)) in
  map (fun z => (fst z * c, snd z * c)) (dft one a).

(** The nearest binary32 number, kept in a binary64. *)
Definition to_f32 (x : float) : float :=
  match Prim2SF x with
  | S754_finite s m e => SF2Prim (binary_round 24 128 s m e)
  | _ => x
  end.

Definition to_c64 (a : cplx) : cplx := (to_f32 (fst a), to_f32 (snd a)).

(** [int(x)] *)
Definition int_of (x : float) : res Z :=
  match Prim2SF x with
  | S754_zero _ => Ok 0%Z
  | S754_infinity _ => Err OverflowError
  | S754_nan => Err ValueError
  | S754_finite s m e =>
      let z := match e with
               | Zneg p => Z.shiftr (Zpos m) (Zpos p)
               | _ => Z.shiftl (Zpos m) e
               end in
      Ok (if s then (- z)%Z else z)
  end.

(** A fixed draw: a linear congruential sequence scaled into [0, 1). *)
Fixpoint draw (n : nat) (seed : Z) : list float :=
  match n with
  | O => []
  | S n' => let seed' := ((1103515245 * seed + 12345) mod 2147483648)%Z in
            (of_Z seed' / of_Z 2147483648) :: draw n' seed'
  end.

#[export] Instance arith64 : Arith := {|
  F := float;
  C := cplx;
  F32 := float;
  C32 := cplx;
  F_lit := fun n d => of_Z n / of_Z d;
  complex_of := fun x => (x, zero);
  np_real := fst;
  c64_of := to_c64;
  c64_zero := (zero, zero);
  np_real32 := fst;
  py_add := add;
  np_power_f := fun n => lift1 (fpow (Z.to_nat n));
  np_add := lift2 cadd;
  np_subtract := lift2 csub;
  np_multiply := lift2 cmul;
  fft_r := fun a => fft64 (map (fun x => (x, zero)) a);
  ifft_c := ifft64;
  ifft_c64 := fun a => map to_c64 (ifft64 a)
|}.

#[export] Instance numerics64 : Numerics := {|
  arith := arith64;
  F_of_Z := of_Z;
  pi := pi64;
  complex_lit := fun re im => (re, im);
  py_neg_c := fun a => (- fst a, - snd a);
  py_mul := mul;
  py_neg := opp;
  py_is_zero := is_zero;
  py_truediv := div;
  py_int := int_of;
  np_add_f := add_f;
  np_subtract_f := sub_f;
  np_multiply_f := mul_f;
  np_divide_f := div_f;
  np_exp_f := exp_f;
  np_cos := trig cos_value;
  np_sin := trig sin_value;
  np_divide := lift2 cdiv;
  np_power := fun n => lift1 (cpow (Z.to_nat n));
  np_exp := lift1 cexp;
  np_mean_c := lift1 cmean;
  random_rand := fun n => draw n 20181105
|}.

End Binary64.

(** ** Gaussian integers

    Exact sums and products of integers, which is what binary64 computes
    as long as the values stay below 2^53, with binary64's overflow
    threshold.  The unit roots of the transform are rounded to Gaussian
    integers, so the transform is the exact one for the lengths 1, 2
    and 4.  Only the integrator is instantiated here. *)
Module GaussInt.

Definition gint : Type := (Z * Z)%type.

Definition overflows (x : Z) : bool := 2 ^ 1024 <=? Z.abs x.

Definition coverflows (a : gint) : bool := overflows (fst a) || overflows (snd a).

Definition gadd (a b : gint) : gint := (fst a + fst b, snd a + snd b).
Definition gsub (a b : gint) : gint := (fst a - fst b, snd a - snd b).
Definition gmul (a b : gint) : gint :=
  (fst a * fst b - snd a * snd b, fst a * snd b + snd a * fst b).

(** As in IEEE arithmetic, an operation signals an overflow only when its
    operands had not overflowed already. *)
Definition exact (f : gint -> gint -> gint) : ufunc2 gint :=
  Ufunc2 _ f (fun a b => coverflows (f a b) && negb (coverflows a)
                         && negb (coverflows b)).

(** cos(2 pi m / n) rounded to the nearest integer. *)
Definition round_cos (n m : Z) : Z :=
  let m := m mod n in
  if (6 * m <=? n) || (5 * n <=? 6 * m) then 1
  else if (n <=? 3 * m) && (3 * m <=? 2 * n) then -1
  else 0.

Definition root (sign n m : Z) : gint :=
  (round_cos n m, sign * round_cos (4 * n) (4 * m - n)).

Definition gsum (a : list gint) : gint := fold_left gadd a (0, 0).

Definition dft (sign : Z) (a : list gint) : list gint :=
  let n := Z.of_nat (length a) in
  map (fun k =>
         gsum (map (fun jx => gmul (snd jx)
                                (root sign n (Z.of_nat (fst jx) * Z.of_nat k)))
                   (combine (seq 0 (length a)) a)))
      (seq 0 (length a)).

Definition idft (a : list gint) : list gint :=
  let n := Z.of_nat (length a) in
  map (fun z => (Z.quot (fst z) n, Z.quot (snd z) n)) (dft 1 a).

(** The 24 leading bits of an integer: what a binary32 keeps of it. *)
Definition single (x : Z) : Z :=
  let drop := Z.max 0 (Z.log2 (Z.abs x) - 23) in
  Z.sgn x * Z.shiftl (Z.shiftr (Z.abs x) drop) drop.

#[export] Instance arithZ : Arith := {|
  F := Z;
  C := gint;
  F32 := Z;
  C32 := gint;
  F_lit := Z.quot;
  complex_of := fun x => (x, 0);
  np_real := fst;
  c64_of := fun a => (single (fst a), single (snd a));
  c64_zero := (0, 0);
  np_real32 := fst;
  py_add := Z.add;
  np_power_f := fun n => Ufunc1 _ _ (fun x => x ^ n)
                          (fun x => overflows (x ^ n) && negb (overflows x));
  np_add := exact gadd;
  np_subtract := exact gsub;
  np_multiply := exact gmul;
  fft_r := fun a => dft (-1) (map (fun x => (x, 0)) a);
  ifft_c := idft;
  ifft_c64 := fun a => map (fun z => (single (fst z), single (snd z))) (idft a)
|}.

End GaussInt.

(** * Sample objects *)

(** The object that [KS(L=16, N=4, dt=0.25, nsteps=3, iout=1)] builds
    in binary64, and a correction large enough for the second step to
    overflow. *)
Definition ks64 : KS (Ar := Binary64.arith64) :=
  Eval vm_compute in
    final (__init__ (Num := Binary64.numerics64)
             (F_lit 16 1) 4 (F_lit 1 4) (Some 3) (F_lit 150 1) 1).

Definition huge64 : list (C (Arith := Binary64.arith64)) :=
  Eval vm_compute in repeat (complex_of (F_lit (10 ^ 200) 1)) 4.


(** The object after the whole run with that correction. *)
Definition ks64_cut : KS (Ar := Binary64.arith64) :=
  Eval vm_compute in final (simulate ks64 None None false huge64).

(** The object after a completed run without correction, and after a
    second call of [simulate] on it. *)
Definition ks64_ran : KS (Ar := Binary64.arith64) :=
  Eval vm_compute in final (simulate ks64 None None false []).

Definition ks64_ran_twice : KS (Ar := Binary64.arith64) :=
  Eval vm_compute in final (simulate ks64_ran None None false []).

(** The object after a run of [ks64] with the sampling switched off,
    after one step, and the object that the constructor leaves behind
    when it is given [L = 0]. *)
Definition ks64_unsampled : KS (Ar := Binary64.arith64) :=
  Eval vm_compute in final (simulate ks64 None (Some 0) false []).

Definition ks64_stepped : KS (Ar := Binary64.arith64) :=
  Eval vm_compute in final (step ks64).

Definition ks64_flat : KS (Ar := Binary64.arith64) :=
  Eval vm_compute in
    final (__init__ (Num := Binary64.numerics64)
             (F_lit 0 1) 4 (F_lit 1 4) (Some 3) (F_lit 150 1) 1).

(** [ks64] after [IC] is given its own [v0] again. *)
Definition ks64_again : KS (Ar := Binary64.arith64) :=
  Eval vm_compute in
    final (IC (Num := Binary64.numerics64) ks64 None (Some (v0 ks64)) false).

(** The object of the completed run when a restart has set up its
    buffers again. *)
Definition ks64_rerun : KS (Ar := Binary64.arith64) :=
  Eval vm_compute in final (enter ks64_ran None None true).





(** A binary64 complex number with no component -0.0. *)
Definition no_negative_zero (z : Binary64.cplx) : bool :=
  match Prim2SF (fst z), Prim2SF (snd z) with
  | S754_zero true, _ | _, S754_zero true => false
  | _, _ => true
  end.

(** A state with a component -0.0, and [ks64] after [IC] is given it. *)
Definition signed_start : list Binary64.cplx :=
  Eval vm_compute in
    let lit := F_lit (Arith := Binary64.arith64) in
    [ (lit 1 (2 ^ 60), PrimFloat.zero); (lit (-1) 1, PrimFloat.neg_zero);
      (lit (-1) (2 ^ 60), PrimFloat.zero); (lit 1 1, lit 1 (2 ^ 60)) ].

Definition ks64_signed : KS (Ar := Binary64.arith64) :=
  Eval vm_compute in
    final (IC (Num := Binary64.numerics64) ks64 None (Some signed_start) false).

Definition ks64_signed_plain : KS (Ar := Binary64.arith64) :=
  Eval vm_compute in final (simulate ks64_signed (Some 1) None true []).

Definition ks64_signed_zeros : KS (Ar := Binary64.arith64) :=
  Eval vm_compute in
    final (simulate ks64_signed (Some 1) None true (zero_correction ks64_signed)).

(** * Facts *)

(** ** Results that either evaluate or raise FloatingPointError *)

Lemma computes_bind {A B : Type} (q : Prop) (m : res A) (f : A -> res B) a b :
  computes q m a -> computes q (f a) b -> computes q (bind m f) b.
Proof.
  intros [[Hm | Hm] Hq] [Hf Hq']; split.
  - rewrite Hm; exact Hf.
  - intro H. rewrite Hm. simpl. auto.
  - rewrite Hm. now right.
  - intro H. rewrite (Hq H). simpl. auto.
Qed.

Lemma computes_Ok {A : Type} (q : Prop) (a : A) : computes q (Ok a) a.
Proof. split; auto. Qed.

Lemma broadcast2_same {A : Type} (a b : list A) :
  length a = length b -> broadcast2 a b = Ok (combine a b).
Proof.
  intro H. unfold broadcast2. now rewrite H, Nat.eqb_refl.
Qed.

Lemma broadcast2_scalar {A : Type} (c : A) (b : list A) :
  broadcast2 [c] b = Ok (map (fun y => (c, y)) b).
Proof.
  unfold broadcast2.
  destruct (Nat.eqb_spec (length [c]) (length b)) as [H | H]; [|reflexivity].
  destruct b as [|y [|y' b]]; simpl in H; try discriminate. reflexivity.
Qed.

Lemma existsb_false {A : Type} (f : A -> bool) (a : list A) :
  (forall y, f y = false) -> existsb f a = false.
Proof. intro H. induction a; simpl; [reflexivity | now rewrite H]. Qed.

Lemma zip_with_length {A : Type} (f : A -> A -> A) (a b : list A) :
  length a = length b -> length (zip_with f a b) = length a.
Proof.
  intro H. unfold zip_with. rewrite length_map, length_combine. lia.
Qed.

Lemma apply2_computes {A : Type} (q : Prop) (u : ufunc2 A) (a b : list A) :
  (q -> forall y z, fperr2 u y z = false) ->
  length a = length b ->
  computes q (apply2 u a b) (zip_with (call2 u) a b).
Proof.
  intros Hq H. unfold apply2. rewrite (broadcast2_same _ _ H). simpl.
  split.
  - destruct (existsb _ _); [now right | now left].
  - intro Q. rewrite existsb_false; [reflexivity|]. intros [y z]. now apply Hq.
Qed.

Lemma apply2_scalar_computes {A : Type} (q : Prop) (u : ufunc2 A) (c : A)
    (b : list A) :
  (q -> forall y z, fperr2 u y z = false) ->
  computes q (apply2 u [c] b) (map (call2 u c) b).
Proof.
  intros Hq. unfold apply2. rewrite broadcast2_scalar. simpl.
  rewrite map_map. simpl. split.
  - destruct (existsb _ _); [now right | now left].
  - intro Q. rewrite existsb_false; [reflexivity|]. intros [y z]. now apply Hq.
Qed.

Lemma apply1_computes {A B : Type} (q : Prop) (u : ufunc1 A B) (a : list A) :
  (q -> forall y, fperr1 u y = false) ->
  computes q (apply1 u a) (map (call1 u) a).
Proof.
  intros Hq. unfold apply1. split.
  - destruct (existsb _ _); [now right | now left].
  - intro Q. rewrite existsb_false; [reflexivity|]. now apply Hq.
Qed.

Lemma broadcast2_scalar_r {A : Type} (a : list A) (c : A) :
  broadcast2 a [c] = Ok (map (fun y => (y, c)) a).
Proof.
  unfold broadcast2.
  destruct (Nat.eqb_spec (length a) (length [c])) as [H | H].
  - destruct a as [|y [|y' a]]; simpl in H; try discriminate. reflexivity.
  - destruct a as [|y [|y' a]]; reflexivity.
Qed.

Lemma apply2_scalar_r_computes {A : Type} (q : Prop) (u : ufunc2 A)
    (a : list A) (c : A) :
  (q -> forall y z, fperr2 u y z = false) ->
  computes q (apply2 u a [c]) (map (fun y => call2 u y c) a).
Proof.
  intros Hq. unfold apply2. rewrite broadcast2_scalar_r. simpl.
  rewrite map_map. simpl. split.
  - destruct (existsb _ _); [now right | now left].
  - intro Q. rewrite existsb_false; [reflexivity|]. intros [y z]. now apply Hq.
Qed.

Lemma mapM_computes {A B : Type} (q : Prop) (f : A -> res B) (g : A -> B)
    (a : list A) :
  (forall y, In y a -> computes q (f y) (g y)) ->
  computes q (mapM f a) (map g a).
Proof.
  induction a as [|y a IH]; intros H; simpl.
  - apply computes_Ok.
  - eapply computes_bind; [apply H; now left|].
    eapply computes_bind; [apply IH; intros; apply H; now right|].
    apply computes_Ok.
Qed.

Lemma combine_map {A B D : Type} (f : A -> B) (g : A -> D) (a : list A) :
  combine (map f a) (map g a) = map (fun y => (f y, g y)) a.
Proof. induction a as [|y a IH]; simpl; [reflexivity | now rewrite IH]. Qed.

Lemma zip_with_map {A B : Type} (u : B -> B -> B) (f g : A -> B) (a : list A) :
  zip_with u (map f a) (map g a) = map (fun y => u (f y) (g y)) a.
Proof. unfold zip_with. now rewrite combine_map, map_map. Qed.

(** *** Element-wise operations on 2-D arrays derived from one array *)

Lemma apply1_2d_computes {A B D : Type} (q : Prop) (u : ufunc1 B D)
    (f : A -> B) (a : list (list A)) :
  (q -> forall y, fperr1 u y = false) ->
  computes q (apply1_2d u (map (map f) a))
             (map (map (fun y => call1 u (f y))) a).
Proof.
  intros Hq. unfold apply1_2d.
  replace (map (map (fun y => call1 u (f y))) a)
    with (map (map (call1 u)) (map (map f) a)).
  - apply mapM_computes. intros row _. now apply apply1_computes.
  - rewrite map_map. apply map_ext. intros row. apply map_map.
Qed.

Lemma apply2_2d_computes {A B : Type} (q : Prop) (u : ufunc2 B)
    (f g : A -> B) (a : list (list A)) :
  (q -> forall y z, fperr2 u y z = false) ->
  computes q (apply2_2d u (map (map f) a) (map (map g) a))
             (map (map (fun y => call2 u (f y) (g y))) a).
Proof.
  intros Hq. unfold apply2_2d.
  rewrite broadcast2_same by now rewrite !length_map.
  rewrite combine_map. simpl.
  replace (map (map (fun y => call2 u (f y) (g y))) a)
    with (map (fun ab => zip_with (call2 u) (fst ab) (snd ab))
              (map (fun row => (map f row, map g row)) a)).
  - apply mapM_computes. intros [x y] Hin. simpl.
    apply in_map_iff in Hin. destruct Hin as (row & [= <- <-] & _).
    apply apply2_computes; [exact Hq | now rewrite !length_map].
  - rewrite map_map. apply map_ext. intros row. simpl. apply zip_with_map.
Qed.

Lemma apply2_2d_scalar_computes {A B : Type} (q : Prop) (u : ufunc2 B)
    (c : B) (g : A -> B) (a : list (list A)) :
  (q -> forall y z, fperr2 u y z = false) ->
  computes q (apply2_2d u [[c]] (map (map g) a))
             (map (map (fun y => call2 u c (g y))) a).
Proof.
  intros Hq. unfold apply2_2d. rewrite broadcast2_scalar. simpl.
  replace (map (map (fun y => call2 u c (g y))) a)
    with (map (fun ab : list B * list B => map (call2 u c) (snd ab))
              (map (fun y => ([c], y)) (map (map g) a))).
  - apply mapM_computes. intros [x y] Hin. simpl.
    apply in_map_iff in Hin. destruct Hin as (row & [= <- <-] & _).
    now apply apply2_scalar_computes.
  - rewrite !map_map. apply map_ext. intros row. simpl. apply map_map.
Qed.

Lemma apply2_2d_scalar_r_computes {A B : Type} (q : Prop) (u : ufunc2 B)
    (f : A -> B) (c : B) (a : list (list A)) :
  (q -> forall y z, fperr2 u y z = false) ->
  computes q (apply2_2d u (map (map f) a) [[c]])
             (map (map (fun y => call2 u (f y) c)) a).
Proof.
  intros Hq. unfold apply2_2d. rewrite broadcast2_scalar_r. simpl.
  replace (map (map (fun y => call2 u (f y) c)) a)
    with (map (fun ab : list B * list B =>
                 map (fun y => call2 u y c) (fst ab))
              (map (fun y => (y, [c])) (map (map f) a))).
  - apply mapM_computes. intros [x y] Hin. simpl.
    apply in_map_iff in Hin. destruct Hin as (row & [= <- <-] & _).
    now apply apply2_scalar_r_computes.
  - rewrite !map_map. apply map_ext. intros row. simpl. apply map_map.
Qed.

Lemma map2d_id {A : Type} (a : list (list A)) :
  map (map (fun y => y)) a = a.
Proof.
  induction a as [|row a IH]; simpl; [reflexivity|].
  now rewrite map_id, IH.
Qed.

Section IntegratorFacts.

Context {Ar : Arith}.

Lemma promote_length (a : list F) : length (promote a) = length a.
Proof. apply length_map. Qed.

Lemma as_complex_length (a : ndarray) : length (as_complex a) = size0 a.
Proof. destruct a; simpl; [apply length_map | reflexivity]. Qed.

Lemma hadamard_length (a b : list C) :
  length a = length b -> length (hadamard a b) = length a.
Proof. apply zip_with_length. Qed.

Lemma vadd_length (a b : list C) :
  length a = length b -> length (vadd a b) = length a.
Proof. apply zip_with_length. Qed.

Lemma vsub_length (a b : list C) :
  length a = length b -> length (vsub a b) = length a.
Proof. apply zip_with_length. Qed.

Lemma twice_length (a : list C) : length (twice a) = length a.
Proof. apply length_map. Qed.

(** ** step *)

Section Transform.

(** The transform pair keeps the length of its argument. *)
Hypothesis fft_r_length : forall a : list F, length (fft_r a) = length a.
Hypothesis ifft_c_length : forall a : list C, length (ifft_c a) = length a.

Lemma fft_real_computes (q : Prop) (a : list F) :
  a <> [] -> computes q (fft_real a) (fft_r a).
Proof. destruct a; [congruence|]. intros _. apply computes_Ok. Qed.

Lemma ifft_computes (q : Prop) (a : list C) :
  a <> [] -> computes q (ifft a) (ifft_c a).
Proof. destruct a; [congruence|]. intros _. apply computes_Ok. Qed.

Lemma nonempty {A : Type} (a : list A) (n : nat) :
  length a = n -> n <> O -> a <> [].
Proof. intros H Hn ->. simpl in H. congruence. Qed.

Lemma square_nonlinearity_length (s : KS) (a : list C) (n : nat) :
  length (g s) = n -> length a = n ->
  length (square_nonlinearity_spec s a) = n.
Proof.
  intros Hg Ha. unfold square_nonlinearity_spec.
  rewrite hadamard_length; [exact Hg|].
  now rewrite fft_r_length, length_map, ifft_c_length, Hg, Ha.
Qed.

Lemma nonlinear_computes (s : KS) (a : list C) (n : nat) :
  n <> O -> length (g s) = n -> length a = n ->
  computes quiet (nonlinear s a) (square_nonlinearity_spec s a).
Proof.
  intros Hn Hg Ha. unfold nonlinear.
  eapply computes_bind.
  { apply ifft_computes. now apply (nonempty _ n). }
  eapply computes_bind.
  { apply apply1_computes. intros Q. apply Q. }
  eapply computes_bind.
  { apply fft_real_computes. apply (nonempty _ n); [|exact Hn].
    now rewrite !length_map, ifft_c_length. }
  unfold square_nonlinearity_spec, hadamard. rewrite map_map.
  apply apply2_computes; [intros Q; apply Q|].
  now rewrite fft_r_length, length_map, ifft_c_length, Hg, Ha.
Qed.

Ltac lengths :=
  unfold hadamard, vadd, vsub, twice, promote;
  repeat first
    [ assumption
    | rewrite zip_with_length | rewrite length_map
    | rewrite as_complex_length
    | erewrite square_nonlinearity_length by (try reflexivity; lengths) ];
  try congruence.

Ltac stage n :=
  eapply computes_bind;
  [ first
      [ apply (nonlinear_computes _ _ n); [assumption | assumption | lengths]
      | apply apply2_scalar_computes; intros Q; apply Q
      | apply apply2_computes; [intros Q; apply Q | lengths] ]
  | ].

Lemma step_value_shape (s : KS) (n : nat) :
  n <> O -> shaped s n ->
  exists a,
    computes quiet (step_value s) a /\ length a = n /\ a = etdrk4_code s.
Proof.
  intros Hn (Hv & HE & HE2 & HQ & H1 & H2 & H3 & Hg).
  eexists; split; [|split].
  - unfold step_value, two, clit.
    repeat (stage n).
    apply apply2_computes; [intros Q; apply Q | lengths].
  - lengths.
  - reflexivity.
Qed.

Section Products.

(** The product commutes, and a doubled factor may be either one:
    (2 a) b = (2 b) a. *)
Hypothesis mul_comm :
  forall a b : C, call2 np_multiply a b = call2 np_multiply b a.
Hypothesis mul_twice :
  forall a b : C,
    call2 np_multiply (call2 np_multiply (complex_of (F_lit 2 1)) a) b
    = call2 np_multiply (call2 np_multiply (complex_of (F_lit 2 1)) b) a.

Lemma hadamard_comm (a b : list C) : hadamard a b = hadamard b a.
Proof.
  unfold hadamard, zip_with. revert b.
  induction a as [|y a IH]; intros [|z b]; simpl; try reflexivity.
  now rewrite mul_comm, IH.
Qed.

Lemma hadamard_twice (a b : list C) :
  hadamard (twice a) b = hadamard (twice b) a.
Proof.
  unfold hadamard, twice, zip_with. revert b.
  induction a as [|y a IH]; intros [|z b]; simpl; try reflexivity.
  rewrite IH. f_equal. apply mul_twice.
Qed.

Lemma etdrk4_code_agrees (s : KS) : etdrk4_code s = etdrk4_spec s.
Proof.
  unfold etdrk4_code, etdrk4_spec. cbv zeta.
  rewrite (hadamard_comm (promote (f1 s))), (hadamard_comm (promote (f3 s))).
  rewrite (hadamard_twice (promote (f2 s))).
  reflexivity.
Qed.

End Products.


End Transform.

End IntegratorFacts.

(** ** The loop of simulate *)

Section SimulateFacts.

Context {Ar : Arith}.

Lemma same_setting_refl (s : KS) : same_setting s s.
Proof. now repeat split. Qed.

Lemma same_setting_trans (s1 s2 s3 : KS) :
  same_setting s1 s2 -> same_setting s2 s3 -> same_setting s1 s3.
Proof. unfold same_setting. intuition congruence. Qed.

Lemma step_final (s : KS) :
  same_setting s (final (step s)) /\ same_series s (final (step s)).
Proof.
  unfold step, assign. destruct (step_value s); simpl;
    now repeat split.
Qed.

Lemma iadd_final (s : KS) (correction : list C) :
  same_setting s (final (iadd s correction))
  /\ same_series s (final (iadd s correction)).
Proof.
  unfold iadd.
  destruct (_ || _)%bool; [|now repeat split].
  destruct (broadcast2 _ _); [|now repeat split].
  destruct (existsb _ _); simpl; now repeat split.
Qed.

Lemma try_block_final (correction : list C) (s : KS) :
  same_setting s (final (try_block correction s))
  /\ same_series s (final (try_block correction s)).
Proof.
  destruct correction as [|c correction]; [apply step_final|].
  unfold try_block, try_corrected, call.
  pose proof (step_final s) as [H1 H2].
  destruct (step s) as [r s1 | e s1]; [|now split].
  pose proof (iadd_final s1 (c :: correction)) as [H3 H4].
  simpl in H1, H2. split.
  - eapply same_setting_trans; eassumption.
  - unfold same_series in *. intuition congruence.
Qed.

Lemma update_length {A : Type} (a : list A) (i : nat) (y : A) :
  length (update a i y) = length a.
Proof.
  revert i. induction a as [|z a IH]; intros [|i]; simpl; auto.
Qed.

Lemma store_item_length {A : Type} (a b : list A) (i : Z) (y : A) :
  store_item a i y = Ok b -> length b = length a.
Proof.
  unfold store_item. destruct (index _ _); simpl; [|discriminate].
  intros [= <-]. apply update_length.
Qed.

Lemma store_row_length (a b : list (list C32)) (i : Z) (src : list C) :
  store_row a i src = Ok b -> length b = length a.
Proof.
  unfold store_row. destruct (index _ _); simpl; [|discriminate].
  destruct (_ =? _)%nat.
  - intros [= <-]. apply update_length.
  - destruct src as [|c [|c' src]]; try discriminate.
    intros [= <-]. apply update_length.
Qed.

Lemma record_final (s : KS) (n : Z) :
  let s' := final (record s n) in
  same_setting s s' /\ v s' = v s /\ nout s' = nout s /\ uu s' = uu s
  /\ length (vv s') = length (vv s) /\ length (tt s') = length (tt s)
  /\ ioutnum s' = ioutnum s + sampled s n.
Proof.
  unfold record, sampled.
  destruct (_ && _); simpl; [|repeat split; auto; lia].
  unfold assign.
  destruct (store_row _ _ _) as [a|e] eqn:Hrow; simpl.
  - apply store_row_length in Hrow. simpl in Hrow.
    destruct (store_item _ _ _) as [b|e] eqn:Hitem; simpl.
    + apply store_item_length in Hitem. simpl in Hitem.
      repeat split; auto.
    + repeat split; auto.
  - repeat split; auto.
Qed.

Lemma sampled_range (s : KS) (n : Z) : 0 <= sampled s n <= 1.
Proof. unfold sampled. destruct (_ && _); lia. Qed.

Lemma sampled_setting (s s' : KS) (n : Z) :
  iout s' = iout s -> sampled s' n = sampled s n.
Proof. unfold sampled. now intros ->. Qed.

(** One iteration that stays in the loop. *)
Lemma iteration_next (correction : list C) (s s' : KS) (n : Z) :
  iteration (try_block correction) s n = Next s' ->
  same_setting s s' /\ nout s' = nout s /\ uu s' = uu s
  /\ length (vv s') = length (vv s) /\ length (tt s') = length (tt s)
  /\ ioutnum s' = ioutnum s + sampled s n.
Proof.
  unfold iteration.
  pose proof (try_block_final correction s) as [H1 H2].
  destruct (try_block correction s) as [r s1|e s1]; simpl in H1, H2.
  - pose proof (record_final s1 n) as H3.
    destruct (record s1 n) as [r' s2|e s2]; [|discriminate].
    intros [= <-]. simpl in H3.
    destruct H2 as (? & ? & ? & ? & ?).
    destruct H3 as (H3 & ? & ? & ? & ? & ? & ?).
    split; [eapply same_setting_trans; eassumption|].
    rewrite <- (sampled_setting s s1 n) by apply H1.
    repeat split; congruence.
  - destruct e; discriminate.
Qed.

Lemma samples_nonneg (s : KS) (ns : list Z) : 0 <= samples s ns.
Proof.
  induction ns as [|n ns IH]; simpl; [lia|].
  pose proof (sampled_range s n). lia.
Qed.

Lemma samples_app (s : KS) (a b : list Z) :
  samples s (a ++ b) = samples s a + samples s b.
Proof. induction a as [|n a IH]; simpl; lia. Qed.

Lemma samples_setting (s s' : KS) (ns : list Z) :
  iout s' = iout s -> samples s' ns = samples s ns.
Proof.
  intro H. induction ns as [|n ns IH]; simpl; [reflexivity|].
  now rewrite IH, (sampled_setting s s' n H).
Qed.

Lemma completes_final (correction : list C) (ns : list Z) (s s' : KS) :
  completes (try_block correction) ns s = Some s' ->
  same_setting s s' /\ nout s' = nout s /\ uu s' = uu s
  /\ length (vv s') = length (vv s) /\ length (tt s') = length (tt s)
  /\ ioutnum s' = ioutnum s + samples s ns.
Proof.
  revert s. induction ns as [|n ns IH]; intros s; simpl.
  - intros [= <-]. repeat split; auto. lia.
  - destruct (iteration _ s n) as [s1|o] eqn:Hit; [|discriminate].
    intros H. apply IH in H. apply iteration_next in Hit.
    destruct Hit as (Hs & ? & ? & ? & ? & ?).
    destruct H as (Hs' & ? & ? & ? & ? & ?).
    split; [eapply same_setting_trans; eassumption|].
    rewrite (samples_setting s s1) in * by apply Hs.
    repeat split; try congruence. lia.
Qed.


Lemma run_for_loop (s : KS) (correction : list C) :
  run s correction
  = for_loop (try_block correction) (range1 (nsteps s + 1)) s fou2real.
Proof. now destruct correction. Qed.

(** *** Truncation *)

Lemma resize_flat_length {A : Type} (z : A) (a : list A) (n : nat) :
  length (resize_flat z a n) = n.
Proof.
  unfold resize_flat. rewrite length_app, length_firstn, repeat_length. lia.
Qed.

Lemma resize_flat_shrinks {A : Type} (z : A) (a : list A) (n : nat) :
  (n <= length a)%nat -> resize_flat z a n = firstn n a.
Proof.
  intro H. unfold resize_flat.
  replace (n - length a)%nat with O by lia. apply app_nil_r.
Qed.

Lemma reshape_length {A : Type} (rows cols : nat) (a : list A) :
  length (reshape rows cols a) = rows.
Proof.
  revert a. induction rows as [|rows IH]; intros a; simpl; auto.
Qed.

Lemma concat_rectangular {A : Type} (a : list (list A)) (cols : nat) :
  rectangular a cols -> length (concat a) = (length a * cols)%nat.
Proof.
  induction 1 as [|row a Hrow _ IH]; simpl; [reflexivity|].
  rewrite length_app, IH, Hrow. reflexivity.
Qed.

Lemma firstn_prefix {A : Type} (a b : list A) :
  firstn (length a) (a ++ b) = a.
Proof. induction a as [|y a IH]; simpl; [reflexivity | now rewrite IH]. Qed.

Lemma skipn_prefix {A : Type} (a b : list A) :
  skipn (length a) (a ++ b) = b.
Proof. induction a as [|y a IH]; simpl; auto. Qed.

Lemma reshape_rows {A : Type} (a : list (list A)) (rows cols : nat) :
  rectangular a cols -> (rows <= length a)%nat ->
  reshape rows cols (firstn (rows * cols) (concat a)) = firstn rows a.
Proof.
  intros Ha. revert rows.
  induction Ha as [|row a Hrow Ha IH]; intros [|rows] Hr; simpl in *;
    try reflexivity; try lia.
  subst cols. rewrite firstn_app_2, firstn_prefix, skipn_prefix.
  now rewrite IH by lia.
Qed.

Lemma resize2_shrinks (a : list (list C32)) (rows cols : Z) :
  0 <= rows -> 0 <= cols -> rectangular a (Z.to_nat cols) ->
  rows <= Z.of_nat (length a) ->
  resize2 a rows cols = Ok (firstn (Z.to_nat rows) a).
Proof.
  intros Hr Hc Ha Hle. unfold resize2.
  destruct (Z.ltb_spec rows 0); [lia|].
  destruct (Z.ltb_spec cols 0); [lia|]. simpl.
  rewrite resize_flat_shrinks.
  - now rewrite reshape_rows by (auto; lia).
  - rewrite (concat_rectangular _ _ Ha). apply Nat.mul_le_mono_r. lia.
Qed.

(** The handler always leaves [ioutnum + 1] entries in both buffers;
    they are the first entries of what was there when the buffers held
    at least that many. *)
Lemma blow_up_returns (s : KS) :
  0 <= ioutnum s -> 0 <= N s ->
  exists s',
    blow_up s = Return minus_one s'
    /\ same_setting s s' /\ uu s' = uu s
    /\ nout s' = ioutnum s /\ ioutnum s' = ioutnum s
    /\ Z.of_nat (length (vv s')) = ioutnum s + 1
    /\ Z.of_nat (length (tt s')) = ioutnum s + 1
    /\ (rectangular (vv s) (Z.to_nat (N s)) ->
        ioutnum s + 1 <= Z.of_nat (length (vv s)) ->
        vv s' = firstn (Z.to_nat (ioutnum s + 1)) (vv s))
    /\ (ioutnum s + 1 <= Z.of_nat (length (tt s)) ->
        tt s' = firstn (Z.to_nat (ioutnum s + 1)) (tt s)).
Proof.
  intros Hi HN. unfold blow_up, assign, resize2, resize1. simpl.
  destruct (Z.ltb_spec (ioutnum s + 1) 0); [lia|].
  destruct (Z.ltb_spec (N s) 0); [lia|]. simpl.
  eexists. split; [reflexivity|]. simpl.
  split; [now repeat split|].
  repeat split.
  - rewrite reshape_length. lia.
  - rewrite resize_flat_length. lia.
  - intros Hrect Hle. rewrite resize_flat_shrinks.
    + apply reshape_rows; [assumption | lia].
    + rewrite (concat_rectangular _ _ Hrect). apply Nat.mul_le_mono_r. lia.
  - intros Hle. apply resize_flat_shrinks. lia.
Qed.

(** *** The buffers during a run *)

Lemma div_succ (k i : Z) :
  0 < i -> 0 <= k ->
  (k + 1) / i = k / i + (if (k + 1) mod i =? 0 then 1 else 0).
Proof.
  intros Hi Hk.
  assert (Hnz : i <> 0) by lia.
  pose proof (Z.div_mod k i Hnz) as Hdm.
  pose proof (Z.mod_pos_bound k i Hi) as Hb.
  remember (k / i) as q eqn:Hq. remember (k mod i) as m eqn:Hm.
  destruct (Z.eq_dec (m + 1) i) as [He | Hne].
  - assert (H1 : k + 1 = i * (q + 1) + 0) by (rewrite Z.mul_add_distr_l; lia).
    assert (H0 : 0 <= 0 < i) by lia.
    rewrite <- (Z.mod_unique_pos _ _ _ _ H0 H1).
    rewrite <- (Z.div_unique_pos _ _ _ _ H0 H1). reflexivity.
  - assert (H1 : k + 1 = i * q + (m + 1)) by lia.
    assert (H0 : 0 <= m + 1 < i) by lia.
    rewrite <- (Z.mod_unique_pos _ _ _ _ H0 H1).
    rewrite <- (Z.div_unique_pos _ _ _ _ H0 H1).
    destruct (Z.eqb_spec (m + 1) 0); lia.
Qed.

Lemma samples_seq (s : KS) (k : nat) :
  samples s (map Z.of_nat (seq 1 k))
  = if 0 <? iout s then Z.of_nat k / iout s else 0.
Proof.
  induction k as [|k IH].
  - simpl. destruct (0 <? iout s); [now rewrite Zdiv_0_l | reflexivity].
  - rewrite seq_S, map_app, samples_app, IH. simpl.
    unfold sampled.
    destruct (Z.ltb_spec 0 (iout s)) as [Hi | Hi]; simpl; [|lia].
    replace (Z.of_nat (S k)) with (Z.of_nat k + 1) by lia.
    replace (Z.pos (Pos.of_succ_nat k)) with (Z.of_nat k + 1) by lia.
    rewrite (div_succ _ _ Hi) by lia. lia.
Qed.

Lemma samples_due (s : KS) : samples s (range1 (nsteps s + 1)) = due s.
Proof.
  unfold range1, due. rewrite samples_seq.
  destruct (0 <? iout s); [|reflexivity].
  f_equal. lia.
Qed.

Lemma fou2real_final (s : KS) :
  let s' := final (fou2real s) in
  nout s' = nout s /\ ioutnum s' = ioutnum s /\ vv s' = vv s
  /\ tt s' = tt s /\ v s' = v s.
Proof.
  unfold fou2real, assign. destruct (fou2real_value _); now simpl.
Qed.

Lemma for_loop_invariant (correction : list C) (ns : list Z) (s : KS) :
  sized s -> 0 <= ioutnum s -> 0 <= N s ->
  ioutnum s + samples s ns <= nout s ->
  let s' := final (for_loop (try_block correction) ns s fou2real) in
  series_invariant s'
  /\ (length (vv s') <= length (vv s))%nat
  /\ (length (tt s') <= length (tt s))%nat.
Proof.
  revert s. induction ns as [|n ns IH]; intros s [Hvv Htt] Hi HN Hroom; simpl.
  - destruct (fou2real_final s) as (E1 & E2 & E3 & E4 & _).
    simpl in Hroom. unfold series_invariant, sized.
    rewrite E1, E2, E3, E4. repeat split; auto; lia.
  - simpl in Hroom.
    pose proof (sampled_range s n) as Hsr.
    pose proof (samples_nonneg s ns) as Hsn.
    unfold iteration.
    pose proof (try_block_final correction s) as [Hset Hser].
    destruct (try_block correction s) as [r s1 | e s1];
      simpl in Hset, Hser;
      destruct Hser as (Hn1 & Hi1 & Hv1 & Ht1 & _).
    + pose proof (record_final s1 n) as Hrec.
      assert (Hsam : sampled s1 n = sampled s n)
        by (apply sampled_setting, Hset).
      destruct (record s1 n) as [r' s2 | e s2]; simpl in Hrec;
        destruct Hrec as (Hset2 & _ & Hn2 & _ & Hv2 & Ht2 & Hi2).
      * assert (HN2 : N s2 = N s).
        { destruct Hset as [? _], Hset2 as [? _]. congruence. }
        assert (Hio : iout s2 = iout s).
        { destruct Hset as (_ & _ & _ & ? & _), Hset2 as (_ & _ & _ & ? & _).
          congruence. }
        specialize (IH s2). simpl in IH.
        rewrite Hv2, Ht2, Hv1, Ht1 in IH. apply IH.
        -- unfold sized. rewrite Hv2, Ht2, Hn2, Hv1, Ht1, Hn1. now split.
        -- lia.
        -- lia.
        -- rewrite (samples_setting s s2) by exact Hio. lia.
      * simpl. unfold series_invariant, sized.
        rewrite Hv2, Ht2, Hn2, Hi2, Hv1, Ht1, Hn1, Hi1, Hsam.
        repeat split; auto; lia.
    + assert (Hplain : series_invariant s1
                       /\ (length (vv s1) <= length (vv s))%nat
                       /\ (length (tt s1) <= length (tt s))%nat).
      { unfold series_invariant, sized.
        rewrite Hv1, Ht1, Hn1, Hi1. repeat split; auto; lia. }
      destruct e; simpl; try exact Hplain.
      assert (HN1 : N s1 = N s) by apply Hset.
      destruct (blow_up_returns s1)
        as (s' & Hb & _ & _ & P1 & P2 & P3 & P4 & _); [lia | lia |].
      rewrite Hb. simpl. unfold series_invariant, sized.
      rewrite P1, P2. repeat split; lia.
Qed.

Lemma setup_timeseries_sized (s : KS) (nout_arg r : option Z) (s' : KS) :
  setup_timeseries s nout_arg = Return r s' ->
  sized s' /\ 0 <= nout s' /\ ioutnum s' = ioutnum s.
Proof.
  unfold setup_timeseries.
  set (s0 := match nout_arg with Some n => set_nout s n | None => s end).
  assert (Hi0 : ioutnum s0 = ioutnum s) by (subst s0; now destruct nout_arg).
  unfold assign, np_zeros2, np_zeros.
  destruct (nout s0 + 1 <? 0) eqn:Hrows; simpl; [discriminate|].
  destruct (N s0 <? 0) eqn:Hcols; simpl; [discriminate|].
  rewrite Hrows. simpl.
  destruct (store_row _ _ _) as [a|e] eqn:Hrow; simpl; [|discriminate].
  destruct (store_item _ _ _) as [b|e] eqn:Hitem; simpl; [|discriminate].
  intros [= _ <-]. simpl.
  apply store_item_length in Hitem. rewrite repeat_length in Hitem.
  pose proof Hrow as Hlen. apply store_row_length in Hlen.
  rewrite repeat_length in Hlen.
  unfold store_row, index in Hrow. rewrite repeat_length in Hrow.
  apply Z.ltb_ge in Hrows.
  unfold sized. simpl. rewrite Hitem, Hlen.
  destruct (Z.eq_dec (nout s0 + 1) 0) as [Hz | Hz].
  - rewrite Hz in Hrow. simpl in Hrow. discriminate.
  - repeat split; lia.
Qed.

Lemma enter_final (s : KS) (a b : option Z) (restart : bool) :
  let s' := final (enter s a b restart) in
  N s' = N s /\ ioutnum s' = ioutnum s /\ uu s' = uu s.
Proof.
  unfold enter. destruct restart; [|destruct a, b; now simpl].
  unfold assign, setup_timeseries.
  destruct (int_div _ _); [|destruct a, b; now simpl].
  simpl.
  destruct (np_zeros2 _ _); simpl; [|destruct a, b; now simpl].
  destruct (np_zeros _ _); simpl; [|destruct a, b; now simpl].
  destruct (store_row _ _ _); simpl; [|destruct a, b; now simpl].
  destruct (store_item _ _ _); simpl; destruct a, b; now simpl.
Qed.

(** C6, amended: in a run that starts, after the first part of
    [simulate], with both buffers holding [nout + 1] entries and with
    room for the samples it is due to take ([0 <= ioutnum] and
    [ioutnum + due <= nout], as after the constructor or after IC and a
    restart), the buffers hold [nout + 1] entries and [ioutnum <= nout]
    after every completed iteration and when [simulate] is left, by a
    return or by an exception; the buffers are never longer at the end
    than at the start; and [setup_timeseries] always leaves both buffers
    with [nout + 1] entries. *)
Theorem series_invariant_run (s : KS) (nsteps_arg iout_arg : option Z)
    (restart : bool) (correction : list C) (r : option Z) (s1 : KS) :
  enter s nsteps_arg iout_arg restart = Return r s1 ->
  sized s1 -> 0 <= ioutnum s1 -> 0 <= N s1 -> ioutnum s1 + due s1 <= nout s1 ->
  (forall done rest s2,
      range1 (nsteps s1 + 1) = done ++ rest ->
      completes (try_block correction) done s1 = Some s2 ->
      series_invariant s2)
  /\ (let s' := final (simulate s nsteps_arg iout_arg restart correction) in
      series_invariant s'
      /\ (length (vv s') <= length (vv s1))%nat
      /\ (length (tt s') <= length (tt s1))%nat)
  /\ (forall nout_arg r' s2,
        setup_timeseries s nout_arg = Return r' s2 -> sized s2).
Proof.
  intros Henter Hsized Hi HN Hroom.
  rewrite <- samples_due in Hroom.
  split; [|split].
  - intros done rest s2 Hrange Hdone.
    apply completes_final in Hdone.
    destruct Hdone as (_ & Hn & _ & Hv & Ht & Hi2).
    rewrite Hrange, samples_app in Hroom.
    pose proof (samples_nonneg s1 rest).
    destruct Hsized as [S1 S2].
    unfold series_invariant, sized. rewrite Hv, Ht, Hn, Hi2.
    repeat split; auto; lia.
  - unfold simulate. rewrite Henter. simpl. rewrite run_for_loop.
    now apply for_loop_invariant.
  - intros nout_arg r' s2 H. now apply setup_timeseries_sized in H.
Qed.

Lemma blow_up_uu (s : KS) (r : option Z) (s' : KS) :
  blow_up s = Return r s' -> r = minus_one /\ uu s' = uu s.
Proof.
  unfold blow_up, assign.
  destruct (resize2 _ _ _); simpl; [|discriminate].
  destruct (resize1 _ _); simpl; [|discriminate].
  now intros [= <- <-].
Qed.

Lemma for_loop_uu (correction : list C) (ns : list Z) (s : KS)
    (r : option Z) (s' : KS) :
  for_loop (try_block correction) ns s fou2real = Return r s' ->
  (r = None /\ exists rows,
      fou2real_value (vv s') = Ok rows /\ uu s' = Some rows)
  \/ (r = minus_one /\ uu s' = uu s).
Proof.
  revert s. induction ns as [|n ns IH]; intros s; simpl.
  - unfold fou2real, assign.
    destruct (fou2real_value (vv s)) as [rows|e] eqn:H; [|discriminate].
    intros [= <- <-]. left. split; [reflexivity|]. now exists rows.
  - destruct (iteration _ s n) as [s1|o] eqn:Hit.
    + apply iteration_next in Hit. destruct Hit as (_ & _ & Hu & _).
      intros H. apply IH in H. rewrite Hu in H. exact H.
    + unfold iteration in Hit.
      pose proof (try_block_final correction s) as [_ Hser].
      destruct (try_block correction s) as [r1 s1|e s1]; simpl in Hser.
      * destruct (record s1 n); [discriminate|].
        injection Hit as <-. discriminate.
      * destruct Hser as (_ & _ & _ & _ & Hu).
        destruct e; injection Hit as <-; try discriminate.
        intros H. apply blow_up_uu in H. right. now rewrite <- Hu.
Qed.

(** C9, amended: when [simulate] returns None, the run was completed and
    [uu] is the real part of the inverse transform of every row of [vv]
    as it stands; when it returns -1, the run was cut by a divergence,
    the conversion was not made and [uu] is what it was before the
    call. *)
Theorem simulate_fou2real (s : KS) (nsteps_arg iout_arg : option Z)
    (restart : bool) (correction : list C) (r : option Z) (s' : KS) :
  simulate s nsteps_arg iout_arg restart correction = Return r s' ->
  (r = None /\ exists rows,
      fou2real_value (vv s') = Ok rows /\ uu s' = Some rows)
  \/ (r = minus_one /\ uu s' = uu s).
Proof.
  unfold simulate.
  pose proof (enter_final s nsteps_arg iout_arg restart) as He.
  destruct (enter s nsteps_arg iout_arg restart) as [r1 s1|e s1];
    simpl in *; [|discriminate].
  destruct He as (_ & _ & Hu).
  rewrite run_for_loop. intros H. apply for_loop_uu in H.
  now rewrite Hu in H.
Qed.

End SimulateFacts.

(** ** A correction of zeros *)

Section ZeroCorrection.

Context {Ar : Arith}.

Hypothesis fft_r_length : forall a : list F, length (fft_r a) = length a.
Hypothesis ifft_c_length : forall a : list C, length (ifft_c a) = length a.

Lemma set_v_same (s : KS) : set_v s (v s) = s.
Proof. now destruct s. Qed.

Lemma add_zeros (a : list C) :
  Forall absorbs_zero a ->
  map (fun ab => call2 np_add (fst ab) (snd ab))
      (combine a (repeat (complex_of (F_lit 0 1)) (length a))) = a
  /\ existsb (fun ab => fperr2 np_add (fst ab) (snd ab))
             (combine a (repeat (complex_of (F_lit 0 1)) (length a))) = false.
Proof.
  induction 1 as [|z a [Hz Hf] _ [IH1 IH2]]; simpl; [now split|].
  now rewrite Hz, Hf, IH1, IH2.
Qed.

Lemma iadd_zeros (s : KS) :
  Forall absorbs_zero (v s) ->
  iadd s (repeat (complex_of (F_lit 0 1)) (length (v s))) = Return None s.
Proof.
  intros Hz. unfold iadd. rewrite repeat_length, Nat.eqb_refl. simpl.
  rewrite broadcast2_same by now rewrite repeat_length.
  destruct (add_zeros (v s) Hz) as [-> ->]. now rewrite set_v_same.
Qed.

Lemma step_shaped (s : KS) (n : nat) (r : option Z) (s' : KS) :
  n <> O -> shaped s n -> step s = Return r s' -> r = None /\ shaped s' n.
Proof.
  intros Hn Hs.
  destruct (step_value_shape fft_r_length ifft_c_length s n Hn Hs)
    as (a & [[Ha | Ha] _] & Hlen & _);
    unfold step, assign; rewrite Ha; [|discriminate].
  intros [= <- <-]. split; [reflexivity|].
  unfold shaped in *. simpl. tauto.
Qed.

Lemma try_corrected_zeros (s : KS) (n : nat) :
  n <> O -> shaped s n ->
  (forall r s1, step s = Return r s1 -> Forall absorbs_zero (v s1)) ->
  try_corrected (repeat (complex_of (F_lit 0 1)) n) s = try_plain s.
Proof.
  intros Hn Hs Hz. unfold try_corrected, try_plain, call.
  destruct (step s) as [r s1|e s1] eqn:Hstep; [|reflexivity].
  destruct (step_shaped s n r s1 Hn Hs Hstep) as [-> (Hv & _)].
  rewrite <- Hv. apply iadd_zeros. now apply (Hz None).
Qed.

Lemma iteration_shaped (s s' : KS) (n : nat) (k : Z) :
  n <> O -> shaped s n -> iteration try_plain s k = Next s' -> shaped s' n.
Proof.
  intros Hn Hs. unfold iteration, try_plain.
  destruct (step s) as [r s1|e s1] eqn:Hstep; [|destruct e; discriminate].
  destruct (step_shaped s n r s1 Hn Hs Hstep) as [_ Hs1].
  pose proof (record_final s1 k) as Hrec.
  destruct (record s1 k) as [r2 s2|e s2]; [|discriminate].
  intros [= <-]. simpl in Hrec.
  destruct Hrec
    as ((_ & _ & _ & _ & HE & HE2 & HQ & H1 & H2 & H3 & Hg & _) & Hv & _).
  unfold shaped. rewrite Hv, HE, HE2, HQ, H1, H2, H3, Hg. exact Hs1.
Qed.

Lemma for_loop_zeros (ns : list Z) (s : KS) (n : nat)
    (after : KS -> outcome) :
  n <> O -> shaped s n -> zero_neutral ns s ->
  for_loop (try_corrected (repeat (complex_of (F_lit 0 1)) n)) ns s after
  = for_loop try_plain ns s after.
Proof.
  intros Hn. revert s. induction ns as [|k ns IH]; intros s Hs Hz; simpl.
  - reflexivity.
  - assert (Hit : iteration (try_corrected (repeat (complex_of (F_lit 0 1)) n)) s k
                  = iteration try_plain s k).
    { unfold iteration. rewrite (try_corrected_zeros s n Hn Hs); [reflexivity|].
      intros r s1 Hstep. simpl in Hz. rewrite Hstep in Hz. apply Hz. }
    rewrite Hit.
    destruct (iteration try_plain s k) as [s'|o] eqn:Hnext; [|reflexivity].
    apply IH; [eapply iteration_shaped; eassumption|].
    simpl in Hz. unfold iteration, try_plain in Hnext.
    destruct (step s) as [r s1|e s1]; [|destruct e; discriminate].
    destruct Hz as [_ Hz].
    destruct (record s1 k) as [r2 s2|e s2]; [|discriminate].
    now injection Hnext as <-.
Qed.

Lemma enter_shaped (s : KS) (a b : option Z) (restart : bool) (n : nat) :
  shaped s n -> shaped (final (enter s a b restart)) n.
Proof.
  intros Hs. unfold enter. destruct restart; [|destruct a, b; exact Hs].
  unfold assign, setup_timeseries.
  destruct (int_div _ _); [|destruct a, b; exact Hs]. simpl.
  destruct (np_zeros2 _ _); simpl; [|destruct a, b; exact Hs].
  destruct (np_zeros _ _); simpl; [|destruct a, b; exact Hs].
  destruct (store_row _ _ _); simpl; [|destruct a, b; exact Hs].
  destruct (store_item _ _ _); simpl; destruct a, b; exact Hs.
Qed.

Lemma zero_neutralb_sound (ok : C -> bool) (ns : list Z) (s : KS) :
  (forall z, ok z = true -> absorbs_zero z) ->
  zero_neutralb ok ns s = true -> zero_neutral ns s.
Proof.
  intros Hok. revert s. induction ns as [|n ns IH]; intros s; simpl.
  - trivial.
  - destruct (step s) as [r s1|e s1]; [|trivial].
    intros H. apply andb_prop in H. destruct H as [Hall Hrest].
    split.
    + apply Forall_forall. intros z Hz. apply Hok.
      rewrite forallb_forall in Hall. now apply Hall.
    + destruct (record s1 n) as [r2 s2|e s2]; [now apply IH | trivial].
Qed.

(** C8, amended: on an object whose arrays all have [N] entries,
    [simulate] with a correction of [N] zeros and [simulate] without a
    correction have the same outcome: the same returned value or
    exception and the same object, hence the same [v], [vv] and [tt],
    provided that adding zero leaves alone every component of every
    state that a step of the run without correction reaches. *)
Theorem simulate_zero_correction (s : KS) (nsteps_arg iout_arg : option Z)
    (restart : bool) :
  shaped s (Z.to_nat (N s)) ->
  (let s1 := final (enter s nsteps_arg iout_arg restart) in
   zero_neutral (range1 (nsteps s1 + 1)) s1) ->
  simulate s nsteps_arg iout_arg restart (zero_correction s)
  = simulate s nsteps_arg iout_arg restart [].
Proof.
  intros Hs Hz. unfold simulate, zero_correction.
  pose proof (enter_shaped s nsteps_arg iout_arg restart _ Hs) as Hs1.
  destruct (enter s nsteps_arg iout_arg restart) as [r s1|e s1];
    simpl in *; [|reflexivity].
  remember (Z.to_nat (N s)) as n eqn:Hn.
  destruct n as [|m]; [reflexivity|].
  rewrite !run_for_loop.
  change (try_block (repeat (complex_of (F_lit 0 1)) (S m)))
    with (try_corrected (repeat (complex_of (F_lit 0 1)) (S m))).
  change (try_block []) with try_plain.
  now apply for_loop_zeros.
Qed.

End ZeroCorrection.

(** ** The set-up of the coefficients *)

Lemma settles_assign {Ar : Arith} {A : Type} (q : Prop) (s : KS)
    (rhs : res A) (a : A) (store : KS -> A -> KS) (rest : KS -> outcome)
    (P : KS -> Prop) :
  computes q rhs a -> settles q (rest (store s a)) P ->
  settles q (assign s rhs store rest) P.
Proof.
  intros [[H | H] Hq] [Hs Hsq]; unfold assign, settles.
  - rewrite H. now split.
  - rewrite H. split; [reflexivity|]. intros Q. rewrite (Hq Q) in H.
    discriminate.
Qed.

Section SetupFacts.

Context {Num : Numerics}.

Ltac quietly := intros Q; apply Q.

Ltac stage2d :=
  eapply computes_bind;
  [ first
      [ apply apply2_2d_scalar_computes; quietly
      | apply apply2_2d_scalar_r_computes; quietly
      | apply apply2_2d_computes; quietly
      | apply apply1_2d_computes; quietly ]
  | ].

Lemma dt_real_mean_computes (s : KS) (f : C -> C) (a : list (list C)) :
  computes quiet_setup (dt_real_mean s (map (map f) a))
    (map (fun row => call2 np_multiply_f (dt s)
                       (np_real (call1 np_mean_c (map f row)))) a).
Proof.
  unfold dt_real_mean.
  eapply computes_bind; [apply apply1_computes; quietly|].
  replace (map (fun row => call2 np_multiply_f (dt s)
                             (np_real (call1 np_mean_c (map f row)))) a)
    with (map (call2 np_multiply_f (dt s))
              (map np_real (map (call1 np_mean_c) (map (map f) a))))
    by now rewrite !map_map.
  apply apply2_scalar_computes. quietly.
Qed.

Lemma Q_value_computes (s : KS) :
  computes quiet_setup (Q_value s)
    (map (fun row => call2 np_multiply_f (dt s)
                       (np_real (call1 np_mean_c (map Q_integrand row))))
         (LR s)).
Proof.
  unfold Q_value, scalar2d, clit.
  rewrite <- (map2d_id (LR s)).
  do 4 stage2d.
  rewrite map2d_id. apply dt_real_mean_computes.
Qed.

Lemma f1_value_computes (s : KS) :
  computes quiet_setup (f1_value s)
    (map (fun row => call2 np_multiply_f (dt s)
                       (np_real (call1 np_mean_c (map f1_integrand row))))
         (LR s)).
Proof.
  unfold f1_value, scalar2d, clit.
  rewrite <- (map2d_id (LR s)).
  do 10 stage2d.
  rewrite map2d_id. apply dt_real_mean_computes.
Qed.

Lemma f2_value_computes (s : KS) :
  computes quiet_setup (f2_value s)
    (map (fun row => call2 np_multiply_f (dt s)
                       (np_real (call1 np_mean_c (map f2_integrand row))))
         (LR s)).
Proof.
  unfold f2_value, scalar2d, clit.
  rewrite <- (map2d_id (LR s)).
  do 7 stage2d.
  rewrite map2d_id. apply dt_real_mean_computes.
Qed.

Lemma f3_value_computes (s : KS) :
  computes quiet_setup (f3_value s)
    (map (fun row => call2 np_multiply_f (dt s)
                       (np_real (call1 np_mean_c (map f3_integrand row))))
         (LR s)).
Proof.
  unfold f3_value, scalar2d, clit.
  rewrite <- (map2d_id (LR s)).
  do 10 stage2d.
  rewrite map2d_id. apply dt_real_mean_computes.
Qed.

Lemma contour_computes : computes quiet_setup (contour 16) contour_spec.
Proof.
  unfold contour, contour_spec, lit, promote.
  eapply computes_bind; [apply apply2_scalar_r_computes; quietly|].
  eapply computes_bind; [apply apply2_scalar_computes; quietly|].
  eapply computes_bind; [apply apply2_scalar_r_computes; quietly|].
  replace (map contour_point_spec (range1 17))
    with (map (call1 np_exp)
            (map (fun y => call2 np_divide y (complex_of (F_of_Z 16)))
               (map (call2 np_multiply
                       (call2 np_multiply
                          (complex_lit (F_lit 0 1) (F_lit 1 1))
                          (complex_of pi)))
                  (map complex_of
                     (map (fun y => call2 np_subtract_f y (F_lit 1 2))
                        (map F_of_Z (range1 (16 + 1))))))))
    by now rewrite !map_map.
  apply apply1_computes. quietly.
Qed.

Lemma contour_spec_length : length contour_spec = 16%nat.
Proof. reflexivity. Qed.

Lemma nd_scale_computes (c : F) (a : ndarray) :
  computes quiet_setup (nd_scale c a)
    match a with
    | Float64 y => Float64 (map (call2 np_multiply_f c) y)
    | Complex128 y => Complex128 (map (cmul (complex_of c)) y)
    end.
Proof.
  destruct a as [y|y]; simpl;
    (eapply computes_bind; [apply apply2_scalar_computes; quietly|]);
    apply computes_Ok.
Qed.

Lemma E_computes (s : KS) :
  computes quiet_setup (a <- nd_scale (dt s) (l s) ;; nd_exp a) (E_spec s).
Proof.
  eapply computes_bind; [apply nd_scale_computes|].
  unfold E_spec, dt_l.
  destruct (l s) as [y|y]; simpl;
    (eapply computes_bind; [apply apply1_computes; quietly|]);
    apply computes_Ok.
Qed.

Lemma E2_computes (s : KS) :
  computes quiet_setup
    (a <- nd_scale (dt s) (l s) ;; h <- nd_halve a ;; nd_exp h) (E2_spec s).
Proof.
  eapply computes_bind; [apply nd_scale_computes|].
  unfold E2_spec, dt_l.
  destruct (l s) as [y|y]; simpl;
    (eapply computes_bind;
     [eapply computes_bind;
      [apply apply2_scalar_r_computes; quietly | apply computes_Ok]|]);
    simpl;
    (eapply computes_bind; [apply apply1_computes; quietly|]);
    rewrite map_map; apply computes_Ok.
Qed.

Lemma g_computes (s : KS) : computes quiet_setup (g_value s) (g_spec s).
Proof.
  unfold g_value, g_spec, promote.
  replace (map (fun kj => cmul (py_neg_c (complex_lit (F_lit 0 1) (F_lit 1 2)))
                            (complex_of kj)) (k s))
    with (map (call2 np_multiply
                 (py_neg_c (complex_lit (F_lit 0 1) (F_lit 1 2))))
              (map complex_of (k s)))
    by now rewrite map_map.
  apply apply2_scalar_computes. quietly.
Qed.

Lemma zip_with_repeat {A : Type} (u : A -> A -> A) (d : A) (a : list A) :
  zip_with u (repeat d (length a)) a = map (u d) a.
Proof.
  unfold zip_with. induction a as [|y a IH]; simpl; [reflexivity|].
  now rewrite IH.
Qed.

Lemma combine_repeat {A B : Type} (a : list A) (b : B) :
  combine a (repeat b (length a)) = map (fun y => (y, b)) a.
Proof. induction a as [|y a IH]; simpl; [reflexivity | now rewrite IH]. Qed.

Lemma map_repeat {A B : Type} (f : A -> B) (d : A) (n : nat) :
  map f (repeat d n) = repeat (f d) n.
Proof. induction n as [|n IH]; simpl; [reflexivity | now rewrite IH]. Qed.

Lemma scaled_rows_computes (s : KS) (m : nat) :
  exists rows,
    computes quiet_setup
      (mapM (nd_scale (dt s)) (repeat_columns (l s) m)) rows
    /\ map as_complex rows = map (fun z => repeat z m) (as_complex (dt_l s)).
Proof.
  eexists. split.
  - apply mapM_computes. intros a _. apply nd_scale_computes.
  - unfold repeat_columns, dt_l. destruct (l s) as [y|y]; simpl;
      rewrite !map_map; apply map_ext; intros e; simpl.
    + now rewrite !map_repeat.
    + now rewrite map_repeat.
Qed.

Lemma dt_l_length (s : KS) : length (as_complex (dt_l s)) = size0 (l s).
Proof.
  unfold dt_l. destruct (l s); simpl; now rewrite ?length_map.
Qed.

Lemma LR_computes (s : KS) :
  0 <= N s -> size0 (l s) = Z.to_nat (N s) ->
  length (r s) = Z.to_nat (M s) ->
  computes quiet_setup (LR_value s) (LR_spec s (r s)).
Proof.
  intros HN Hl Hr. unfold LR_value.
  destruct (scaled_rows_computes s (Z.to_nat (M s))) as (rows & Hc & Hrows).
  eapply computes_bind; [exact Hc|].
  unfold repeat_rows. destruct (Z.ltb_spec (N s) 0); [lia|]. simpl.
  rewrite Hrows, <- Hl, <- dt_l_length, <- Hr.
  unfold apply2_2d.
  rewrite broadcast2_same by now rewrite length_map, repeat_length.
  rewrite <- (length_map (fun z => repeat z (length (r s)))
               (as_complex (dt_l s))).
  rewrite combine_repeat. simpl.
  unfold LR_spec.
  replace (map (fun z => map (cadd z) (r s)) (as_complex (dt_l s)))
    with (map (fun ab : list C * list C =>
                 zip_with (call2 np_add) (fst ab) (snd ab))
              (map (fun y => (y, r s))
                 (map (fun z => repeat z (length (r s)))
                    (as_complex (dt_l s))))).
  - apply mapM_computes. intros [a b] Hin. simpl.
    apply in_map_iff in Hin. destruct Hin as (row & [= <- <-] & Hin).
    apply in_map_iff in Hin. destruct Hin as (z & <- & _).
    apply apply2_computes; [quietly | apply repeat_length].
  - rewrite !map_map. apply map_ext. intros z. simpl.
    apply zip_with_repeat.
Qed.

(** C2: when [l] has [N] entries, [setup_etdrk4] either raises
    FloatingPointError or returns with, mode by mode, E = exp(dt l),
    E2 = exp(dt l / 2), g = -i k / 2 and Q, f1, f2, f3 equal to dt times
    the real part of the mean, over the 16 contour points
    r_m = exp(i pi (m - 0.5) / 16), m = 1..16, of the four integrands of
    the specification taken at dt l + r_m; it returns when no operation
    signals. *)
Theorem setup_etdrk4_coefficients (s : KS) :
  0 <= N s -> size0 (l s) = Z.to_nat (N s) ->
  match setup_etdrk4 s with
  | Return r0 s' =>
      r0 = None
      /\ (E s' = E_spec s /\ E2 s' = E2_spec s /\ M s' = 16
          /\ r s' = contour_spec /\ LR s' = LR_spec s contour_spec
          /\ Q s' = map (contour_mean_spec s Q_integrand) (as_complex (dt_l s))
          /\ f1 s' = map (contour_mean_spec s f1_integrand) (as_complex (dt_l s))
          /\ f2 s' = map (contour_mean_spec s f2_integrand) (as_complex (dt_l s))
          /\ f3 s' = map (contour_mean_spec s f3_integrand) (as_complex (dt_l s))
          /\ g s' = g_spec s)
  | Raise e _ => e = FloatingPointError
  end
  /\ (quiet_setup -> exists s', setup_etdrk4 s = Return None s').
Proof.
  intros HN Hl.
  change (settles quiet_setup (setup_etdrk4 s)
            (fun s' =>
               E s' = E_spec s /\ E2 s' = E2_spec s /\ M s' = 16
               /\ r s' = contour_spec /\ LR s' = LR_spec s contour_spec
               /\ Q s' = map (contour_mean_spec s Q_integrand)
                             (as_complex (dt_l s))
               /\ f1 s' = map (contour_mean_spec s f1_integrand)
                              (as_complex (dt_l s))
               /\ f2 s' = map (contour_mean_spec s f2_integrand)
                              (as_complex (dt_l s))
               /\ f3 s' = map (contour_mean_spec s f3_integrand)
                              (as_complex (dt_l s))
               /\ g s' = g_spec s)).
  unfold setup_etdrk4.
  eapply settles_assign; [apply E_computes|].
  eapply settles_assign; [apply E2_computes|].
  eapply settles_assign; [apply computes_Ok|].
  eapply settles_assign; [apply contour_computes|].
  eapply settles_assign; [apply LR_computes; [exact HN | exact Hl | reflexivity]|].
  eapply settles_assign; [apply Q_value_computes|].
  eapply settles_assign; [apply f1_value_computes|].
  eapply settles_assign; [apply f2_value_computes|].
  eapply settles_assign; [apply f3_value_computes|].
  eapply settles_assign; [apply g_computes|].
  split; [|intros _; now eexists].
  split; [reflexivity|].
  assert (Hmean : forall f,
             map (fun row => call2 np_multiply_f (dt s)
                               (np_real (call1 np_mean_c (map f row))))
                 (LR_spec s contour_spec)
             = map (contour_mean_spec s f) (as_complex (dt_l s))).
  { intros f. unfold LR_spec. rewrite map_map. apply map_ext. intros z.
    unfold contour_mean_spec. now rewrite map_map. }
  simpl. repeat split; try reflexivity; apply Hmean.
Qed.

(** ** IC and the constructor *)

(** C7: when the vector that [IC] is given ([v0], or [u0] when no [v0]
    is given) has a length other than [N], [IC] returns the error code
    -1 and the object is exactly what it was: [u0], [v0], [v], [t],
    [stepnum] and [ioutnum] are unchanged, nothing is truncated or
    padded, no run is started. *)
Theorem IC_wrong_size (s : KS) (u0' : option (list F))
    (v0' : option (list C)) (testing : bool) :
  match v0', u0' with
  | Some w, _ => Z.of_nat (length w) <> N s
  | None, Some u => Z.of_nat (length u) <> N s
  | None, None => False
  end ->
  IC s u0' v0' testing = Return minus_one s.
Proof.
  unfold IC. destruct v0' as [w|]; [|destruct u0' as [u|]]; intros H.
  - destruct (Z.eqb_spec (Z.of_nat (length w)) (N s)); [contradiction|].
    reflexivity.
  - destruct (Z.eqb_spec (Z.of_nat (length u)) (N s)); [contradiction|].
    reflexivity.
  - contradiction.
Qed.

(** C5: with [iout = 0] the constructor raises ZeroDivisionError,
    whatever the other arguments: the quotient [nsteps/iout] (or, for
    N = 0, the quotient by [N] just before it) is taken unguarded. *)
Theorem init_iout_zero (L' : F) (N' : Z) (dt' : F) (n : Z) (tend : F) :
  exists s, __init__ L' N' dt' (Some n) tend 0 = Raise ZeroDivisionError s.
Proof.
  unfold __init__, assign, py_div_int, int_div. simpl.
  destruct (N' =? 0); simpl; now eexists.
Qed.

Lemma IC_default_final (s : KS) :
  let o := IC s None None false in
  N (final o) = N s /\ nout (final o) = nout s
  /\ ((exists e, o = Raise e s) \/ (exists s', o = Return None s'))
  /\ (N s < 0 -> exists e, o = Raise e s).
Proof.
  unfold IC.
  set (rhs := bind _ _).
  assert (Hneg : N s < 0 -> exists e, rhs = Err e).
  { intros H. subst rhs. unfold random_noise.
    destruct (Z.ltb_spec (N s) 0); [|lia]. now eexists. }
  unfold assign. destruct rhs as [p|e]; simpl.
  - repeat split; [right; now eexists|].
    intros H. destruct (Hneg H). discriminate.
  - repeat split; [left | intros _]; now eexists.
Qed.

Lemma setup_timeseries_rejects (s : KS) :
  nout s < 0 -> exists e s', setup_timeseries s None = Raise e s'.
Proof.
  intros H. unfold setup_timeseries, assign, np_zeros2, np_zeros.
  destruct (Z.ltb_spec (nout s + 1) 0) as [|Hrows]; simpl; [now eexists; eexists|].
  destruct (Z.ltb_spec (N s) 0) as [|Hcols]; simpl; [now eexists; eexists|].
  destruct (Z.ltb_spec (nout s + 1) 0); simpl; [lia|].
  replace (nout s + 1) with 0 by lia. simpl.
  now eexists; eexists.
Qed.

Lemma quot_negative (n i : Z) : 0 < i -> n <= - i -> Z.quot n i < 0.
Proof.
  intros Hi Hn.
  replace n with (- (- n)) by lia. rewrite Z.quot_opp_l by lia.
  rewrite Z.quot_div_nonneg by lia.
  assert (1 <= - n / i) by (apply Z.div_le_lower_bound; lia). lia.
Qed.

(** Without a positive stride the sampling does nothing: the loops of
    [simulate] guard it. *)
Lemma record_without_stride (s : KS) (n : Z) :
  iout s <= 0 -> record s n = Return None s.
Proof.
  intros H. unfold record. now destruct (Z.ltb_spec 0 (iout s)); [lia|].
Qed.

(** C4, amended: the constructor has no check of its arguments; it
    fails, with the exception of the operation that trips, for N <= 0,
    for iout = 0, for a zero dt when [nsteps] is derived from [tend],
    and for a negative [nsteps] of magnitude at least [iout]. *)
Theorem init_rejects (L' : F) (N' : Z) (dt' : F) (nsteps' : option Z)
    (tend : F) (iout' : Z) :
  N' <= 0 \/ iout' = 0 \/ (nsteps' = None /\ py_is_zero dt' = true)
  \/ (exists n, nsteps' = Some n /\ 0 < iout' /\ n <= - iout') ->
  exists e s, __init__ L' N' dt' nsteps' tend iout' = Raise e s.
Proof.
  intros H. unfold __init__.
  unfold assign at 1.
  destruct (match nsteps' with
            | Some n => Ok n
            | None => q <- py_div tend dt';; py_int q
            end) as [n0|e] eqn:Hn0; [|now eexists; eexists].
  unfold assign at 1, py_div_int.
  destruct (Z.eqb_spec N' 0) as [HN0 | HN0]; [now eexists; eexists|].
  unfold assign at 1, int_div. cbn [nsteps iout set_nsteps].
  destruct (Z.eqb_spec iout' 0) as [Hi0 | Hi0]; [now eexists; eexists|].
  match goal with
  | |- context [IC ?s0' None None false] => set (s0 := s0')
  end.
  assert (HN' : N s0 = N') by reflexivity.
  assert (Hnout' : nout s0 = Z.quot n0 iout') by reflexivity.
  pose proof (IC_default_final s0) as (_ & Hnout & Hcases & Hneg).
  cbv zeta in Hnout, Hcases, Hneg.
  destruct Hcases as [[e He] | [s1 Hs1]].
  - rewrite He. cbn [call]. now eexists; eexists.
  - rewrite Hs1 in Hnout, Hneg |- *. cbn [call final] in *.
    destruct H as [H | [H | [[-> H] | (n & -> & Hi & Hn)]]].
    + destruct Hneg as [e He]; [lia | discriminate].
    + contradiction.
    + unfold py_div in Hn0. rewrite H in Hn0. discriminate.
    + injection Hn0 as <-.
      destruct (setup_timeseries_rejects s1) as (e & s2 & Hrej).
      { rewrite Hnout, Hnout'. now apply quot_negative. }
      rewrite Hrej. cbn [call]. now eexists; eexists.
Qed.

End SetupFacts.

(** ** What the buffer holds *)

Section Recording.

Context {Ar : Arith}.

Lemma nth_update_same {A : Type} (a : list A) (i : nat) (y d : A) :
  (i < length a)%nat -> nth i (update a i y) d = y.
Proof.
  revert i. induction a as [|z a IH]; intros [|i] H; simpl in *;
    try lia; [reflexivity | apply IH; lia].
Qed.

Lemma index_nonneg (n : nat) (i : Z) (j : nat) :
  index n i = Ok j -> 0 <= i -> j = Z.to_nat i /\ (j < n)%nat.
Proof.
  unfold index. intros H Hi.
  destruct (Z.leb_spec 0 i); [|lia].
  destruct (Z.ltb_spec i (Z.of_nat n)); simpl in H.
  - injection H as <-. split; lia.
  - destruct (Z.ltb_spec i 0); [lia|]. simpl in H. discriminate.
Qed.

Lemma store_row_nth (a b : list (list C32)) (i : Z) (src : list C) :
  store_row a i src = Ok b -> 0 <= i ->
  length src = length (nth (Z.to_nat i) a []) ->
  nth (Z.to_nat i) b [] = map c64_of src.
Proof.
  unfold store_row. intros H Hi Hlen.
  destruct (index (length a) i) as [j|e] eqn:Hj; simpl in H; [|discriminate].
  apply index_nonneg in Hj; [|exact Hi]. destruct Hj as [-> Hlt].
  rewrite Hlen, Nat.eqb_refl in H. injection H as <-.
  now apply nth_update_same.
Qed.

Lemma setup_timeseries_row0 (s : KS) (nout_arg r : option Z) (s' : KS) :
  setup_timeseries s nout_arg = Return r s' ->
  Z.of_nat (length (v0 s)) = N s ->
  nth 0 (vv s') [] = map c64_of (v0 s).
Proof.
  unfold setup_timeseries.
  set (s0 := match nout_arg with Some n => set_nout s n | None => s end).
  assert (Hv0 : v0 s0 = v0 s) by (subst s0; now destruct nout_arg).
  assert (HN : N s0 = N s) by (subst s0; now destruct nout_arg).
  unfold assign, np_zeros2, np_zeros.
  destruct (nout s0 + 1 <? 0) eqn:Hrows; simpl; [discriminate|].
  destruct (N s0 <? 0) eqn:Hcols; simpl; [discriminate|].
  rewrite Hrows. simpl.
  destruct (store_row _ _ _) as [a|e] eqn:Hrow; simpl; [|discriminate].
  destruct (store_item _ _ _) as [b|e] eqn:Hitem; simpl; [|discriminate].
  intros [= _ <-] Hlen. simpl. rewrite <- Hv0.
  apply (store_row_nth _ _ 0 _ Hrow); [lia|].
  simpl.
  assert (Hpos : (0 < Z.to_nat (nout s0 + 1))%nat).
  { unfold store_row, index in Hrow. rewrite repeat_length in Hrow.
    destruct (Z.to_nat (nout s0 + 1)); [discriminate | lia]. }
  destruct (Z.to_nat (nout s0 + 1)); [lia|]. simpl.
  rewrite repeat_length, Hv0, HN. lia.
Qed.

Lemma record_row (s : KS) (n : Z) (r : option Z) (s' : KS) :
  record s n = Return r s' -> sampled s n = 1 -> 0 <= ioutnum s ->
  length (v s) = length (nth (Z.to_nat (ioutnum s + 1)) (vv s) []) ->
  ioutnum s' = ioutnum s + 1
  /\ nth (Z.to_nat (ioutnum s')) (vv s') [] = map c64_of (v s)
  /\ nth (Z.to_nat (ioutnum s')) (tt s') (F_lit 0 1) = t s.
Proof.
  unfold record, sampled.
  destruct (_ && _); [|intros _ H; discriminate].
  unfold assign. simpl.
  destruct (store_row _ _ _) as [a|e] eqn:Hrow; simpl; [|discriminate].
  destruct (store_item _ _ _) as [b|e] eqn:Hitem; simpl; [|discriminate].
  intros [= _ <-] _ Hi Hlen. simpl.
  split; [reflexivity|]. split.
  - apply (store_row_nth _ _ _ _ Hrow); [lia | exact Hlen].
  - unfold store_item in Hitem.
    destruct (index _ _) as [j|] eqn:Hj; simpl in Hitem; [|discriminate].
    apply index_nonneg in Hj; [|lia]. destruct Hj as [-> Hlt].
    injection Hitem as <-. now apply nth_update_same.
Qed.

End Recording.

(** C10: every row stored in [vv] is the complex64 cast, element by
    element, of the double-precision vector stored: row 0 is the cast of
    [v0], written by [setup_timeseries], and the row written by the
    sampling of an iteration is the cast of [v] at that moment; the
    cast loses precision: in binary64, 0.1 is not its own cast. *)
Theorem recorded_rows_are_casts :
  (forall (Ar : Arith) (s : KS) (nout_arg r : option Z) (s' : KS),
      setup_timeseries s nout_arg = Return r s' ->
      Z.of_nat (length (v0 s)) = N s ->
      nth 0 (vv s') [] = map c64_of (v0 s))
  /\ (forall (Ar : Arith) (s : KS) (n : Z) (r : option Z) (s' : KS),
        record s n = Return r s' -> sampled s n = 1 -> 0 <= ioutnum s ->
        length (v s) = length (nth (Z.to_nat (ioutnum s + 1)) (vv s) []) ->
        ioutnum s' = ioutnum s + 1
        /\ nth (Z.to_nat (ioutnum s')) (vv s') [] = map c64_of (v s))
  /\ Binary64.to_c64 (PrimFloat.div 1 10, 0%float)
     <> (PrimFloat.div 1 10, 0%float).
Proof.
  split; [|split].
  - intros Ar s nout_arg r s'. apply setup_timeseries_row0.
  - intros Ar s n r s' H1 H2 H3 H4.
    destruct (record_row s n r s' H1 H2 H3 H4) as (? & ? & _). now split.
  - intros H.
    assert (Hb : PrimFloat.eqb (fst (Binary64.to_c64 (PrimFloat.div 1 10, 0%float)))
                   (PrimFloat.div 1 10) = true).
    { rewrite H. vm_compute. reflexivity. }
    vm_compute in Hb. discriminate.
Qed.

(** * Further facts *)

(** ** Runs *)

Section RunFacts.

Context {Ar : Arith}.

Lemma step_outcome (s : KS) :
  (exists v', step s = Return None (tick (set_v s v')))
  \/ (exists e, step s = Raise e s).
Proof.
  unfold step, assign. destruct (step_value s) as [v'|e];
    [left | right]; now eexists.
Qed.

Lemma iadd_outcome (s : KS) (correction : list C) :
  exists v', final (iadd s correction) = set_v s v'.
Proof.
  unfold iadd.
  destruct (_ || _)%bool; [|exists (v s); now destruct s].
  destruct (broadcast2 _ _); [|exists (v s); now destruct s].
  destruct (existsb _ _); simpl; now eexists.
Qed.

(** The try block counts the step it takes. *)
Lemma try_block_counts (correction : list C) (s : KS) :
  match try_block correction s with
  | Return _ s' => stepnum s' = stepnum s + 1 /\ t s' = py_add (t s) (dt s)
  | Raise _ s' => stepnum s' = stepnum s \/ stepnum s' = stepnum s + 1
  end.
Proof.
  destruct correction as [|c correction].
  - unfold try_block, try_plain.
    destruct (step_outcome s) as [[v' ->] | [e ->]]; simpl; auto.
  - unfold try_block, try_corrected, call.
    destruct (step_outcome s) as [[v' ->] | [e ->]]; [|now left].
    destruct (iadd_outcome (tick (set_v s v')) (c :: correction)) as [w Hw].
    destruct (iadd _ _) as [r s'|e s']; simpl in Hw; subst s'; simpl; auto.
Qed.

Lemma record_keeps (s : KS) (n : Z) :
  let s' := final (record s n) in
  stepnum s' = stepnum s /\ t s' = t s /\ v s' = v s.
Proof.
  unfold record. destruct (_ && _); [|now simpl].
  unfold assign.
  destruct (store_row _ _ _); simpl; [|now simpl].
  destruct (store_item _ _ _); now simpl.
Qed.

Lemma iteration_counts (correction : list C) (s s' : KS) (n : Z) :
  iteration (try_block correction) s n = Next s' ->
  stepnum s' = stepnum s + 1 /\ t s' = py_add (t s) (dt s).
Proof.
  unfold iteration.
  pose proof (try_block_counts correction s) as Htry.
  destruct (try_block correction s) as [r s1|e s1].
  - pose proof (record_keeps s1 n) as Hrec.
    destruct (record s1 n) as [r' s2|e s2]; [|discriminate].
    intros [= <-]. simpl in Hrec. destruct Hrec as (-> & -> & _). exact Htry.
  - destruct e; discriminate.
Qed.

Lemma completes_counts (correction : list C) (ns : list Z) (s s' : KS) :
  completes (try_block correction) ns s = Some s' ->
  stepnum s' = stepnum s + Z.of_nat (length ns).
Proof.
  revert s. induction ns as [|n ns IH]; intros s; simpl length.
  - intros [= <-]. simpl. lia.
  - simpl. destruct (iteration _ s n) as [s1|o] eqn:Hit; [|discriminate].
    intros H. apply IH in H. apply iteration_counts in Hit. lia.
Qed.

(** A loop that is left by the end returns what [fou2real] returns on
    the object that the iterations leave. *)
Lemma for_loop_returns_none (correction : list C) (ns : list Z) (s s' : KS) :
  for_loop (try_block correction) ns s fou2real = Return None s' ->
  exists s2,
    completes (try_block correction) ns s = Some s2
    /\ fou2real s2 = Return None s'.
Proof.
  revert s. induction ns as [|n ns IH]; intros s; simpl.
  - intros H. now exists s.
  - destruct (iteration _ s n) as [s1|o] eqn:Hit; [apply IH|].
    intros ->. unfold iteration in Hit.
    destruct (try_block correction s) as [r s1|e s1].
    + destruct (record s1 n); discriminate.
    + destruct e; try discriminate.
      injection Hit as Hb. symmetry in Hb.
      unfold blow_up, assign in Hb.
      destruct (resize2 _ _ _); simpl in Hb; [|discriminate].
      destruct (resize1 _ _); discriminate.
Qed.

Lemma range1_length (n : Z) : Z.of_nat (length (range1 (n + 1))) = Z.max 0 n.
Proof. unfold range1. rewrite length_map, length_seq. lia. Qed.

Lemma enter_keeps (s : KS) (a b : option Z) (restart : bool) :
  let s' := final (enter s a b restart) in
  v s' = v s /\ t s' = t s /\ stepnum s' = stepnum s /\ v0 s' = v0 s
  /\ nsteps s' = match a with Some n => n | None => nsteps s end
  /\ iout s' = match b with Some i => i | None => iout s end.
Proof.
  unfold enter. destruct restart; [|destruct a, b; now simpl].
  unfold assign, setup_timeseries.
  destruct (int_div _ _); [|destruct a, b; now simpl].
  simpl.
  destruct (np_zeros2 _ _); simpl; [|destruct a, b; now simpl].
  destruct (np_zeros _ _); simpl; [|destruct a, b; now simpl].
  destruct (store_row _ _ _); simpl; [|destruct a, b; now simpl].
  destruct (store_item _ _ _); simpl; destruct a, b; now simpl.
Qed.

Lemma enter_dt (s : KS) (a b : option Z) (restart : bool) :
  dt (final (enter s a b restart)) = dt s.
Proof.
  unfold enter. destruct restart; [|destruct a, b; now simpl].
  unfold assign, setup_timeseries.
  destruct (int_div _ _); [|destruct a, b; now simpl].
  simpl.
  destruct (np_zeros2 _ _); simpl; [|destruct a, b; now simpl].
  destruct (np_zeros _ _); simpl; [|destruct a, b; now simpl].
  destruct (store_row _ _ _); simpl; [|destruct a, b; now simpl].
  destruct (store_item _ _ _); simpl; destruct a, b; now simpl.
Qed.

Lemma completes_clock (correction : list C) (ns : list Z) (s s' : KS) :
  completes (try_block correction) ns s = Some s' ->
  t s' = Nat.iter (length ns) (fun y => py_add y (dt s)) (t s).
Proof.
  revert s. induction ns as [|n ns IH]; intros s; simpl length.
  - intros [= <-]. reflexivity.
  - simpl completes.
    destruct (iteration _ s n) as [s1|o] eqn:Hit; [|discriminate].
    intros H. apply IH in H.
    pose proof (iteration_next _ _ _ _ Hit) as ((_ & Hdt & _) & _).
    apply iteration_counts in Hit. destruct Hit as [_ Ht].
    rewrite H, Hdt, Ht, Nat.iter_succ_r. reflexivity.
Qed.

(** X1: a run that completes has taken [max 0 nsteps] steps and
    [max 0 nsteps / iout] samples (none when [iout <= 0]): [stepnum] and
    [ioutnum] are advanced by these numbers, on top of what they were
    before the call, and the clock [t] is advanced by adding [dt] to it
    once per step. *)
Theorem completed_run_counts (s : KS) (nsteps_arg iout_arg : option Z)
    (restart : bool) (correction : list C) (s' : KS) :
  simulate s nsteps_arg iout_arg restart correction = Return None s' ->
  let n := match nsteps_arg with Some n => n | None => nsteps s end in
  let i := match iout_arg with Some i => i | None => iout s end in
  stepnum s' = stepnum s + Z.max 0 n
  /\ ioutnum s' = ioutnum s + (if 0 <? i then Z.max 0 n / i else 0)
  /\ t s' = Nat.iter (Z.to_nat n) (fun y => py_add y (dt s)) (t s).
Proof.
  unfold simulate.
  pose proof (enter_keeps s nsteps_arg iout_arg restart) as Hk.
  pose proof (enter_final s nsteps_arg iout_arg restart) as Hf.
  pose proof (enter_dt s nsteps_arg iout_arg restart) as Hdt.
  destruct (enter s nsteps_arg iout_arg restart) as [r s1|e s1];
    simpl in *; [|discriminate].
  destruct Hk as (_ & Ht & Hstep & _ & Hn & Hi).
  destruct Hf as (_ & Hio & _).
  rewrite run_for_loop. intros H.
  apply for_loop_returns_none in H. destruct H as (s2 & Hdone & Hfou).
  pose proof (completes_counts _ _ _ _ Hdone) as Hc.
  pose proof (completes_clock _ _ _ _ Hdone) as Hclock.
  apply completes_final in Hdone.
  destruct Hdone as (_ & _ & _ & _ & _ & Hsam).
  rewrite samples_due in Hsam. unfold due in Hsam.
  rewrite range1_length in Hc.
  pose proof (fou2real_final s2) as Hfin. rewrite Hfou in Hfin. simpl in Hfin.
  destruct Hfin as (_ & Hi2 & _).
  assert (Hs2 : stepnum s' = stepnum s2 /\ t s' = t s2).
  { unfold fou2real, assign in Hfou.
    destruct (fou2real_value _); [|discriminate].
    now injection Hfou as <-. }
  destruct Hs2 as [Hs2 Ht2].
  rewrite Hn, Hi in *. split; [congruence|]. split; [congruence|].
  rewrite Ht2, Hclock, Hdt, Ht. f_equal.
  unfold range1. rewrite length_map, length_seq. f_equal. lia.
Qed.

End RunFacts.

(** ** What a run leaves alone *)

Section RunFrames.

Context {Ar : Arith}.

Lemma nth_update_other {A : Type} (a : list A) (i j : nat) (y d : A) :
  i <> j -> nth j (update a i y) d = nth j a d.
Proof.
  revert i j. induction a as [|z a IH]; intros [|i] [|j] H; simpl;
    try reflexivity; try congruence.
  apply IH. congruence.
Qed.

Lemma index_in_range (n : nat) (i : Z) (j : nat) :
  index n i = Ok j -> 0 <= i -> j = Z.to_nat i.
Proof.
  unfold index. intros H Hi.
  destruct (Z.leb_spec 0 i); [|lia].
  destruct (Z.ltb_spec i (Z.of_nat n)); simpl in H.
  - now injection H as <-.
  - destruct (Z.ltb_spec i 0); [lia|]. simpl in H. discriminate.
Qed.

Lemma store_row_other (a b : list (list C32)) (i : Z) (src : list C)
    (j : nat) :
  store_row a i src = Ok b -> 0 <= i -> j <> Z.to_nat i ->
  nth j b [] = nth j a [].
Proof.
  unfold store_row. intros H Hi Hj.
  destruct (index (length a) i) as [k|e] eqn:Hk; simpl in H; [|discriminate].
  apply index_in_range in Hk; [|exact Hi]. subst k.
  destruct (_ =? _)%nat.
  - injection H as <-. apply nth_update_other. congruence.
  - destruct src as [|c [|c' src]]; try discriminate.
    injection H as <-. apply nth_update_other. congruence.
Qed.

Lemma store_item_other {A : Type} (a b : list A) (i : Z) (y d : A) (j : nat) :
  store_item a i y = Ok b -> 0 <= i -> j <> Z.to_nat i ->
  nth j b d = nth j a d.
Proof.
  unfold store_item. intros H Hi Hj.
  destruct (index (length a) i) as [k|e] eqn:Hk; simpl in H; [|discriminate].
  apply index_in_range in Hk; [|exact Hi]. subst k.
  injection H as <-. apply nth_update_other. congruence.
Qed.

(** The sampling writes at index [ioutnum + 1] only. *)
Lemma record_earlier (s : KS) (n : Z) (j : nat) :
  0 <= ioutnum s -> Z.of_nat j <= ioutnum s ->
  let s' := final (record s n) in
  nth j (vv s') [] = nth j (vv s) []
  /\ nth j (tt s') (F_lit 0 1) = nth j (tt s) (F_lit 0 1).
Proof.
  intros Hi Hj. unfold record. destruct (_ && _); [|now simpl].
  unfold assign. simpl.
  destruct (store_row _ _ _) as [a|e] eqn:Hrow; simpl; [|now split].
  apply (store_row_other _ _ _ _ j) in Hrow; [|lia|lia].
  destruct (store_item _ _ _) as [b|e] eqn:Hitem; simpl; [|now split].
  apply (store_item_other _ _ _ _ (F_lit 0 1) j) in Hitem; [|lia|lia].
  now split.
Qed.

Lemma iteration_earlier (correction : list C) (s s' : KS) (n : Z) (j : nat) :
  iteration (try_block correction) s n = Next s' ->
  0 <= ioutnum s -> Z.of_nat j <= ioutnum s ->
  nth j (vv s') [] = nth j (vv s) []
  /\ nth j (tt s') (F_lit 0 1) = nth j (tt s) (F_lit 0 1).
Proof.
  unfold iteration.
  pose proof (try_block_final correction s) as [_ Hser].
  destruct (try_block correction s) as [r s1|e s1]; simpl in Hser.
  - destruct Hser as (_ & Hi & Hv & Ht & _).
    intros H Hpos Hj.
    pose proof (record_earlier s1 n j) as Hrec.
    destruct (record s1 n) as [r' s2|e s2]; [|discriminate].
    injection H as <-. simpl in Hrec.
    rewrite Hi, Hv, Ht in Hrec. now apply Hrec.
  - destruct e; discriminate.
Qed.

Lemma completes_earlier (correction : list C) (ns : list Z) (s s' : KS)
    (j : nat) :
  completes (try_block correction) ns s = Some s' ->
  0 <= ioutnum s -> Z.of_nat j <= ioutnum s ->
  nth j (vv s') [] = nth j (vv s) []
  /\ nth j (tt s') (F_lit 0 1) = nth j (tt s) (F_lit 0 1).
Proof.
  revert s. induction ns as [|n ns IH]; intros s; simpl.
  - now intros [= <-].
  - destruct (iteration _ s n) as [s1|o] eqn:Hit; [|discriminate].
    intros H Hpos Hj.
    pose proof (iteration_earlier _ _ _ _ j Hit Hpos Hj) as [E1 E2].
    apply iteration_next in Hit. destruct Hit as (_ & _ & _ & _ & _ & Hi).
    pose proof (sampled_range s n).
    destruct (IH s1 H) as [E3 E4]; [lia | lia |].
    split; congruence.
Qed.

(** X2: a run without restart never overwrites what the buffers held up
    to index [ioutnum] when it started: neither after any number of
    completed iterations nor when it returns None. *)
Theorem earlier_samples_kept (s : KS) (nsteps_arg iout_arg : option Z)
    (correction : list C) (j : nat) :
  0 <= ioutnum s -> Z.of_nat j <= ioutnum s ->
  (forall s1 done rest s2,
      enter s nsteps_arg iout_arg false = Return None s1 ->
      range1 (nsteps s1 + 1) = done ++ rest ->
      completes (try_block correction) done s1 = Some s2 ->
      nth j (vv s2) [] = nth j (vv s) []
      /\ nth j (tt s2) (F_lit 0 1) = nth j (tt s) (F_lit 0 1))
  /\ (forall s',
        simulate s nsteps_arg iout_arg false correction = Return None s' ->
        nth j (vv s') [] = nth j (vv s) []
        /\ nth j (tt s') (F_lit 0 1) = nth j (tt s) (F_lit 0 1)).
Proof.
  intros Hpos Hj.
  assert (Henter : enter s nsteps_arg iout_arg false
                   = Return None (final (enter s nsteps_arg iout_arg false))
                   /\ vv (final (enter s nsteps_arg iout_arg false)) = vv s
                   /\ tt (final (enter s nsteps_arg iout_arg false)) = tt s
                   /\ ioutnum (final (enter s nsteps_arg iout_arg false))
                      = ioutnum s).
  { unfold enter. destruct nsteps_arg, iout_arg; now simpl. }
  destruct Henter as (He & Hv & Ht & Hi).
  remember (final (enter s nsteps_arg iout_arg false)) as s0 eqn:Hs0.
  clear Hs0.
  split.
  - intros s1 done rest s2 H1 _ Hdone.
    rewrite He in H1. injection H1 as <-.
    rewrite <- Hv, <- Ht.
    apply (completes_earlier _ _ _ _ j Hdone); lia.
  - intros s' H. unfold simulate in H. rewrite He in H.
    cbn [call] in H. rewrite run_for_loop in H.
    apply for_loop_returns_none in H. destruct H as (s2 & Hdone & Hfou).
    pose proof (fou2real_final s2) as Hfin. rewrite Hfou in Hfin.
    simpl in Hfin. destruct Hfin as (_ & _ & Hv2 & Ht2 & _).
    rewrite Hv2, Ht2, <- Hv, <- Ht.
    apply (completes_earlier _ _ _ _ j Hdone); lia.
Qed.

Lemma record_idle (s : KS) (n : Z) : iout s <= 0 -> record s n = Return None s.
Proof.
  intros H. unfold record. now destruct (Z.ltb_spec 0 (iout s)); [lia|].
Qed.

Lemma iteration_idle (correction : list C) (s s' : KS) (n : Z) :
  iout s <= 0 -> iteration (try_block correction) s n = Next s' ->
  iout s' <= 0 /\ vv s' = vv s /\ tt s' = tt s /\ ioutnum s' = ioutnum s.
Proof.
  intros Hio. unfold iteration.
  pose proof (try_block_final correction s) as [Hset Hser].
  destruct (try_block correction s) as [r s1|e s1]; simpl in Hset, Hser.
  - destruct Hset as (_ & _ & _ & Hi & _).
    destruct Hser as (_ & Hn & Hv & Ht & _).
    rewrite record_idle by lia. intros [= <-]. repeat split; auto; lia.
  - destruct e; discriminate.
Qed.

Lemma completes_idle (correction : list C) (ns : list Z) (s s' : KS) :
  iout s <= 0 -> completes (try_block correction) ns s = Some s' ->
  vv s' = vv s /\ tt s' = tt s /\ ioutnum s' = ioutnum s.
Proof.
  revert s. induction ns as [|n ns IH]; intros s Hio; simpl.
  - now intros [= <-].
  - destruct (iteration _ s n) as [s1|o] eqn:Hit; [|discriminate].
    apply (iteration_idle _ _ _ _ Hio) in Hit.
    destruct Hit as (Hio1 & Hv & Ht & Hi).
    intros H. apply (IH _ Hio1) in H. destruct H as (? & ? & ?).
    repeat split; congruence.
Qed.

(** X3: with a stride [iout <= 0], a run without restart that returns
    None has recorded nothing: [vv], [tt] and [ioutnum] are what they
    were. *)
Theorem no_stride_no_samples (s : KS) (nsteps_arg iout_arg : option Z)
    (correction : list C) (s' : KS) :
  match iout_arg with Some i => i | None => iout s end <= 0 ->
  simulate s nsteps_arg iout_arg false correction = Return None s' ->
  vv s' = vv s /\ tt s' = tt s /\ ioutnum s' = ioutnum s.
Proof.
  intros Hio. unfold simulate, enter. simpl.
  set (s1 := match iout_arg with
             | Some i => set_iout _ i
             | None => _
             end).
  assert (H1 : iout s1 <= 0 /\ vv s1 = vv s /\ tt s1 = tt s
               /\ ioutnum s1 = ioutnum s).
  { subst s1. destruct nsteps_arg, iout_arg; simpl in *; auto. }
  destruct H1 as (Hio1 & Hv & Ht & Hi).
  rewrite run_for_loop. intros H.
  apply for_loop_returns_none in H. destruct H as (s2 & Hdone & Hfou).
  apply (completes_idle _ _ _ _ Hio1) in Hdone.
  destruct Hdone as (Hv2 & Ht2 & Hi2).
  pose proof (fou2real_final s2) as Hfin. rewrite Hfou in Hfin.
  simpl in Hfin. destruct Hfin as (_ & Hi3 & Hv3 & Ht3 & _).
  repeat split; congruence.
Qed.

End RunFrames.

(** ** What a divergence leaves in the buffers *)

Section Divergence.

Context {Ar : Arith}.








End Divergence.

(** ** Edges of simulate *)

Section RunEdges.

Context {Ar : Arith}.

(** X4: with [nsteps <= 0] no step is taken: [simulate] is its first part
    followed by [fou2real], so [v], [t] and the counters are what they
    were and the buffers are those that the first part left. *)
Theorem simulate_no_steps (s : KS) (nsteps_arg iout_arg : option Z)
    (restart : bool) (correction : list C) (r : option Z) (s1 : KS) :
  enter s nsteps_arg iout_arg restart = Return r s1 ->
  match nsteps_arg with Some n => n | None => nsteps s end <= 0 ->
  simulate s nsteps_arg iout_arg restart correction = fou2real s1
  /\ (let s' := final (fou2real s1) in
      v s' = v s /\ t s' = t s /\ stepnum s' = stepnum s
      /\ ioutnum s' = ioutnum s /\ vv s' = vv s1 /\ tt s' = tt s1).
Proof.
  intros He Hn.
  pose proof (enter_keeps s nsteps_arg iout_arg restart) as Hk.
  pose proof (enter_final s nsteps_arg iout_arg restart) as Hf.
  rewrite He in Hk, Hf. simpl in Hk, Hf.
  destruct Hk as (Hv & Ht & Hs & _ & Hns & _). destruct Hf as (_ & Hi & _).
  split.
  - unfold simulate. rewrite He. cbn [call]. rewrite run_for_loop.
    unfold range1. replace (Z.to_nat (nsteps s1 + 1 - 1)) with O by lia.
    reflexivity.
  - unfold fou2real, assign.
    destruct (fou2real_value (vv s1)); simpl; now repeat split.
Qed.

(** X5: an object whose state vector is empty cannot be stepped: the
    inverse transform rejects it, the handler of the divergence does not
    catch that, and [simulate] raises ValueError at its first
    iteration, the object being as its first part left it. *)
Theorem simulate_empty_state (s : KS) (nsteps_arg iout_arg : option Z)
    (restart : bool) (correction : list C) (r : option Z) (s1 : KS) :
  enter s nsteps_arg iout_arg restart = Return r s1 ->
  v s = [] ->
  1 <= match nsteps_arg with Some n => n | None => nsteps s end ->
  step s1 = Raise ValueError s1
  /\ simulate s nsteps_arg iout_arg restart correction = Raise ValueError s1.
Proof.
  intros He Hv Hn.
  pose proof (enter_keeps s nsteps_arg iout_arg restart) as Hk.
  rewrite He in Hk. simpl in Hk. destruct Hk as (Hv1 & _ & _ & _ & Hns & _).
  assert (Hstep : step s1 = Raise ValueError s1).
  { unfold step, assign, step_value, nonlinear. now rewrite Hv1, Hv. }
  split; [exact Hstep|].
  unfold simulate. rewrite He. cbn [call]. rewrite run_for_loop.
  unfold range1.
  destruct (Z.to_nat (nsteps s1 + 1 - 1)) as [|m] eqn:Hm; [lia|].
  simpl. unfold iteration.
  destruct correction as [|c correction]; unfold try_block, try_plain,
    try_corrected; rewrite Hstep; reflexivity.
Qed.

(** X6: the length of a correction is not checked.  When it is neither
    empty, nor one, nor the length of [v], the first step is taken and
    the accumulation then raises ValueError, which [simulate] lets
    through: the object has the stepped [v] and the step counted. *)
Theorem simulate_wrong_correction (s : KS) (nsteps_arg iout_arg : option Z)
    (restart : bool) (correction : list C) (r r2 : option Z) (s1 s2 : KS) :
  enter s nsteps_arg iout_arg restart = Return r s1 ->
  1 <= match nsteps_arg with Some n => n | None => nsteps s end ->
  step s1 = Return r2 s2 ->
  correction <> [] -> length correction <> 1%nat ->
  length correction <> length (v s2) ->
  simulate s nsteps_arg iout_arg restart correction = Raise ValueError s2
  /\ stepnum s2 = stepnum s + 1.
Proof.
  intros He Hn Hstep Hne H1 Hlen.
  pose proof (enter_keeps s nsteps_arg iout_arg restart) as Hk.
  rewrite He in Hk. simpl in Hk. destruct Hk as (_ & _ & Hs & _ & Hns & _).
  split.
  - unfold simulate. rewrite He. cbn [call]. rewrite run_for_loop.
    unfold range1.
    destruct (Z.to_nat (nsteps s1 + 1 - 1)) as [|m] eqn:Hm; [lia|].
    simpl. unfold iteration.
    destruct correction as [|c correction]; [congruence|].
    unfold try_block, try_corrected. rewrite Hstep. cbn [call].
    unfold iadd.
    destruct (Nat.eqb_spec (length (v s2)) (length (c :: correction)));
      [congruence|].
    destruct (Nat.eqb_spec (length (c :: correction)) 1); [congruence|].
    reflexivity.
  - destruct (step_outcome s1) as [[v' Hv'] | [e He']];
      rewrite Hstep in *; [|discriminate].
    injection Hv' as _ ->. simpl. lia.
Qed.

(** X7: on restart the quotient [nsteps/iout] is taken unguarded: with a
    stride of zero [simulate] raises ZeroDivisionError before anything
    else is done to the buffers or the state. *)
Theorem simulate_restart_zero_stride (s : KS) (nsteps_arg iout_arg : option Z)
    (correction : list C) :
  match iout_arg with Some i => i | None => iout s end = 0 ->
  exists s',
    simulate s nsteps_arg iout_arg true correction = Raise ZeroDivisionError s'
    /\ vv s' = vv s /\ tt s' = tt s /\ v s' = v s /\ nout s' = nout s
    /\ ioutnum s' = ioutnum s.
Proof.
  intros Hi. unfold simulate, enter, assign, int_div.
  set (s1 := match iout_arg with
             | Some i => set_iout _ i
             | None => _
             end).
  assert (H1 : iout s1 = 0).
  { subst s1. destruct nsteps_arg, iout_arg; simpl in *; auto. }
  rewrite H1. simpl. exists s1. split; [reflexivity|].
  subst s1. destruct nsteps_arg, iout_arg; now simpl.
Qed.

Lemma setup_timeseries_fresh (s : KS) (n : Z) (r : option Z) (s' : KS) :
  setup_timeseries s (Some n) = Return r s' ->
  Z.of_nat (length (v0 s)) = N s ->
  nout s' = n /\ 0 <= n
  /\ tt s' = repeat (F_lit 0 1) (Z.to_nat (n + 1))
  /\ vv s' = map c64_of (v0 s)
             :: repeat (repeat c64_zero (Z.to_nat (N s))) (Z.to_nat n).
Proof.
  unfold setup_timeseries, assign, np_zeros2, np_zeros.
  cbn [nout N set_nout].
  destruct (n + 1 <? 0) eqn:Hrows; simpl; [discriminate|].
  destruct (N s <? 0) eqn:Hcols; simpl; [discriminate|].
  rewrite Hrows. simpl.
  apply Z.ltb_ge in Hrows. apply Z.ltb_ge in Hcols.
  unfold store_row, store_item, index. rewrite !repeat_length.
  destruct (Z.to_nat (n + 1)) as [|m] eqn:Hm; [simpl; discriminate|].
  replace (Z.to_nat n) with m by lia.
  destruct (Z.ltb_spec 0 (Z.of_nat (S m))); [|lia].
  cbn [Z.leb Z.compare andb bind Z.to_nat nth repeat].
  rewrite repeat_length. intros Hr Hlen.
  replace (length (v0 s) =? Z.to_nat (N s))%nat with true in Hr
    by (symmetry; apply Nat.eqb_eq; lia).
  cbn [update set_vv set_tt vv tt length] in Hr.
  injection Hr as _ <-. simpl. repeat split; auto; lia.
Qed.

Lemma enter_restart_fresh (s : KS) (nsteps_arg iout_arg : option Z)
    (r : option Z) (s1 : KS) :
  enter s nsteps_arg iout_arg true = Return r s1 ->
  Z.of_nat (length (v0 s)) = N s ->
  let n := match nsteps_arg with Some n => n | None => nsteps s end in
  let i := match iout_arg with Some i => i | None => iout s end in
  nout s1 = Z.quot n i /\ 0 <= nout s1
  /\ tt s1 = repeat (F_lit 0 1) (Z.to_nat (nout s1 + 1))
  /\ vv s1 = map c64_of (v0 s)
             :: repeat (repeat c64_zero (Z.to_nat (N s))) (Z.to_nat (nout s1)).
Proof.
  intros He Hlen.
  unfold enter in He.
  set (s0 := match iout_arg with
             | Some i => set_iout _ i
             | None => _
             end) in He.
  assert (H0 : nsteps s0 = match nsteps_arg with
                           | Some n => n | None => nsteps s end
               /\ iout s0 = match iout_arg with
                            | Some i => i | None => iout s end
               /\ N s0 = N s /\ v0 s0 = v0 s).
  { subst s0. destruct nsteps_arg, iout_arg; now simpl. }
  destruct H0 as (Hn0 & Hi0 & HN0 & Hv0).
  unfold assign, int_div in He.
  destruct (iout s0 =? 0); [discriminate|].
  apply setup_timeseries_fresh in He;
    [|cbn [v0 N set_nout]; now rewrite Hv0, HN0].
  cbn [v0 N nout set_nout] in He. rewrite Hn0, Hi0, Hv0, HN0 in He.
  destruct He as (E1 & E2 & E3 & E4). cbv zeta.
  rewrite E1. repeat split; auto.
Qed.

(** X8: a restart allocates the buffers anew and keeps the rest: when
    the first part of [simulate] returns, [nout] is [nsteps/iout]
    truncated, [tt] holds [nout + 1] zeros, [vv] holds the cast of [v0]
    followed by [nout] rows of zeros, and [v], [t], [stepnum] and
    [ioutnum] are what they were: the counters are not reset. *)
Theorem restart_resets_buffers_only (s : KS) (nsteps_arg iout_arg : option Z)
    (r : option Z) (s1 : KS) :
  enter s nsteps_arg iout_arg true = Return r s1 ->
  Z.of_nat (length (v0 s)) = N s ->
  let n := match nsteps_arg with Some n => n | None => nsteps s end in
  let i := match iout_arg with Some i => i | None => iout s end in
  nout s1 = Z.quot n i /\ 0 <= nout s1
  /\ tt s1 = repeat (F_lit 0 1) (Z.to_nat (nout s1 + 1))
  /\ vv s1 = map c64_of (v0 s)
             :: repeat (repeat c64_zero (Z.to_nat (N s))) (Z.to_nat (nout s1))
  /\ v s1 = v s /\ t s1 = t s /\ stepnum s1 = stepnum s
  /\ ioutnum s1 = ioutnum s.
Proof.
  intros He Hlen.
  pose proof (enter_keeps s nsteps_arg iout_arg true) as Hk.
  pose proof (enter_final s nsteps_arg iout_arg true) as Hf.
  rewrite He in Hk, Hf. simpl in Hk, Hf.
  destruct Hk as (Hv & Ht & Hs & _ & _ & _). destruct Hf as (_ & Hi & _).
  destruct (enter_restart_fresh s nsteps_arg iout_arg r s1 He Hlen)
    as (E1 & E2 & E3 & E4).
  cbv zeta. repeat split; assumption.
Qed.

(** X9: [setup_timeseries] with [nout <= -1] never returns, and by then
    [nout] has been overwritten: below -1, or with a negative [N], the
    allocation raises ValueError and the buffers are the old ones; at -1
    the buffers are replaced by empty ones and the store of the initial
    condition raises IndexError. *)
Theorem setup_timeseries_negative (s : KS) (n : Z) :
  n <= -1 ->
  exists e s',
    setup_timeseries s (Some n) = Raise e s' /\ nout s' = n
    /\ (if (n <? -1) || (N s <? 0)
        then e = ValueError /\ vv s' = vv s /\ tt s' = tt s
        else e = IndexError /\ vv s' = [] /\ tt s' = []).
Proof.
  intros Hn. unfold setup_timeseries, assign, np_zeros2, np_zeros.
  cbn [nout N set_nout].
  replace (n + 1 <? 0) with (n <? -1) by (apply eq_true_iff_eq; lia).
  destruct (Z.ltb_spec n (-1)) as [H1|H1]; simpl.
  - eexists _, _. split; [reflexivity|]. now simpl.
  - destruct (N s <? 0); simpl.
    + eexists _, _. split; [reflexivity|]. now simpl.
    + replace n with (-1) by lia. simpl.
      eexists _, _. split; [reflexivity|]. now simpl.
Qed.

Lemma fou2real_value_rows (a : list (list C32)) :
  (In [] a -> fou2real_value a = Err ValueError)
  /\ (~ In [] a ->
      fou2real_value a
      = Ok (map (fun row => map np_real32 (ifft_c64 row)) a)).
Proof.
  unfold fou2real_value.
  induction a as [|row a [IH1 IH2]]; simpl.
  - split; [contradiction | reflexivity].
  - split.
    + intros [-> | Hin]; [reflexivity|].
      destruct row as [|z row]; [reflexivity|]. simpl.
      specialize (IH1 Hin).
      destruct (mapM ifft64 a); simpl in *; [discriminate|].
      now injection IH1 as ->.
    + intros Hnot.
      destruct row as [|z row]; [exfalso; apply Hnot; now left|]. simpl.
      assert (Ha : ~ In [] a) by (intro; apply Hnot; now right).
      specialize (IH2 Ha).
      destruct (mapM ifft64 a); simpl in *; [|discriminate].
      injection IH2 as ->. reflexivity.
Qed.

(** X10: [fou2real] fails exactly on an empty row: then it raises
    ValueError and leaves the object alone; otherwise it returns with
    [uu] holding, row by row, the real parts of the single-precision
    inverse transform, whatever [uu] held before. *)
Theorem fou2real_rows (s : KS) :
  (In [] (vv s) -> fou2real s = Raise ValueError s)
  /\ (~ In [] (vv s) ->
      fou2real s
      = Return None
          (set_uu s (map (fun row => map np_real32 (ifft_c64 row)) (vv s)))).
Proof.
  unfold fou2real, assign.
  destruct (fou2real_value_rows (vv s)) as [H1 H2].
  split; intros H; [rewrite (H1 H) | rewrite (H2 H)]; reflexivity.
Qed.

End RunEdges.

(** ** The grid and the multipliers *)

Section FourierFacts.

Context {Num : Numerics}.

Lemma computes_value {A : Type} (q : Prop) (m : res A) (a b : A) :
  computes q m a -> m = Ok b -> b = a.
Proof. intros [[H | H] _] Hb; congruence. Qed.

Lemma computes_error {A : Type} (q : Prop) (m : res A) (a : A) (e : exn) :
  computes q m a -> m = Err e -> e = FloatingPointError.
Proof. intros [[H | H] _] He; congruence. Qed.

Lemma arange_length (n : Z) : length (arange n) = Z.to_nat n.
Proof. unfold arange. now rewrite length_map, length_seq. Qed.

Lemma wavenumbers_length (n : Z) :
  1 <= n -> length (wavenumbers n) = Z.to_nat (n + n mod 2).
Proof.
  intros Hn. unfold wavenumbers.
  rewrite !length_app, arange_length, length_map, length_seq. simpl.
  Z.to_euclidean_division_equations. lia.
Qed.

Lemma wavenumbers_zero (n : Z) : In (F_of_Z 0) (wavenumbers n).
Proof.
  unfold wavenumbers. apply in_or_app. right. now left.
Qed.

Lemma x_computes (s : KS) :
  computes quiet_fourier
    (m <- apply2 np_multiply_f [py_mul (py_mul (F_lit 2 1) pi) (L s)]
            (arange (N s)) ;;
     apply2 np_divide_f m [F_of_Z (N s)])
    (map (x_point s) (arange (N s))).
Proof.
  eapply computes_bind; [apply apply2_scalar_computes; intros Q; apply Q|].
  replace (map (x_point s) (arange (N s)))
    with (map (fun y => call2 np_divide_f y (F_of_Z (N s)))
            (map (call2 np_multiply_f (py_mul (py_mul (F_lit 2 1) pi) (L s)))
               (arange (N s))))
    by now rewrite map_map.
  apply apply2_scalar_r_computes. intros Q; apply Q.
Qed.

Lemma k_computes (s : KS) :
  computes quiet_fourier (apply2 np_divide_f (wavenumbers (N s)) [L s])
    (map (k_point s) (wavenumbers (N s))).
Proof. apply apply2_scalar_r_computes. intros Q; apply Q. Qed.

Lemma normal_l_computes (a : list F) :
  computes quiet_fourier (normal_l a) (map l_point a).
Proof.
  unfold normal_l.
  eapply computes_bind; [apply apply1_computes; intros Q; apply Q|].
  eapply computes_bind; [apply apply1_computes; intros Q; apply Q|].
  replace (map l_point a)
    with (zip_with (call2 np_subtract_f) (map (call1 (np_power_f 2)) a)
            (map (call1 (np_power_f 4)) a))
    by (rewrite zip_with_map; reflexivity).
  apply apply2_computes; [intros Q; apply Q | now rewrite !length_map].
Qed.

(** X11: [setup_fourier] without coefficients either raises
    FloatingPointError or returns with x[i] = 2 pi L i / N for
    i = 0..N-1, k[j] = w[j] / L over the wavenumbers w of the source, and
    the real multipliers l[j] = k[j]^2 - k[j]^4; nothing else of the
    object changes, and it returns when no operation signals. *)
Theorem setup_fourier_multipliers (s : KS) :
  match setup_fourier s None with
  | Return r0 s' =>
      r0 = None
      /\ s' = set_l (set_k (set_x s (map (x_point s) (arange (N s))))
                       (map (k_point s) (wavenumbers (N s))))
                (Float64 (map l_point (map (k_point s) (wavenumbers (N s)))))
  | Raise e _ => e = FloatingPointError
  end
  /\ (quiet_fourier -> exists s', setup_fourier s None = Return None s').
Proof.
  change (settles quiet_fourier (setup_fourier s None)
            (fun s' =>
               s' = set_l (set_k (set_x s (map (x_point s) (arange (N s))))
                             (map (k_point s) (wavenumbers (N s))))
                      (Float64 (map l_point
                                  (map (k_point s) (wavenumbers (N s))))))).
  unfold setup_fourier.
  eapply settles_assign; [apply x_computes|].
  eapply settles_assign; [apply k_computes|].
  eapply settles_assign.
  - eapply computes_bind; [apply normal_l_computes | apply computes_Ok].
  - split; [|intros _; now eexists]. split; reflexivity.
Qed.

Lemma setup_fourier_sizes (s : KS) (r0 : option Z) (s' : KS) :
  1 <= N s ->
  setup_fourier s None = Return r0 s' ->
  length (x s') = Z.to_nat (N s)
  /\ length (k s') = Z.to_nat (N s + N s mod 2)
  /\ size0 (l s') = length (k s').
Proof.
  intros HN. unfold setup_fourier, assign.
  destruct (bind _ _) as [a|e] eqn:Ha; [|discriminate].
  apply (computes_value _ _ _ _ (x_computes s)) in Ha. subst a.
  cbn [N L set_x].
  destruct (apply2 _ _ _) as [b|e] eqn:Hb; [|discriminate].
  apply (computes_value _ _ _ _ (k_computes s)) in Hb. subst b.
  cbn [k set_k].
  destruct (normal_l _) as [c|e] eqn:Hc; simpl; [|discriminate].
  apply (computes_value _ _ _ _ (normal_l_computes _)) in Hc. subst c.
  intros [= _ <-]. simpl.
  rewrite !length_map, arange_length, wavenumbers_length by exact HN.
  repeat split.
Qed.

(** X12: the number of wavenumbers follows the parity of [N]: when
    [setup_fourier] returns on an object with [N >= 1], [x] has [N]
    entries while [k] and [l] have [N] entries for even [N] and [N + 1]
    for odd [N]. *)
Theorem setup_fourier_lengths (s : KS) (r0 : option Z) (s' : KS) :
  1 <= N s ->
  setup_fourier s None = Return r0 s' ->
  length (x s') = Z.to_nat (N s)
  /\ (Z.even (N s) = true ->
      length (k s') = Z.to_nat (N s) /\ size0 (l s') = Z.to_nat (N s))
  /\ (Z.odd (N s) = true ->
      length (k s') = Z.to_nat (N s + 1)
      /\ size0 (l s') = Z.to_nat (N s + 1)).
Proof.
  intros HN H.
  destruct (setup_fourier_sizes s r0 s' HN H) as (Hx & Hk & Hl).
  rewrite Hl, Hk. split; [exact Hx|]. split; intros Hp.
  - rewrite Zmod_even, Hp, Z.add_0_r. now split.
  - rewrite Zmod_odd, Hp. now split.
Qed.

(** X13: a system size [L] for which the quotient 0/L signals (L = 0 in
    IEEE arithmetic, where 0/0 is invalid) is rejected by
    [setup_fourier]: it raises FloatingPointError, with or without
    coefficients, and [k] and [l] are left as they were. *)
Theorem setup_fourier_zero_L (s : KS) (coeffs : option (list F)) :
  fperr2 np_divide_f (F_of_Z 0) (L s) = true ->
  exists s',
    setup_fourier s coeffs = Raise FloatingPointError s'
    /\ k s' = k s /\ l s' = l s.
Proof.
  intros H0. unfold setup_fourier, assign.
  destruct (bind _ _) as [a|e] eqn:Ha.
  - cbn [N L set_x]. unfold apply2. rewrite broadcast2_scalar_r. simpl.
    replace (existsb _ _) with true.
    + eexists. split; [reflexivity|]. now simpl.
    + symmetry. apply existsb_exists. exists (F_of_Z 0, L s).
      split; [|exact H0].
      apply in_map_iff. exists (F_of_Z 0). split; [reflexivity|].
      apply wavenumbers_zero.
  - apply (computes_error _ _ _ _ (x_computes s)) in Ha. subst e.
    eexists. split; [reflexivity|]. now simpl.
Qed.

End FourierFacts.

(** ** Altered coefficients *)

Section AlteredFacts.

Context {Num : Numerics}.

Lemma bind_cases {A B : Type} (q : Prop) (m : res A) (a : A)
    (f : A -> res B) (P : res B -> Prop) :
  computes q m a -> P (f a) -> ((q -> False) -> P (Err FloatingPointError)) ->
  P (bind m f).
Proof.
  intros [[H | H] Hq] Ha He; rewrite H; [assumption|].
  apply He. intros Q. rewrite (Hq Q) in H. discriminate.
Qed.

Lemma apply2_map_computes {A B : Type} (q : Prop) (u : ufunc2 B)
    (f g : A -> B) (a : list A) :
  (q -> forall y z, fperr2 u y z = false) ->
  computes q (apply2 u (map f a) (map g a))
    (map (fun y => call2 u (f y) (g y)) a).
Proof.
  intros Hq. rewrite <- (zip_with_map (call2 u) f g a).
  apply apply2_computes; [exact Hq | now rewrite !length_map].
Qed.

Lemma apply2_scalar_map_computes {A B : Type} (q : Prop) (u : ufunc2 B)
    (c : B) (g : A -> B) (a : list A) :
  (q -> forall y z, fperr2 u y z = false) ->
  computes q (apply2 u [c] (map g a)) (map (fun y => call2 u c (g y)) a).
Proof.
  intros Hq. rewrite <- (map_map g (call2 u c)).
  now apply apply2_scalar_computes.
Qed.

Lemma ones_computes (q : Prop) (c : F) (a : list F) :
  (q -> forall y z, fperr2 np_multiply_f y z = false) ->
  computes q (apply2 np_multiply_f [c] (repeat (F_lit 1 1) (length a)))
    (map (fun _ => call2 np_multiply_f c (F_lit 1 1)) a).
Proof.
  intros Hq.
  replace (repeat (F_lit 1 1) (length a)) with (map (fun _ => F_lit 1 1) a).
  - now apply apply2_scalar_map_computes.
  - induction a as [|y a IH]; simpl; [reflexivity | now rewrite IH].
Qed.

Ltac quiet_part := intros Q; apply Q.

Ltac short_of_coefficients :=
  split; [right; split; [reflexivity | simpl; lia] | intros _ H; simpl in H; lia].

Ltac stage_altered :=
  unfold promote; rewrite ?map_map;
  eapply (bind_cases quiet_fourier);
  [ first
      [ apply ones_computes; quiet_part
      | apply apply2_scalar_map_computes; quiet_part
      | apply apply2_map_computes; quiet_part
      | apply apply1_computes; quiet_part ]
  | | intros NQ; split; [now left | intros Q; destruct (NQ Q)] ].

Lemma altered_l_cases (a cs : list F) :
  match altered_l a cs with
  | Ok b =>
      exists c0 c1 c2 c3 c4 rest,
        cs = c0 :: c1 :: c2 :: c3 :: c4 :: rest
        /\ b = map (altered_point c0 c1 c2 c3 c4) a
  | Err e =>
      e = FloatingPointError \/ (e = IndexError /\ (length cs < 5)%nat)
  end
  /\ (quiet_fourier -> (5 <= length cs)%nat ->
      exists b, altered_l a cs = Ok b).
Proof.
  unfold altered_l.
  destruct cs as [|c0 cs]; [short_of_coefficients|].
  cbn [item nth_error bind]. stage_altered.
  destruct cs as [|c1 cs]; [short_of_coefficients|].
  cbn [item nth_error bind]. stage_altered. stage_altered.
  destruct cs as [|c2 cs]; [short_of_coefficients|].
  cbn [item nth_error bind]. stage_altered. stage_altered. stage_altered.
  destruct cs as [|c3 cs]; [short_of_coefficients|].
  cbn [item nth_error bind]. stage_altered. stage_altered. stage_altered.
  destruct cs as [|c4 cs]; [short_of_coefficients|].
  cbn [item nth_error bind]. stage_altered. stage_altered.
  unfold promote; rewrite ?map_map.
  match goal with
  | |- context [apply2 ?u (map ?f a) (map ?g a)] =>
      destruct (apply2_map_computes quiet_fourier u f g a) as [[H | H] Hq];
        [quiet_part | rewrite H | rewrite H]
  end.
  - split; [|intros _ _; now eexists].
    exists c0, c1, c2, c3, c4, cs. split; reflexivity.
  - split; [now left|]. intros Q _. rewrite (Hq Q) in H. discriminate.
Qed.

(** X14: [setup_fourier] with altered coefficients reads the first five
    of them: with fewer it raises IndexError once the terms before the
    missing one are computed, and [l] is left as it was; with five or
    more it either raises FloatingPointError or returns with the complex
    multipliers l[j] = -c0 - c1 i k[j] + (1 + c2) k[j]^2 + c3 i k[j]^3
    - (1 + c4) k[j]^4, and it returns when no operation signals. *)
Theorem setup_fourier_altered (s : KS) (cs : list F) :
  match setup_fourier s (Some cs) with
  | Return r0 s' =>
      r0 = None
      /\ exists c0 c1 c2 c3 c4 rest,
           cs = c0 :: c1 :: c2 :: c3 :: c4 :: rest
           /\ k s' = map (k_point s) (wavenumbers (N s))
           /\ l s' = Complex128 (map (altered_point c0 c1 c2 c3 c4) (k s'))
  | Raise e s' =>
      (e = FloatingPointError \/ (e = IndexError /\ (length cs < 5)%nat))
      /\ l s' = l s
  end
  /\ (quiet_fourier -> (5 <= length cs)%nat ->
      exists s', setup_fourier s (Some cs) = Return None s').
Proof.
  unfold setup_fourier, assign.
  destruct (x_computes s) as [[Hx | Hx] Hxq]; rewrite Hx;
    [|split; [split; [now left | reflexivity]
             | intros Q _; rewrite (Hxq Q) in Hx; discriminate]].
  cbn [N L set_x].
  destruct (k_computes s) as [[Hk | Hk] Hkq]; rewrite Hk;
    [|split; [split; [now left | reflexivity]
             | intros Q _; rewrite (Hkq Q) in Hk; discriminate]].
  cbn [k set_k].
  destruct (altered_l_cases (map (k_point s) (wavenumbers (N s))) cs)
    as [Hl Hlq].
  destruct (altered_l _ cs) as [b|e]; simpl.
  - split; [|intros _ _; now eexists].
    split; [reflexivity|].
    destruct Hl as (c0 & c1 & c2 & c3 & c4 & rest & Hcs & Hb).
    exists c0, c1, c2, c3, c4, rest. subst b. now repeat split.
  - split; [now split|].
    intros Q H5. destruct (Hlq Q H5). discriminate.
Qed.

End AlteredFacts.

(** ** The constructor *)

Section ConstructorFacts.

Context {Num : Numerics}.

Lemma assign_final {A : Type} (s : KS) (rhs : res A) (store : KS -> A -> KS)
    (rest : KS -> outcome) (P : KS -> Prop) :
  P s -> (forall a, rhs = Ok a -> P (final (rest (store s a)))) ->
  P (final (assign s rhs store rest)).
Proof.
  intros Hs Hrest. unfold assign. destruct rhs as [a|e]; [|exact Hs].
  now apply Hrest.
Qed.

Lemma setup_fourier_keeps (s : KS) (coeffs : option (list F)) :
  let s' := final (setup_fourier s coeffs) in
  L s' = L s /\ N s' = N s /\ dt s' = dt s /\ nsteps s' = nsteps s
  /\ iout s' = iout s /\ nout s' = nout s /\ v0 s' = v0 s /\ v s' = v s
  /\ t s' = t s /\ stepnum s' = stepnum s /\ ioutnum s' = ioutnum s
  /\ vv s' = vv s /\ tt s' = tt s /\ uu s' = uu s.
Proof.
  unfold setup_fourier.
  apply assign_final; [now repeat split | intros a _].
  apply assign_final; [now repeat split | intros b _].
  destruct coeffs; (apply assign_final; [now repeat split | intros c _]);
    now repeat split.
Qed.

Lemma setup_etdrk4_keeps (s : KS) :
  let s' := final (setup_etdrk4 s) in
  L s' = L s /\ N s' = N s /\ dt s' = dt s /\ nsteps s' = nsteps s
  /\ iout s' = iout s /\ nout s' = nout s /\ v0 s' = v0 s /\ v s' = v s
  /\ t s' = t s /\ stepnum s' = stepnum s /\ ioutnum s' = ioutnum s
  /\ vv s' = vv s /\ tt s' = tt s /\ uu s' = uu s
  /\ x s' = x s /\ k s' = k s /\ l s' = l s.
Proof.
  unfold setup_etdrk4.
  do 10 (apply assign_final; [now repeat split | intros ? _]).
  now repeat split.
Qed.

Lemma setup_timeseries_keeps (s : KS) :
  let s' := final (setup_timeseries s None) in
  L s' = L s /\ N s' = N s /\ dt s' = dt s /\ nsteps s' = nsteps s
  /\ iout s' = iout s /\ nout s' = nout s /\ v0 s' = v0 s /\ v s' = v s
  /\ t s' = t s /\ stepnum s' = stepnum s /\ ioutnum s' = ioutnum s
  /\ uu s' = uu s.
Proof.
  unfold setup_timeseries.
  do 4 (apply assign_final; [now repeat split | intros ? _]).
  now repeat split.
Qed.

Lemma IC_default_keeps (s : KS) (r0 : option Z) (s' : KS) :
  IC s None None false = Return r0 s' ->
  r0 = None /\ 0 <= N s
  /\ L s' = L s /\ N s' = N s /\ dt s' = dt s /\ nsteps s' = nsteps s
  /\ iout s' = iout s /\ nout s' = nout s /\ uu s' = uu s
  /\ v s' = v0 s' /\ t s' = F_lit 0 1 /\ stepnum s' = 0 /\ ioutnum s' = 0.
Proof.
  unfold IC, assign.
  destruct (bind _ _) as [p|e] eqn:Hp; [|discriminate].
  intros [= <- <-]. simpl. repeat split.
  unfold random_noise in Hp.
  destruct (Z.ltb_spec (N s) 0); [discriminate | assumption].
Qed.

Lemma assign_returns {A : Type} (s : KS) (rhs : res A)
    (store : KS -> A -> KS) (rest : KS -> outcome) (r0 : option Z) (s' : KS) :
  assign s rhs store rest = Return r0 s' ->
  exists a, rhs = Ok a /\ rest (store s a) = Return r0 s'.
Proof.
  unfold assign. destruct rhs as [a|e]; [|discriminate].
  intros H. now exists a.
Qed.

Lemma call_returns (o : outcome) (rest : KS -> outcome) (r0 : option Z)
    (s' : KS) :
  call o rest = Return r0 s' ->
  exists r1 s1, o = Return r1 s1 /\ rest s1 = Return r0 s'.
Proof.
  unfold call. destruct o as [r1 s1|e s1]; [|discriminate].
  intros H. now exists r1, s1.
Qed.

Lemma setup_etdrk4_returns (s : KS) (r0 : option Z) (s' : KS) :
  setup_etdrk4 s = Return r0 s' -> r0 = None /\ M s' = 16.
Proof.
  unfold setup_etdrk4. intros H.
  do 2 (apply assign_returns in H; destruct H as (? & _ & H)).
  apply assign_returns in H. destruct H as (m & [= <-] & H).
  do 7 (apply assign_returns in H; destruct H as (? & _ & H)).
  injection H as <- <-. split; reflexivity.
Qed.

Lemma due_quot (n i : Z) :
  0 <= Z.quot n i -> (if 0 <? i then Z.max 0 n / i else 0) <= Z.quot n i.
Proof.
  intros H. destruct (Z.ltb_spec 0 i) as [Hi|Hi]; [|exact H].
  destruct (Z_le_gt_dec 0 n) as [Hn|Hn].
  - rewrite Z.max_r by lia. rewrite Z.quot_div_nonneg by lia. lia.
  - rewrite Z.max_l by lia. now rewrite Zdiv_0_l.
Qed.

(** X15: an object that the constructor returns is ready for a first
    run: it holds the arguments, [nout] is [nsteps/iout] truncated,
    [N > 0], the state is the initial condition at time 0 with both
    counters at 0, [uu] is not set, both buffers have [nout + 1] entries
    and there is room for every sample that a run of [nsteps] steps
    takes. *)
Theorem init_constructs (L' : F) (N' : Z) (dt' : F) (nsteps' : option Z)
    (tend : F) (iout' : Z) (r0 : option Z) (s : KS) :
  __init__ L' N' dt' nsteps' tend iout' = Return r0 s ->
  r0 = None
  /\ L s = L' /\ N s = N' /\ dt s = dt' /\ iout s = iout'
  /\ match nsteps' with Some n => nsteps s = n | None => True end
  /\ nout s = Z.quot (nsteps s) (iout s)
  /\ 0 < N s
  /\ v s = v0 s /\ t s = F_lit 0 1 /\ stepnum s = 0 /\ ioutnum s = 0
  /\ uu s = None /\ M s = 16
  /\ sized s /\ ioutnum s + due s <= nout s.
Proof.
  unfold __init__. intros H.
  apply assign_returns in H. destruct H as (n0 & Hn0 & H).
  apply assign_returns in H. destruct H as (dx' & Hdx & H).
  apply assign_returns in H. destruct H as (q & Hq & H).
  apply call_returns in H. destruct H as (r1 & s1 & HIC & H).
  apply call_returns in H. destruct H as (r2 & s2 & Hts & H).
  apply call_returns in H. destruct H as (r3 & s3 & Hsf & H).
  cbn [nsteps iout set_nsteps] in Hq.
  unfold py_div_int in Hdx.
  destruct (Z.eqb_spec N' 0) as [HN0|HN0]; [discriminate|].
  unfold int_div in Hq.
  destruct (Z.eqb_spec iout' 0) as [Hi0|Hi0]; [discriminate|].
  injection Hq as <-.
  apply IC_default_keeps in HIC. cbn in HIC.
  destruct HIC as (_ & I0 & I1 & I2 & I3 & I4 & I5 & I6 & I7 & I8 & I9
                   & I10 & I11).
  pose proof (setup_timeseries_keeps s1) as T. rewrite Hts in T. cbn in T.
  destruct T as (T1 & T2 & T3 & T4 & T5 & T6 & T7 & T8 & T9 & T10 & T11 & T12).
  apply setup_timeseries_sized in Hts. destruct Hts as ([Sv St] & Sn & _).
  pose proof (setup_fourier_keeps s2 None) as G. rewrite Hsf in G. cbn in G.
  destruct G as (G1 & G2 & G3 & G4 & G5 & G6 & G7 & G8 & G9 & G10 & G11
                 & G12 & G13 & G14).
  pose proof (setup_etdrk4_keeps s3) as K. rewrite H in K. cbn in K.
  destruct K as (K1 & K2 & K3 & K4 & K5 & K6 & K7 & K8 & K9 & K10 & K11
                 & K12 & K13 & K14 & _).
  apply setup_etdrk4_returns in H. destruct H as [-> HM].
  assert (Hns : nsteps s = n0) by congruence.
  assert (Hio : iout s = iout') by congruence.
  assert (Hno : nout s = Z.quot n0 iout') by congruence.
  assert (Hno2 : nout s2 = nout s) by congruence.
  split; [reflexivity|].
  split; [congruence|]. split; [congruence|]. split; [congruence|].
  split; [exact Hio|].
  split; [destruct nsteps'; [congruence | exact I]|].
  split; [congruence|].
  split; [assert (N s = N') by congruence; lia|].
  split; [congruence|]. split; [congruence|]. split; [congruence|].
  split; [congruence|]. split; [congruence|]. split; [exact HM|].
  split.
  - unfold sized. rewrite K12, K13, G12, G13. rewrite <- Hno2. now split.
  - assert (Hi : ioutnum s = 0) by congruence.
    rewrite Hi. unfold due. rewrite Hns, Hio, Hno. simpl.
    apply due_quot. rewrite <- Hno, <- Hno2. exact Sn.
Qed.

End ConstructorFacts.

(** ** Shapes through the set-up *)

Section ShapeFacts.

Context {Num : Numerics}.

Lemma broadcast2_mismatch {A : Type} (a b : list A) :
  length a <> length b -> length a <> 1%nat -> length b <> 1%nat ->
  broadcast2 a b = Err ValueError.
Proof.
  intros Hab Ha Hb. unfold broadcast2.
  destruct (Nat.eqb_spec (length a) (length b)); [contradiction|].
  destruct a as [|y [|y' a]]; [| now contradiction Ha |];
    destruct b as [|z [|z' b]]; try reflexivity; now contradiction Hb.
Qed.

Lemma mapM_length {A B : Type} (f : A -> res B) (a : list A) (b : list B) :
  mapM f a = Ok b -> length b = length a.
Proof.
  revert b. induction a as [|y a IH]; simpl; intros b H.
  - now injection H as <-.
  - destruct (f y); simpl in H; [|discriminate].
    destruct (mapM f a); simpl in H; [|discriminate].
    injection H as <-. simpl. f_equal. now apply IH.
Qed.

Lemma repeat_columns_length (a : ndarray) (m : nat) :
  length (repeat_columns a m) = size0 a.
Proof. destruct a; simpl; apply length_map. Qed.

Lemma LR_value_cases (s : KS) :
  size0 (l s) <> Z.to_nat (N s) -> size0 (l s) <> 1%nat ->
  Z.to_nat (N s) <> 1%nat ->
  (LR_value s = Err ValueError \/ LR_value s = Err FloatingPointError)
  /\ (quiet_setup -> LR_value s = Err ValueError).
Proof.
  intros Hl Hl1 HN1. unfold LR_value.
  destruct (scaled_rows_computes s (Z.to_nat (M s))) as (rows & Hc & _).
  assert (Hrows : mapM (nd_scale (dt s)) (repeat_columns (l s) (Z.to_nat (M s)))
                  = Ok rows ->
                  bind (mapM (nd_scale (dt s))
                          (repeat_columns (l s) (Z.to_nat (M s))))
                    (fun a => b <- repeat_rows (r s) (N s) ;;
                              apply2_2d np_add (map as_complex a) b)
                  = Err ValueError).
  { intros Hm. rewrite Hm. simpl. unfold repeat_rows.
    destruct (Z.ltb_spec (N s) 0); [reflexivity|]. simpl.
    apply mapM_length in Hm. rewrite repeat_columns_length in Hm.
    unfold apply2_2d.
    rewrite broadcast2_mismatch; [reflexivity | | |];
      rewrite ?length_map, ?repeat_length, ?Hm; assumption. }
  destruct Hc as [[Hm | Hm] Hq].
  - split; [left | intros _]; now apply Hrows.
  - split; [right; now rewrite Hm|].
    intros Q. apply Hrows. now apply Hq.
Qed.

(** X16: [setup_etdrk4] needs as many multipliers as grid points: when
    [l] has neither [N] entries nor one, and [N] is not 1, the sum that
    builds [LR] cannot be broadcast and [setup_etdrk4] raises ValueError
    (or FloatingPointError, when an operation before it signals),
    leaving [LR], [Q], [f1], [f2], [f3] and [g] as they were. *)
Theorem setup_etdrk4_mismatch (s : KS) :
  size0 (l s) <> Z.to_nat (N s) -> size0 (l s) <> 1%nat ->
  Z.to_nat (N s) <> 1%nat ->
  exists e s',
    setup_etdrk4 s = Raise e s'
    /\ (e = ValueError \/ e = FloatingPointError)
    /\ (quiet_setup -> e = ValueError)
    /\ LR s' = LR s /\ Q s' = Q s /\ f1 s' = f1 s /\ f2 s' = f2 s
    /\ f3 s' = f3 s /\ g s' = g s.
Proof.
  intros Hl Hl1 HN1. unfold setup_etdrk4.
  unfold assign at 1.
  destruct (E_computes s) as [[HE | HE] HEq]; rewrite HE;
    [|exists FloatingPointError, s;
      split; [reflexivity|]; split; [now right|];
      split; [intros Q0; rewrite (HEq Q0) in HE; discriminate|];
      now repeat split].
  unfold assign at 1. cbn [dt l set_E].
  destruct (E2_computes s) as [[HE2 | HE2] HE2q]; rewrite HE2;
    [|eexists FloatingPointError, _;
      split; [reflexivity|]; split; [now right|];
      split; [intros Q0; rewrite (HE2q Q0) in HE2; discriminate|];
      now repeat split].
  unfold assign at 1. unfold assign at 1. cbn [M set_M].
  destruct contour_computes as [[Hr | Hr] Hrq]; rewrite Hr;
    [|eexists FloatingPointError, _;
      split; [reflexivity|]; split; [now right|];
      split; [intros Q0; rewrite (Hrq Q0) in Hr; discriminate|];
      now repeat split].
  unfold assign at 1.
  set (s4 := set_r _ _).
  destruct (LR_value_cases s4) as [[HLR | HLR] HLRq]; try assumption.
  - rewrite HLR. exists ValueError, s4.
    split; [reflexivity|]. split; [now left|]. now repeat split.
  - rewrite HLR. exists FloatingPointError, s4.
    split; [reflexivity|]. split; [now right|].
    split; [intros Q0; rewrite (HLRq Q0) in HLR; discriminate|].
    now repeat split.
Qed.

Lemma init_stages (L' : F) (N' : Z) (dt' : F) (nsteps' : option Z)
    (tend : F) (iout' : Z) (r0 : option Z) (s : KS) :
  __init__ L' N' dt' nsteps' tend iout' = Return r0 s ->
  exists s0 r1 s1 r2 s2 r3 s3,
    N s0 = N' /\ N' <> 0
    /\ IC s0 None None false = Return r1 s1
    /\ setup_timeseries s1 None = Return r2 s2
    /\ setup_fourier s2 None = Return r3 s3
    /\ setup_etdrk4 s3 = Return r0 s.
Proof.
  unfold __init__. intros H.
  apply assign_returns in H. destruct H as (n0 & Hn0 & H).
  apply assign_returns in H. destruct H as (dx' & Hdx & H).
  apply assign_returns in H. destruct H as (q & Hq & H).
  apply call_returns in H. destruct H as (r1 & s1 & HIC & H).
  apply call_returns in H. destruct H as (r2 & s2 & Hts & H).
  apply call_returns in H. destruct H as (r3 & s3 & Hsf & H).
  unfold py_div_int in Hdx.
  destruct (Z.eqb_spec N' 0) as [HN0|HN0]; [discriminate|].
  match type of HIC with IC ?s0 _ _ _ = _ => exists s0 end.
  exists r1, s1, r2, s2, r3, s3.
  split; [reflexivity|]. split; [exact HN0|]. split; [exact HIC|].
  split; [exact Hts|]. split; [exact Hsf | exact H].
Qed.

(** X17: an odd number of grid points, 3 or more, is not supported: the
    wavenumbers are then one more than the grid points and the
    constructor never returns an object, whatever the other
    arguments. *)
Theorem init_odd_raises (L' : F) (N' : Z) (dt' : F) (nsteps' : option Z)
    (tend : F) (iout' : Z) :
  Z.odd N' = true -> 3 <= N' ->
  exists e s, __init__ L' N' dt' nsteps' tend iout' = Raise e s.
Proof.
  intros Hodd HN.
  destruct (__init__ L' N' dt' nsteps' tend iout') as [r0 s|e s] eqn:H;
    [exfalso | now exists e, s].
  apply init_stages in H.
  destruct H as (s1 & r1 & s2 & r2 & s3 & r4 & s4 & HN1 & _ & HIC & Hts
                 & Hsf & He).
  apply IC_default_keeps in HIC.
  destruct HIC as (_ & _ & _ & I2 & _).
  pose proof (setup_timeseries_keeps s2) as T. rewrite Hts in T. cbn in T.
  destruct T as (_ & T2 & _).
  assert (HN3 : N s3 = N') by congruence.
  pose proof (setup_fourier_keeps s3 None) as G. rewrite Hsf in G. cbn in G.
  destruct G as (_ & G2 & _).
  apply setup_fourier_sizes in Hsf; [|lia].
  destruct Hsf as (_ & Hk & Hl). rewrite Hk, HN3 in Hl.
  rewrite Zmod_odd, Hodd in Hl.
  unfold setup_etdrk4 in He.
  do 4 (apply assign_returns in He; destruct He as (? & _ & He)).
  apply assign_returns in He. destruct He as (lr & Hlr & _).
  match type of Hlr with
  | LR_value ?s5 = _ =>
      destruct (LR_value_cases s5) as [[Hc | Hc] _];
        [cbn [l N set_r set_M set_E2 set_E]; rewrite ?G2, ?HN3, ?Hl; lia ..
        | congruence | congruence]
  end.
Qed.

End ShapeFacts.

(** ** The constructed object can be stepped *)

Section ReadyFacts.

Context {Num : Numerics}.

Hypothesis fft_r_length : forall a : list F, length (fft_r a) = length a.
Hypothesis random_rand_length : forall n : nat, length (random_rand n) = n.

Lemma apply2_scalar_r_length {A : Type} (u : ufunc2 A) (a : list A) (c : A)
    (b : list A) :
  apply2 u a [c] = Ok b -> length b = length a.
Proof.
  intros H.
  apply (computes_value False _ _ _
           (apply2_scalar_r_computes False u a c
              (fun Q => match Q with end))) in H.
  subst b. apply length_map.
Qed.

Lemma IC_default_length (s : KS) (r0 : option Z) (s' : KS) :
  IC s None None false = Return r0 s' ->
  length (v0 s') = Z.to_nat (N s).
Proof.
  unfold IC, assign.
  destruct (random_noise s) as [u|e] eqn:Hu; simpl; [|discriminate].
  unfold random_noise in Hu.
  destruct (N s <? 0); [discriminate|].
  destruct (apply2 np_subtract_f _ _) as [d|e] eqn:Hd; simpl in Hu;
    [|discriminate].
  apply apply2_scalar_r_length in Hd. apply apply2_scalar_r_length in Hu.
  unfold fft_real. destruct u as [|y u]; simpl; [discriminate|].
  intros [= _ <-]. simpl.
  rewrite fft_r_length, Hu, Hd. apply random_rand_length.
Qed.

Lemma E_spec_size (s : KS) : size0 (E_spec s) = size0 (l s).
Proof.
  unfold E_spec, dt_l. destruct (l s); simpl; now rewrite !length_map.
Qed.

Lemma E2_spec_size (s : KS) : size0 (E2_spec s) = size0 (l s).
Proof.
  unfold E2_spec, dt_l. destruct (l s); simpl; now rewrite !length_map.
Qed.

Lemma setup_etdrk4_sizes (s : KS) (r0 : option Z) (s' : KS) (n : nat) :
  setup_etdrk4 s = Return r0 s' ->
  0 <= N s -> size0 (l s) = Z.to_nat (N s) -> n = Z.to_nat (N s) ->
  length (k s) = n ->
  size0 (E s') = n /\ size0 (E2 s') = n /\ length (Q s') = n
  /\ length (f1 s') = n /\ length (f2 s') = n /\ length (f3 s') = n
  /\ length (g s') = n /\ length (r s') = 16%nat /\ length (LR s') = n.
Proof.
  unfold setup_etdrk4. intros H HN Hl Hn Hk.
  apply assign_returns in H. destruct H as (e1 & H1 & H).
  apply (computes_value _ _ _ _ (E_computes s)) in H1.
  apply assign_returns in H. destruct H as (e2 & H2 & H).
  apply (computes_value _ _ _ _ (E2_computes _)) in H2.
  apply assign_returns in H. destruct H as (m & [= <-] & H).
  apply assign_returns in H. destruct H as (c & H4 & H).
  apply (computes_value _ _ _ _ contour_computes) in H4.
  apply assign_returns in H. destruct H as (lr & H5 & H).
  subst c.
  match type of H5 with
  | LR_value ?s4 = _ =>
      apply (computes_value _ _ _ _ (LR_computes s4 HN Hl eq_refl)) in H5
  end.
  apply assign_returns in H. destruct H as (q & H6 & H).
  apply (computes_value _ _ _ _ (Q_value_computes _)) in H6.
  apply assign_returns in H. destruct H as (a1 & H7 & H).
  apply (computes_value _ _ _ _ (f1_value_computes _)) in H7.
  apply assign_returns in H. destruct H as (a2 & H8 & H).
  apply (computes_value _ _ _ _ (f2_value_computes _)) in H8.
  apply assign_returns in H. destruct H as (a3 & H9 & H).
  apply (computes_value _ _ _ _ (f3_value_computes _)) in H9.
  apply assign_returns in H. destruct H as (a4 & H10 & H).
  apply (computes_value _ _ _ _ (g_computes _)) in H10.
  injection H as _ <-. cbn in *.
  assert (Hlr : length lr = n).
  { subst lr. unfold LR_spec. rewrite length_map, dt_l_length. cbn.
    congruence. }
  subst e1 e2 q a1 a2 a3 a4.
  rewrite E_spec_size, E2_spec_size. cbn.
  unfold g_spec. rewrite !length_map. cbn.
  repeat split; congruence.
Qed.

(** X18: for an even [N] the constructor establishes what [step] relies
    on: when it returns, [v], [E], [E2], [Q], [f1], [f2], [f3] and [g]
    all have [N] entries, as have [x], [k] and [l]; the contour has 16
    points and [LR] has [N] rows.  The transform and the random draw are
    taken to return as many entries as they are asked for. *)
Theorem init_shaped (L' : F) (N' : Z) (dt' : F) (nsteps' : option Z)
    (tend : F) (iout' : Z) (r0 : option Z) (s : KS) :
  Z.even N' = true ->
  __init__ L' N' dt' nsteps' tend iout' = Return r0 s ->
  shaped s (Z.to_nat N')
  /\ length (x s) = Z.to_nat N' /\ length (k s) = Z.to_nat N'
  /\ size0 (l s) = Z.to_nat N' /\ length (r s) = 16%nat
  /\ length (LR s) = Z.to_nat N'.
Proof.
  intros Heven H.
  apply init_stages in H.
  destruct H as (s1 & r1 & s2 & r2 & s3 & r4 & s4 & HN1 & HN0 & HIC & Hts
                 & Hsf & He).
  pose proof (IC_default_length _ _ _ HIC) as Hv0.
  apply IC_default_keeps in HIC.
  destruct HIC as (_ & I0 & _ & I2 & _ & _ & _ & _ & _ & I8 & _).
  pose proof (setup_timeseries_keeps s2) as T. rewrite Hts in T. cbn in T.
  destruct T as (_ & T2 & _ & _ & _ & _ & T7 & T8 & _).
  assert (HN3 : N s3 = N') by congruence.
  pose proof (setup_fourier_keeps s3 None) as G. rewrite Hsf in G. cbn in G.
  destruct G as (_ & G2 & _ & _ & _ & _ & G7 & G8 & _).
  apply setup_fourier_sizes in Hsf; [|lia].
  destruct Hsf as (Hx & Hk & Hl). rewrite Hk in Hl.
  rewrite HN3, Zmod_even, Heven, Z.add_0_r in Hk, Hl. rewrite HN3 in Hx.
  pose proof (setup_etdrk4_keeps s4) as K. rewrite He in K. cbn in K.
  destruct K as (_ & K2 & _ & _ & _ & _ & K7 & K8 & _ & _ & _ & _ & _ & _
                 & K15 & K16 & K17).
  apply (setup_etdrk4_sizes _ _ _ (Z.to_nat N')) in He;
    [|lia | congruence | congruence | congruence].
  destruct He as (S1 & S2 & S3 & S4 & S5 & S6 & S7 & S8 & S9).
  unfold shaped.
  assert (Hv : length (v s) = Z.to_nat N') by congruence.
  repeat split; try assumption; congruence.
Qed.

End ReadyFacts.

(** ** Initial conditions *)

Section InitialConditionFacts.

Context {Num : Numerics}.

(** X19: an initial condition given in Fourier space and accepted by
    [IC], followed by a restart, starts a run from it: after the first
    part of [simulate] the state is the given vector, both counters are
    0, row 0 of [vv] is its cast and the other [nout] rows are zeros, the
    buffers have [nout + 1] entries and there is room for every sample of
    the run. *)
Theorem IC_then_restart (s : KS) (u0' : option (list F)) (w : list C)
    (testing : bool) (nsteps_arg iout_arg : option Z) (r0 : option Z)
    (s1 s2 : KS) :
  IC s u0' (Some w) testing = Return None s1 ->
  enter s1 nsteps_arg iout_arg true = Return r0 s2 ->
  v s2 = w /\ stepnum s2 = 0 /\ ioutnum s2 = 0
  /\ vv s2 = map c64_of w
             :: repeat (repeat c64_zero (Z.to_nat (N s))) (Z.to_nat (nout s2))
  /\ sized s2 /\ ioutnum s2 + due s2 <= nout s2.
Proof.
  unfold IC.
  destruct (Z.eqb_spec (Z.of_nat (length w)) (N s)) as [Hlen|Hlen];
    [|discriminate].
  unfold assign. destruct (ifft w) as [u|e]; [|discriminate].
  cbv beta iota. intros [= <-] He.
  pose proof (enter_keeps (set_ic s (Complex128 u) w) nsteps_arg iout_arg true)
    as Hk.
  pose proof (enter_final (set_ic s (Complex128 u) w) nsteps_arg iout_arg true)
    as Hf.
  rewrite He in Hk, Hf. simpl in Hk, Hf.
  destruct Hk as (Hv & _ & Hs & _ & Hn & Hi). destruct Hf as (_ & Hio & _).
  apply enter_restart_fresh in He; [|exact Hlen].
  cbn in He. destruct He as (Hq & Hnn & Htt & Hvv).
  split; [exact Hv|]. split; [exact Hs|]. split; [exact Hio|].
  split; [exact Hvv|]. split.
  - unfold sized. rewrite Hvv, Htt. simpl. rewrite !repeat_length. lia.
  - rewrite Hio. unfold due. rewrite Hn, Hi, Hq. simpl.
    apply due_quot. now rewrite <- Hq.
Qed.

Lemma template_computes (s : KS) :
  computes quiet_template (template s) (map (template_point s) (x s)).
Proof.
  unfold template, lit.
  eapply computes_bind; [apply apply2_scalar_r_computes; intros Q; apply Q|].
  eapply computes_bind; [apply apply1_computes; intros Q; apply Q|].
  eapply computes_bind; [apply apply2_scalar_r_computes; intros Q; apply Q|].
  eapply computes_bind; [apply apply1_computes; intros Q; apply Q|].
  eapply computes_bind; [apply apply2_scalar_computes; intros Q; apply Q|].
  replace (map (template_point s) (x s))
    with (zip_with (call2 np_multiply_f)
            (map (call1 np_cos)
               (map (fun y => call2 np_divide_f y (L s)) (x s)))
            (map (call2 np_add_f (F_lit 1 1))
               (map (call1 np_sin)
                  (map (fun y => call2 np_divide_f y (L s)) (x s)))))
    by (rewrite !map_map, zip_with_map; reflexivity).
  apply apply2_computes; [intros Q; apply Q | now rewrite !length_map].
Qed.

(** X20: [IC] with [testing] and no vector given takes the template on
    the grid that the object holds: it either returns with
    u0[i] = cos(x[i]/L) (1 + sin(x[i]/L)), [v0] and [v] its transform and
    the clock and the counters at 0, or raises and leaves the object as
    it was: ValueError when the grid is empty, FloatingPointError
    otherwise; it returns when the grid is not empty and no operation
    signals. *)
Theorem IC_template (s : KS) :
  match IC s None None true with
  | Return r0 s' =>
      r0 = None /\ x s <> []
      /\ s' = set_ic s (Float64 (map (template_point s) (x s)))
                (fft_r (map (template_point s) (x s)))
  | Raise e s' =>
      s' = s /\ (e = FloatingPointError \/ (e = ValueError /\ x s = []))
  end
  /\ (quiet_template -> x s <> [] ->
      exists s', IC s None None true = Return None s').
Proof.
  unfold IC, assign.
  destruct (template_computes s) as [[Hu | Hu] Hq]; rewrite Hu; simpl.
  - unfold fft_real.
    destruct (x s) as [|y a] eqn:Hx; simpl.
    + split; [|intros _ H; now contradiction H].
      split; [reflexivity|]. right. now split.
    + split; [|intros _ _; now eexists].
      split; [reflexivity|]. split; [discriminate | reflexivity].
  - split; [split; [reflexivity | now left]|].
    intros Q _. rewrite (Hq Q) in Hu. discriminate.
Qed.

End InitialConditionFacts.

(** ** The Gaussian integers satisfy the laws asked of an arithmetic *)

Lemma GaussInt_dft_length (sign : Z) (a : list GaussInt.gint) :
  length (GaussInt.dft sign a) = length a.
Proof. unfold GaussInt.dft. now rewrite length_map, length_seq. Qed.

Lemma GaussInt_fft_length (a : list Z) :
  length (fft_r (Arith := GaussInt.arithZ) a) = length a.
Proof. simpl. now rewrite GaussInt_dft_length, length_map. Qed.

Lemma GaussInt_ifft_length (a : list GaussInt.gint) :
  length (ifft_c (Arith := GaussInt.arithZ) a) = length a.
Proof.
  simpl. unfold GaussInt.idft. now rewrite length_map, GaussInt_dft_length.
Qed.

Lemma GaussInt_mul_comm (a b : GaussInt.gint) :
  GaussInt.gmul a b = GaussInt.gmul b a.
Proof. destruct a, b. unfold GaussInt.gmul. simpl. f_equal; ring. Qed.

Lemma GaussInt_mul_twice (a b : GaussInt.gint) :
  GaussInt.gmul (GaussInt.gmul (2, 0) a) b
  = GaussInt.gmul (GaussInt.gmul (2, 0) b) a.
Proof.
  destruct a as [ar ai], b as [br bi]. unfold GaussInt.gmul. cbn [fst snd].
  apply f_equal2; ring.
Qed.

Lemma GaussInt_add_zero (z : GaussInt.gint) :
  call2 (np_add (Arith := GaussInt.arithZ)) z
        (complex_of (Arith := GaussInt.arithZ) (F_lit 0 1)) = z
  /\ fperr2 (np_add (Arith := GaussInt.arithZ)) z
            (complex_of (Arith := GaussInt.arithZ) (F_lit 0 1)) = false.
Proof.
  destruct z as [a b]. simpl. unfold GaussInt.gadd. simpl.
  rewrite !Z.add_0_r. split; [reflexivity|].
  destruct (GaussInt.coverflows (a, b)); reflexivity.
Qed.

Lemma GaussInt_absorbs_zero (z : GaussInt.gint) :
  absorbs_zero (Ar := GaussInt.arithZ) z.
Proof. apply GaussInt_add_zero. Qed.

Lemma GaussInt_zero_neutral (ns : list Z) (s : KS (Ar := GaussInt.arithZ)) :
  zero_neutral ns s.
Proof.
  revert s. induction ns as [|n ns IH]; intros s; simpl; [trivial|].
  destruct (step s) as [r s1|e s1]; [|trivial]. split.
  - apply Forall_forall. intros z _. apply GaussInt_absorbs_zero.
  - destruct (record s1 n); [apply IH | trivial].
Qed.

(** Over the Gaussian integers the value that [step] computes is the
    formula of the specification. *)
Lemma GaussInt_formula (s : KS (Ar := GaussInt.arithZ)) :
  etdrk4_code s = etdrk4_spec s.
Proof.
  apply etdrk4_code_agrees;
    [apply GaussInt_mul_comm | apply GaussInt_mul_twice].
Qed.

(** ** What binary64 satisfies *)

Lemma Binary64_fft_length (a : list (F (Arith := Binary64.arith64))) :
  length (fft_r (Arith := Binary64.arith64) a) = length a.
Proof.
  simpl. unfold Binary64.fft64, Binary64.dft.
  now rewrite length_map, length_seq, length_map.
Qed.

Lemma Binary64_ifft_length (a : list (C (Arith := Binary64.arith64))) :
  length (ifft_c (Arith := Binary64.arith64) a) = length a.
Proof.
  simpl. unfold Binary64.ifft64, Binary64.dft.
  now rewrite !length_map, length_seq.
Qed.

Lemma Binary64_add_zero (x : float) :
  Prim2SF x <> S754_zero true ->
  PrimFloat.add x PrimFloat.zero = x
  /\ Binary64.raised x PrimFloat.zero (PrimFloat.add x PrimFloat.zero) = false.
Proof.
  intros Hx.
  assert (Hadd : PrimFloat.add x PrimFloat.zero = x).
  { apply Prim2SF_inj. rewrite add_spec.
    change (Prim2SF PrimFloat.zero) with (S754_zero false).
    destruct (Prim2SF x) as [[|]| | |]; try reflexivity. now contradiction Hx. }
  split; [exact Hadd|].
  rewrite Hadd. unfold Binary64.raised, PrimFloat.is_finite.
  destruct (PrimFloat.is_nan x), (PrimFloat.is_infinity x); reflexivity.
Qed.

Lemma Binary64_absorbs_zero (z : C (Arith := Binary64.arith64)) :
  no_negative_zero z = true -> absorbs_zero (Ar := Binary64.arith64) z.
Proof.
  destruct z as [a b]. unfold no_negative_zero. cbn [fst snd]. intros H.
  assert (Ha : Prim2SF a <> S754_zero true).
  { intros E. rewrite E in H. discriminate. }
  assert (Hb : Prim2SF b <> S754_zero true).
  { intros E. rewrite E in H. destruct (Prim2SF a) as [[|]| | |]; discriminate. }
  destruct (Binary64_add_zero a Ha) as [Ea Fa].
  destruct (Binary64_add_zero b Hb) as [Eb Fb].
  unfold absorbs_zero.
  change (complex_of (Arith := Binary64.arith64) (F_lit 0 1))
    with (PrimFloat.zero, PrimFloat.zero).
  cbn. unfold Binary64.cadd, Binary64.pair_flagged, Binary64.op, Binary64.pure.
  cbn. rewrite Fa, Fb, Ea, Eb. now split.
Qed.

(** ** The theorems at the sample objects *)

#[local] Existing Instance Binary64.numerics64.



Lemma simulate_zero_correction_witness :
  simulate ks64 None None false (zero_correction ks64)
  = simulate ks64 None None false [].
Proof.
  apply (simulate_zero_correction (Ar := Binary64.arith64)
           Binary64_fft_length Binary64_ifft_length ks64 None None false).
  - repeat split.
  - apply (zero_neutralb_sound (Ar := Binary64.arith64) no_negative_zero _ _
             Binary64_absorbs_zero).
    vm_compute. reflexivity.
Defined.

(** In binary64 the sum -0.0 + 0.0 is +0.0: one step from a state with a
    component -0.0 ends with that component +0.0 under the correction of
    zeros and -0.0 without it. *)
Lemma zero_correction_flips_sign :
  shaped ks64_signed (Z.to_nat (N ks64_signed))
  /\ simulate ks64_signed (Some 1) None true (zero_correction ks64_signed)
     = Return None ks64_signed_zeros
  /\ simulate ks64_signed (Some 1) None true [] = Return None ks64_signed_plain
  /\ v ks64_signed_zeros <> v ks64_signed_plain.
Proof.
  split; [repeat split|]. split; [reflexivity|]. split; [reflexivity|].
  intros H.
  apply (f_equal (fun a => Prim2SF (snd (nth 1 a (PrimFloat.zero, PrimFloat.zero))))) in H.
  vm_compute in H. discriminate.
Qed.

Lemma returned_none_final {Ar : Arith} (o : outcome) :
  returned_none o = true -> o = Return None (final o).
Proof. destruct o as [[z|] s|e s]; simpl; congruence. Qed.

Lemma setup_etdrk4_coefficients_witness :
  match setup_etdrk4 ks64 with
  | Return r0 s' =>
      r0 = None
      /\ (E s' = E_spec ks64 /\ E2 s' = E2_spec ks64 /\ M s' = 16
          /\ r s' = contour_spec /\ LR s' = LR_spec ks64 contour_spec
          /\ Q s' = map (contour_mean_spec ks64 Q_integrand)
                        (as_complex (dt_l ks64))
          /\ f1 s' = map (contour_mean_spec ks64 f1_integrand)
                         (as_complex (dt_l ks64))
          /\ f2 s' = map (contour_mean_spec ks64 f2_integrand)
                         (as_complex (dt_l ks64))
          /\ f3 s' = map (contour_mean_spec ks64 f3_integrand)
                         (as_complex (dt_l ks64))
          /\ g s' = g_spec ks64)
  | Raise e _ => e = FloatingPointError
  end
  /\ (quiet_setup (Num := Binary64.numerics64) ->
      exists s', setup_etdrk4 ks64 = Return None s').
Proof.
  apply (setup_etdrk4_coefficients (Num := Binary64.numerics64) ks64).
  - discriminate.
  - reflexivity.
Defined.



Lemma init_rejects_witness :
  exists e s,
    __init__ (Num := Binary64.numerics64)
      (F_lit 16 1) 0 (F_lit 1 4) (Some 600) (F_lit 150 1) 1 = Raise e s.
Proof.
  apply (init_rejects (Num := Binary64.numerics64)).
  left. discriminate.
Defined.

(** The constructor accepts [nsteps = 0]. *)
Lemma init_accepts_zero_nsteps :
  exists s,
    __init__ (Num := Binary64.numerics64)
      (F_lit 16 1) 4 (F_lit 1 4) (Some 0) (F_lit 150 1) 1 = Return None s
    /\ nsteps s = 0 /\ nout s = 0.
Proof.
  exists (final (__init__ (Num := Binary64.numerics64)
                   (F_lit 16 1) 4 (F_lit 1 4) (Some 0) (F_lit 150 1) 1)).
  split; [|split]; [|vm_compute; reflexivity..].
  apply returned_none_final. vm_compute. reflexivity.
Qed.

Lemma series_invariant_run_witness :
  (forall done rest s2,
      range1 (nsteps ks64 + 1) = done ++ rest ->
      completes (try_block []) done ks64 = Some s2 ->
      series_invariant s2)
  /\ (let s' := final (simulate ks64 None None false []) in
      series_invariant s'
      /\ (length (vv s') <= length (vv ks64))%nat
      /\ (length (tt s') <= length (tt ks64))%nat)
  /\ (forall nout_arg r' s2,
        setup_timeseries ks64 nout_arg = Return r' s2 -> sized s2).
Proof.
  apply (series_invariant_run (Ar := Binary64.arith64) ks64 None None false []
           None ks64).
  - reflexivity.
  - split; reflexivity.
  - discriminate.
  - discriminate.
  - discriminate.
Defined.

(** A second [simulate] on the object of a completed run: the first
    sampling moves [ioutnum] past [nout] and the store raises
    IndexError. *)
Lemma second_run_overruns :
  exists s,
    simulate ks64_ran None None false [] = Raise IndexError s
    /\ nout s < ioutnum s.
Proof.
  exists ks64_ran_twice.
  split; reflexivity.
Qed.

Lemma IC_wrong_size_witness :
  IC (Num := Binary64.numerics64) ks64 (Some [F_lit 1 1; F_lit 2 1]) None false
  = Return minus_one ks64.
Proof.
  apply (IC_wrong_size (Num := Binary64.numerics64) ks64
           (Some [F_lit 1 1; F_lit 2 1]) None false).
  discriminate.
Defined.

Lemma simulate_fou2real_witness :
  (@None Z = None /\ exists rows,
      fou2real_value (vv ks64_ran) = Ok rows /\ uu ks64_ran = Some rows)
  \/ (None = minus_one /\ uu ks64_ran = uu ks64).
Proof.
  apply (simulate_fou2real (Ar := Binary64.arith64) ks64 None None false []
           None ks64_ran).
  reflexivity.
Defined.

(** A run cut by a divergence returns -1 with [uu] still unset, although
    the rows left in [vv] have an inverse transform. *)
Lemma diverged_run_not_converted :
  exists s,
    simulate ks64 None None false huge64 = Return minus_one s
    /\ uu s = None
    /\ exists rows, fou2real_value (vv s) = Ok rows.
Proof.
  exists ks64_cut.
  split; [reflexivity|]. split; [reflexivity|].
  eexists. reflexivity.
Qed.

Lemma recorded_rows_are_casts_witness :
  nth 0 (vv (final (setup_timeseries ks64 None))) [] = map c64_of (v0 ks64).
Proof.
  apply (proj1 recorded_rows_are_casts Binary64.arith64 ks64 None None).
  - reflexivity.
  - reflexivity.
Defined.

(** ** The further facts at the sample objects *)

Lemma completed_run_counts_witness :
  stepnum ks64_ran = stepnum ks64 + Z.max 0 (nsteps ks64)
  /\ ioutnum ks64_ran
     = ioutnum ks64
       + (if 0 <? iout ks64 then Z.max 0 (nsteps ks64) / iout ks64 else 0)
  /\ t ks64_ran
     = Nat.iter (Z.to_nat (nsteps ks64)) (fun y => py_add y (dt ks64)) (t ks64).
Proof.
  apply (completed_run_counts (Ar := Binary64.arith64) ks64 None None false []
           ks64_ran).
  reflexivity.
Defined.

Lemma earlier_samples_kept_witness :
  (forall s1 done rest s2,
      enter ks64 None None false = Return None s1 ->
      range1 (nsteps s1 + 1) = done ++ rest ->
      completes (try_block []) done s1 = Some s2 ->
      nth 0 (vv s2) [] = nth 0 (vv ks64) []
      /\ nth 0 (tt s2) (F_lit 0 1) = nth 0 (tt ks64) (F_lit 0 1))
  /\ (forall s', simulate ks64 None None false [] = Return None s' ->
        nth 0 (vv s') [] = nth 0 (vv ks64) []
        /\ nth 0 (tt s') (F_lit 0 1) = nth 0 (tt ks64) (F_lit 0 1)).
Proof.
  apply (earlier_samples_kept (Ar := Binary64.arith64) ks64 None None [] 0).
  - discriminate.
  - discriminate.
Defined.

Lemma no_stride_no_samples_witness :
  vv ks64_unsampled = vv ks64 /\ tt ks64_unsampled = tt ks64
  /\ ioutnum ks64_unsampled = ioutnum ks64.
Proof.
  apply (no_stride_no_samples (Ar := Binary64.arith64) ks64 None (Some 0) []
           ks64_unsampled).
  - discriminate.
  - reflexivity.
Defined.

Lemma simulate_no_steps_witness :
  simulate ks64 (Some 0) None false [] = fou2real (set_nsteps ks64 0)
  /\ (let s' := final (fou2real (set_nsteps ks64 0)) in
      v s' = v ks64 /\ t s' = t ks64 /\ stepnum s' = stepnum ks64
      /\ ioutnum s' = ioutnum ks64 /\ vv s' = vv (set_nsteps ks64 0)
      /\ tt s' = tt (set_nsteps ks64 0)).
Proof.
  apply (simulate_no_steps (Ar := Binary64.arith64) ks64 (Some 0) None false []
           None (set_nsteps ks64 0)).
  - reflexivity.
  - discriminate.
Defined.

Lemma simulate_empty_state_witness :
  step (set_v ks64 []) = Raise ValueError (set_v ks64 [])
  /\ simulate (set_v ks64 []) None None false []
     = Raise ValueError (set_v ks64 []).
Proof.
  apply (simulate_empty_state (Ar := Binary64.arith64) (set_v ks64 []) None
           None false [] None (set_v ks64 [])).
  - reflexivity.
  - reflexivity.
  - discriminate.
Defined.

Lemma simulate_wrong_correction_witness :
  simulate ks64 None None false [complex_of (F_lit 0 1); complex_of (F_lit 0 1)]
  = Raise ValueError ks64_stepped
  /\ stepnum ks64_stepped = stepnum ks64 + 1.
Proof.
  apply (simulate_wrong_correction (Ar := Binary64.arith64) ks64 None None
           false [complex_of (F_lit 0 1); complex_of (F_lit 0 1)]
           None None ks64 ks64_stepped).
  - reflexivity.
  - discriminate.
  - reflexivity.
  - discriminate.
  - discriminate.
  - discriminate.
Defined.

Lemma simulate_restart_zero_stride_witness :
  exists s',
    simulate ks64 None (Some 0) true [] = Raise ZeroDivisionError s'
    /\ vv s' = vv ks64 /\ tt s' = tt ks64 /\ v s' = v ks64
    /\ nout s' = nout ks64 /\ ioutnum s' = ioutnum ks64.
Proof.
  apply (simulate_restart_zero_stride (Ar := Binary64.arith64) ks64 None
           (Some 0) []).
  reflexivity.
Defined.

Lemma restart_resets_buffers_only_witness :
  nout ks64_rerun = Z.quot (nsteps ks64_ran) (iout ks64_ran)
  /\ 0 <= nout ks64_rerun
  /\ tt ks64_rerun = repeat (F_lit 0 1) (Z.to_nat (nout ks64_rerun + 1))
  /\ vv ks64_rerun
     = map c64_of (v0 ks64_ran)
       :: repeat (repeat c64_zero (Z.to_nat (N ks64_ran)))
            (Z.to_nat (nout ks64_rerun))
  /\ v ks64_rerun = v ks64_ran /\ t ks64_rerun = t ks64_ran
  /\ stepnum ks64_rerun = stepnum ks64_ran
  /\ ioutnum ks64_rerun = ioutnum ks64_ran.
Proof.
  apply (restart_resets_buffers_only (Ar := Binary64.arith64) ks64_ran None
           None None ks64_rerun).
  - reflexivity.
  - reflexivity.
Defined.

Lemma setup_timeseries_negative_witness :
  exists e s',
    setup_timeseries ks64 (Some (-1)) = Raise e s' /\ nout s' = -1
    /\ (if (-1 <? -1) || (N ks64 <? 0)
        then e = ValueError /\ vv s' = vv ks64 /\ tt s' = tt ks64
        else e = IndexError /\ vv s' = [] /\ tt s' = []).
Proof.
  apply (setup_timeseries_negative (Ar := Binary64.arith64) ks64 (-1)).
  discriminate.
Defined.

Lemma fou2real_rows_witness :
  fou2real ks64
  = Return None
      (set_uu ks64
         (map (fun row => map np_real32 (ifft_c64 row)) (vv ks64))).
Proof.
  apply (proj2 (fou2real_rows (Ar := Binary64.arith64) ks64)).
  intros H. repeat (destruct H as [H | H]; [discriminate H|]). exact H.
Defined.

Lemma setup_fourier_multipliers_witness :
  match setup_fourier ks64 None with
  | Return r0 s' =>
      r0 = None
      /\ s' = set_l (set_k (set_x ks64 (map (x_point ks64) (arange (N ks64))))
                       (map (k_point ks64) (wavenumbers (N ks64))))
                (Float64 (map l_point
                            (map (k_point ks64) (wavenumbers (N ks64)))))
  | Raise e _ => e = FloatingPointError
  end
  /\ (quiet_fourier (Num := Binary64.numerics64) ->
      exists s', setup_fourier ks64 None = Return None s').
Proof.
  apply (setup_fourier_multipliers (Num := Binary64.numerics64) ks64).
Defined.

Lemma setup_fourier_lengths_witness :
  length (x ks64) = Z.to_nat (N ks64)
  /\ (Z.even (N ks64) = true ->
      length (k ks64) = Z.to_nat (N ks64)
      /\ size0 (l ks64) = Z.to_nat (N ks64))
  /\ (Z.odd (N ks64) = true ->
      length (k ks64) = Z.to_nat (N ks64 + 1)
      /\ size0 (l ks64) = Z.to_nat (N ks64 + 1)).
Proof.
  apply (setup_fourier_lengths (Num := Binary64.numerics64) ks64 None ks64).
  - discriminate.
  - reflexivity.
Defined.

Lemma setup_fourier_zero_L_witness :
  exists s',
    setup_fourier ks64_flat None = Raise FloatingPointError s'
    /\ k s' = k ks64_flat /\ l s' = l ks64_flat.
Proof.
  apply (setup_fourier_zero_L (Num := Binary64.numerics64) ks64_flat None).
  reflexivity.
Defined.

Lemma setup_fourier_altered_witness :
  match setup_fourier ks64 (Some [F_lit 1 1; F_lit 2 1]) with
  | Return r0 s' =>
      r0 = None
      /\ exists c0 c1 c2 c3 c4 rest,
           [F_lit 1 1; F_lit 2 1] = c0 :: c1 :: c2 :: c3 :: c4 :: rest
           /\ k s' = map (k_point ks64) (wavenumbers (N ks64))
           /\ l s' = Complex128 (map (altered_point c0 c1 c2 c3 c4) (k s'))
  | Raise e s' =>
      (e = FloatingPointError
       \/ (e = IndexError /\ (length [F_lit 1 1; F_lit 2 1] < 5)%nat))
      /\ l s' = l ks64
  end
  /\ (quiet_fourier (Num := Binary64.numerics64) ->
      (5 <= length [F_lit 1 1; F_lit 2 1])%nat ->
      exists s', setup_fourier ks64 (Some [F_lit 1 1; F_lit 2 1])
                 = Return None s').
Proof.
  apply (setup_fourier_altered (Num := Binary64.numerics64) ks64
           [F_lit 1 1; F_lit 2 1]).
Defined.

Lemma Binary64_draw_length (n : nat) (seed : Z) :
  length (Binary64.draw n seed) = n.
Proof.
  revert seed. induction n as [|n IH]; intros seed; simpl;
    [reflexivity | now rewrite IH].
Qed.

Lemma init_constructs_witness :
  @None Z = None
  /\ L ks64 = F_lit 16 1 /\ N ks64 = 4 /\ dt ks64 = F_lit 1 4 /\ iout ks64 = 1
  /\ nsteps ks64 = 3
  /\ nout ks64 = Z.quot (nsteps ks64) (iout ks64)
  /\ 0 < N ks64
  /\ v ks64 = v0 ks64 /\ t ks64 = F_lit 0 1 /\ stepnum ks64 = 0
  /\ ioutnum ks64 = 0
  /\ uu ks64 = None /\ M ks64 = 16
  /\ sized ks64 /\ ioutnum ks64 + due ks64 <= nout ks64.
Proof.
  apply (init_constructs (Num := Binary64.numerics64)
           (F_lit 16 1) 4 (F_lit 1 4) (Some 3) (F_lit 150 1) 1 None ks64).
  reflexivity.
Defined.

Lemma setup_etdrk4_mismatch_witness :
  exists e s',
    setup_etdrk4 (set_l ks64 (Float64 [F_lit 0 1; F_lit 0 1; F_lit 0 1]))
    = Raise e s'
    /\ (e = ValueError \/ e = FloatingPointError)
    /\ (quiet_setup (Num := Binary64.numerics64) -> e = ValueError)
    /\ LR s' = LR ks64 /\ Q s' = Q ks64 /\ f1 s' = f1 ks64 /\ f2 s' = f2 ks64
    /\ f3 s' = f3 ks64 /\ g s' = g ks64.
Proof.
  apply (setup_etdrk4_mismatch (Num := Binary64.numerics64)
           (set_l ks64 (Float64 [F_lit 0 1; F_lit 0 1; F_lit 0 1]))).
  - discriminate.
  - discriminate.
  - discriminate.
Defined.

Lemma init_odd_raises_witness :
  exists e s,
    __init__ (Num := Binary64.numerics64)
      (F_lit 16 1) 5 (F_lit 1 4) (Some 3) (F_lit 150 1) 1 = Raise e s.
Proof.
  apply (init_odd_raises (Num := Binary64.numerics64)).
  - reflexivity.
  - discriminate.
Defined.

Lemma init_shaped_witness :
  shaped ks64 (Z.to_nat 4)
  /\ length (x ks64) = Z.to_nat 4 /\ length (k ks64) = Z.to_nat 4
  /\ size0 (l ks64) = Z.to_nat 4 /\ length (r ks64) = 16%nat
  /\ length (LR ks64) = Z.to_nat 4.
Proof.
  apply (init_shaped (Num := Binary64.numerics64)
           Binary64_fft_length (fun n => Binary64_draw_length n 20181105)
           (F_lit 16 1) 4 (F_lit 1 4) (Some 3) (F_lit 150 1) 1 None ks64).
  - reflexivity.
  - reflexivity.
Defined.

Lemma IC_then_restart_witness :
  v ks64_again = v0 ks64 /\ stepnum ks64_again = 0 /\ ioutnum ks64_again = 0
  /\ vv ks64_again
     = map c64_of (v0 ks64)
       :: repeat (repeat c64_zero (Z.to_nat (N ks64)))
            (Z.to_nat (nout ks64_again))
  /\ sized ks64_again /\ ioutnum ks64_again + due ks64_again <= nout ks64_again.
Proof.
  apply (IC_then_restart (Num := Binary64.numerics64) ks64 None (v0 ks64) false
           None None None ks64_again ks64_again).
  - reflexivity.
  - reflexivity.
Defined.

Lemma IC_template_witness :
  match IC ks64 None None true with
  | Return r0 s' =>
      r0 = None /\ x ks64 <> []
      /\ s' = set_ic ks64 (Float64 (map (template_point ks64) (x ks64)))
                (fft_r (map (template_point ks64) (x ks64)))
  | Raise e s' =>
      s' = ks64
      /\ (e = FloatingPointError \/ (e = ValueError /\ x ks64 = []))
  end
  /\ (quiet_template (Num := Binary64.numerics64) -> x ks64 <> [] ->
      exists s', IC ks64 None None true = Return None s').
Proof.
  apply (IC_template (Num := Binary64.numerics64) ks64).
Defined.
